(** * Caves of Qud for Foundry VTT: dice, body hierarchy and derived stats

    A shallow embedding of the computational core of the system together
    with the properties its specification states about it.  The modules
    follow the source files: [Dice] is helpers/dice.mjs (unnamed/part_001),
    [CAVESOFQUD] is helpers/config.mjs (unnamed/part_002), [BodyParts] is
    helpers/bodyparts.mjs (the second module of unnamed/part_003), and
    [Data], [Actor] and [Mutation] are documents/actor.mjs
    (unnamed/part_004), as are the equip methods in [Equipment] and the
    combat methods at the end of [Combat]; [Cooldowns] is
    helpers/cooldowns.mjs and the rest of [Combat] is helpers/combat.mjs
    (the first module of unnamed/part_003).

    Conventions of the embedding.
    - JavaScript numbers that hold integers are [Z]; the two places where the
      code divides (group averages, regeneration rate) use exact rationals [Q]
      in place of IEEE doubles.
    - A JavaScript object used as a dictionary keyed by body-part id is a
      [gmap string _]; ordered collections (the [items] collection, arrays)
      are lists.
    - [null]/[undefined] fields are [option]s; a JavaScript truthiness test
      on such a field is written out ([JS.truthy_id], [JS.orZ]).
    - Dice are drawn from a forced sequence of raw die faces (the
      substitution point of the random source): a roll consumes the head of
      the sequence, and an exhausted sequence yields [None]. *)

From Stdlib Require Import ZArith QArith Qround.
From stdpp Require Import gmap strings list fin_maps pretty.

Local Open Scope Z_scope.

(** ** The random die source *)

Module Dice.

(** A computation that draws from the forced sequence of raw die faces. *)
Definition Rolling (A : Type) : Type := list Z → option (A * list Z).

#[global] Instance rolling_ret : MRet Rolling := λ A a dice, Some (a, dice).

#[global] Instance rolling_bind : MBind Rolling := λ A B k m dice,
  match m dice with
  | Some (a, dice') => k a dice'
  | None => None
  end.

Record DieRoll := { raw : Z; modified : Z }.

Record Singlet := {
  total : Z;
  rolls : list DieRoll;
  exploded : bool;
  explosionChain : list Z
}.

(** The [while (continueRolling)] loop of [rollQudSinglet].  Each iteration
    evaluates [new Roll("1d10")], which takes the next face [dieResult] of
    the forced sequence, so the loop is structural in that sequence. *)
Fixpoint singletLoop (total : Z) (rolls : list DieRoll) (dice : list Z)
  : option (Z * list DieRoll * list Z) :=
  match dice with
  | [] => None
  | dieResult :: dice' =>
      let modified := dieResult - 2 in
      let rolls := rolls ++ [{| raw := dieResult; modified := modified |}] in
      let total := total + modified in
      if modified =? 8 then singletLoop total rolls dice'
      else Some (total, rolls, dice')
  end.

Definition rollQudSinglet : Rolling Singlet :=
  λ dice, match singletLoop 0 [] dice with
          | Some (total, rolls, rest) =>
              Some ({| total := total;
                       rolls := rolls;
                       exploded := (1 <? length rolls)%nat;
                       explosionChain := raw <$> rolls |}, rest)
          | None => None
          end.

Record Triplet := {
  singlets : list Singlet;
  attackerPV : Z;
  defenderAV : Z;
  targetNumber : Z;
  singletsPassed : Z;
  penetrations : Z;
  allPassed : bool
}.

(** The predicate of [singlets.filter(s => (s.total + attackerPV) >= defenderAV)]. *)
Definition singletPasses (attackerPV defenderAV : Z) (s : Singlet) : bool :=
  defenderAV <=? total s + attackerPV.

(** The part of [rollQudTriplet] after the three singlets are rolled. *)
Definition evaluateTriplet (attackerPV defenderAV : Z) (singlets : list Singlet)
  : Triplet :=
  let singletsPassed :=
    Z.of_nat (length (List.filter (singletPasses attackerPV defenderAV) singlets)) in
  {| singlets := singlets;
     attackerPV := attackerPV;
     defenderAV := defenderAV;
     targetNumber := defenderAV;
     singletsPassed := singletsPassed;
     penetrations := if 0 <? singletsPassed then 1 else 0;
     allPassed := singletsPassed =? 3 |}.

(** [Promise.all] of three [rollQudSinglet()] calls: the three singlets are
    taken from the forced sequence one after the other. *)
Definition rollQudTriplet (attackerPV defenderAV : Z) : Rolling Triplet :=
  s1 ← rollQudSinglet;
  s2 ← rollQudSinglet;
  s3 ← rollQudSinglet;
  mret (evaluateTriplet attackerPV defenderAV [s1; s2; s3]).

Record Penetration := {
  triplets : list Triplet;
  totalPenetrations : Z;
  initialPV : Z;
  finalPV : Z
}.

(** The [while (continueRolling && currentPV > 0)] loop of
    [resolvePenetration].  An iteration that goes on lowers [currentPV] by
    two, so [Z.to_nat currentPV] iterations always suffice; [fuel] is that
    bound and the [O] branch is never reached from [resolvePenetration]
    (lemma [penetrationLoop_fuel]). *)
Fixpoint penetrationLoop (fuel : nat) (defenderAV currentPV totalPenetrations : Z)
    (triplets : list Triplet) (continueRolling : bool)
  : Rolling (Z * Z * list Triplet) :=
  if continueRolling && (0 <? currentPV) then
    match fuel with
    | O => λ _, None
    | S fuel' =>
        triplet ← rollQudTriplet currentPV defenderAV;
        let triplets := triplets ++ [triplet] in
        let totalPenetrations := totalPenetrations + penetrations triplet in
        if allPassed triplet
        then penetrationLoop fuel' defenderAV (currentPV - 2) totalPenetrations
               triplets continueRolling
        else penetrationLoop fuel' defenderAV currentPV totalPenetrations
               triplets false
    end
  else mret (currentPV, totalPenetrations, triplets).

Definition resolvePenetration (attackerPV defenderAV : Z) : Rolling Penetration :=
  r ← penetrationLoop (Z.to_nat attackerPV) defenderAV attackerPV 0 [] true;
  let '(currentPV, totalPenetrations, triplets) := r in
  mret {| triplets := triplets;
         totalPenetrations := totalPenetrations;
         initialPV := attackerPV;
         finalPV := currentPV |}.

End Dice.


(** ** JavaScript values *)

Module JS.

(** Truthiness of a field holding an id string or [null]: [null],
    [undefined] and the empty string are falsy. *)
Definition truthy_id (o : option string) : bool :=
  match o with
  | Some s => negb (String.eqb s "")
  | None => false
  end.

(** Truthiness of a string: only the empty string is falsy. *)
Definition truthy_str (s : string) : bool := negb (String.eqb s "").

(** [x || d] on a numeric field that may be [undefined]: [0] is falsy. *)
Definition orZ (o : option Z) (d : Z) : Z :=
  match o with
  | Some v => if v =? 0 then d else v
  | None => d
  end.

(** [s.includes(sub)]. *)
Definition includes (s sub : string) : bool :=
  match String.index 0 sub s with
  | Some _ => true
  | None => false
  end.

(** [Math.floor(a / b)] for integers [a] and a positive integer [b]. *)
Definition floorDiv (a b : Z) : Z := a `div` b.

Definition sumZ (l : list Z) : Z := foldl Z.add 0 l.

(** [values.reduce((sum, v) => sum + v, 0) / values.length]. *)
Definition average (values : list Z) : Q :=
  (inject_Z (sumZ values) / inject_Z (Z.of_nat (length values)))%Q.

End JS.

(** ** helpers/config.mjs *)

Module CAVESOFQUD.

Module baseValues.
Definition attributeBase : Z := 16.
Definition dvBase : Z := 6.
Definition pvBase : Z := 4.
Definition maBase : Z := 4.
Definition carryCapacityMultiplier : Z := 15.
Definition skillPointsTrueKin : Z := 70.
Definition skillPointsMutant : Z := 50.
Definition skillPointsPerInt : Z := 4.
Definition hpRegenBase : Z := 20.
Definition hpRegenMultiplier : Z := 2.
Definition cooldownReductionPercent : Z := 5.
Definition cooldownReductionMax : Z := 80.
Definition cooldownMinimum : Z := 5.
Definition regenInterruptTurns : Z := 5.
End baseValues.

Record PartProperties := {
  mortal : bool;
  appendage : bool;
  mobility : Z;
  usuallyOn : option string;
  attackChance : option Z
}.

Record BodyPartType := {
  name : string;
  canEquip : bool;
  slotType : string;
  canWield : bool;
  variants : list string;
  properties : PartProperties
}.

Definition mkType (name : string) (canEquip : bool) (slotType : string)
    (canWield : bool) (variants : list string) (mortal appendage : bool)
    (mobility : Z) (usuallyOn : option string) (attackChance : option Z)
  : BodyPartType :=
  {| name := name; canEquip := canEquip; slotType := slotType;
     canWield := canWield; variants := variants;
     properties := {| mortal := mortal; appendage := appendage;
                      mobility := mobility; usuallyOn := usuallyOn;
                      attackChance := attackChance |} |}.

(** The [CAVESOFQUD.bodyPartTypes] table, in source order. *)
Definition bodyPartTypeTable : list (string * BodyPartType) :=
  [ ("Body", mkType "Body" true "body" false
       ["Body"; "Chassis"; "Torso"; "Core"; "Shell"; "Carapace"]
       true false 0 None None);
    ("Head", mkType "Head" true "head" false
       ["Head"; "Skull"; "Control Unit"; "Nuclear Protrusion"; "Ear";
        "Head Section"; "Brain Case"]
       false true 0 (Some "Body") None);
    ("Face", mkType "Face" true "face" false
       ["Face"; "Sensory Nodule"; "Eye"; "Antennae"; "Sensor Array"; "Optics"]
       false false 0 (Some "Head") None);
    ("Back", mkType "Back" true "back" false
       ["Back"; "Case"; "Membrane"; "Blanket"; "Carapace Back"; "Shell"]
       false false 0 (Some "Body") None);
    ("Arm", mkType "Arm" true "arm" false
       ["Arm"; "Robo-Arm"; "Armbone"; "Stalk"; "Tentacle Arm"; "Limb"]
       false true 5 (Some "Body") None);
    ("Hand", mkType "Hand" true "hand" true
       ["Hand"; "Manipulator"; "Claw"; "Pincer"; "Tentacle"; "Paw"; "Hoof"]
       false true 0 (Some "Arm") (Some 15));
    ("BurrowingClaw", mkType "Burrowing Claw" true "hand" true
       ["Burrowing Claw"]
       false true 0 (Some "Arm") (Some 15));
    ("Feet", mkType "Feet" true "feet" false
       ["Feet"; "Footbones"; "Legs"; "Support Struts"; "Hooves"; "Pads"; "Talons"]
       false true 10 (Some "Body") None);
    ("FloatingNearby", mkType "Floating Nearby" true "floating" false
       ["Floating Nearby"]
       false false 0 (Some "Body") None);
    ("Tail", mkType "Tail" false "tail" false
       ["Tail"; "Tail Spine"; "Stinger Tail"]
       false true 0 (Some "Body") None);
    ("Fin", mkType "Fin" false "fin" false
       ["Fin"; "Dorsal Fin"; "Tail Fin"]
       false true 0 (Some "Body") None);
    ("Roots", mkType "Roots" true "roots" false
       ["Roots"; "Support Hyphae"; "Mulch"; "Stakes"]
       false false 0 (Some "Body") None);
    ("Tread", mkType "Tread" true "tread" false
       ["Tread"; "Wheels"; "Tracks"]
       false false 15 (Some "Body") None);
    ("FungalOutcrop", mkType "Fungal Outcrop" false "fungal" false
       ["Fungal Outcrop"; "Lichen Patch"; "Mushroom Cap"]
       false false 0 None None);
    ("IcyOutcrop", mkType "Icy Outcrop" false "icy" false
       ["Icy Outcrop"; "Frost Formation"; "Ice Shard"]
       false false 0 None None) ].

(** Lookup in an object literal whose keys are written in the source
    (properties inherited from [Object.prototype] are not modelled). *)
Fixpoint assoc {A} (key : string) (table : list (string * A)) : option A :=
  match table with
  | [] => None
  | (k, v) :: rest => if String.eqb k key then Some v else assoc key rest
  end.

(** [CAVESOFQUD.bodyPartTypes[type]]. *)
Definition bodyPartTypes (type : string) : option BodyPartType :=
  assoc type bodyPartTypeTable.

Record DamageTier := { minLevel : Z; maxLevel : Z; damage : string }.

Record NaturalWeaponFormula := {
  damageByLevel : option (list DamageTier);
  damageFormula : option string;
  pvFormula : option string;
  avFormula : option string;
  maxQuillsFormula : option string;
  sprintSpeedFormula : option string
}.

Definition tier (lo hi : Z) (d : string) : DamageTier :=
  {| minLevel := lo; maxLevel := hi; damage := d |}.

(** The [CAVESOFQUD.naturalWeaponFormulas] table ([weaponClass] and
    [attackChance] are never read by the code and are left out). *)
Definition naturalWeaponFormulaTable : list (string * NaturalWeaponFormula) :=
  [ ("BurrowingClaws",
      {| damageByLevel := Some [ tier 1 3 "1d2-1"; tier 4 6 "1d3-1";
                                 tier 7 9 "1d4-1"; tier 10 12 "1d6-1";
                                 tier 13 15 "1d8-1"; tier 16 17 "1d10-1";
                                 tier 18 99 "1d12-1" ];
         damageFormula := None;
         pvFormula := Some "level * 3";
         avFormula := None; maxQuillsFormula := None;
         sprintSpeedFormula := None |});
    ("Horns",
      {| damageByLevel := None;
         damageFormula := Some "2d(Math.floor(level / 3) + 3)";
         pvFormula := None;
         avFormula := Some "Math.floor((level - 1) / 3) + 1";
         maxQuillsFormula := None; sprintSpeedFormula := None |});
    ("Stinger",
      {| damageByLevel := Some [ tier 1 3 "1d6"; tier 4 6 "1d8";
                                 tier 7 12 "1d10"; tier 13 18 "1d12";
                                 tier 19 99 "2d8" ];
         damageFormula := None; pvFormula := None; avFormula := None;
         maxQuillsFormula := None; sprintSpeedFormula := None |});
    ("Quills",
      {| damageByLevel := None; damageFormula := None; pvFormula := None;
         avFormula := Some "1 + Math.floor(level / 2)";
         maxQuillsFormula := Some "300 + (level - 1) * 100";
         sprintSpeedFormula := None |});
    ("Wings",
      {| damageByLevel := None; damageFormula := None; pvFormula := None;
         avFormula := None; maxQuillsFormula := None;
         sprintSpeedFormula := Some "10 + (level - 1) * 10" |}) ].

(** [CAVESOFQUD.naturalWeaponFormulas[name]]. *)
Definition naturalWeaponFormulas (name : string) : option NaturalWeaponFormula :=
  assoc name naturalWeaponFormulaTable.

(** [CAVESOFQUD.getNaturalWeaponDamage(mutationType, level)]; [None] is the
    [null] result.  A [damageByLevel] table is never empty in the
    configuration, so its last tier exists. *)
Definition getNaturalWeaponDamage (mutationType : string) (level : Z)
  : option string :=
  match naturalWeaponFormulas mutationType with
  | None => None
  | Some formula =>
      match damageByLevel formula with
      | Some tiers =>
          match List.find (λ t, (minLevel t <=? level) && (level <=? maxLevel t)) tiers with
          | Some t => Some (damage t)
          | None => damage <$> last tiers
          end
      | None =>
          match damageFormula formula with
          | Some _ =>
              let diceCount := 2 in
              let diceSize := JS.floorDiv level 3 + 3 in
              Some (pretty diceCount +:+ "d" +:+ pretty diceSize)
          | None => None
          end
      end
  end.

End CAVESOFQUD.

(** ** helpers/cooldowns.mjs *)

Module Cooldowns.



End Cooldowns.

(** ** helpers/bodyparts.mjs *)

Module BodyParts.

Record NaturalArmor := { av : Z; source : string }.

(** A node of the body hierarchy.  [naturalArmor], [hasWings] and
    [offhandChance] are the derived fields that actor.mjs writes onto the
    part ([hasWings] is [false] until it is first written). *)
Record BodyPart := {
  id : string;
  type : string;
  variant : string;
  laterality : string;
  parent : option string;
  children : list string;
  equipment : option string;
  properties : CAVESOFQUD.PartProperties;
  chimeraOrigin : bool;
  naturalArmor : option NaturalArmor;
  hasWings : bool;
  offhandChance : option Z
}.

Definition set_type (t : string) (p : BodyPart) : BodyPart :=
  {| id := id p; type := t; variant := variant p; laterality := laterality p;
     parent := parent p; children := children p; equipment := equipment p;
     properties := properties p; chimeraOrigin := chimeraOrigin p;
     naturalArmor := naturalArmor p; hasWings := hasWings p;
     offhandChance := offhandChance p |}.

Definition set_children (c : list string) (p : BodyPart) : BodyPart :=
  {| id := id p; type := type p; variant := variant p; laterality := laterality p;
     parent := parent p; children := c; equipment := equipment p;
     properties := properties p; chimeraOrigin := chimeraOrigin p;
     naturalArmor := naturalArmor p; hasWings := hasWings p;
     offhandChance := offhandChance p |}.

Definition set_equipment (e : option string) (p : BodyPart) : BodyPart :=
  {| id := id p; type := type p; variant := variant p; laterality := laterality p;
     parent := parent p; children := children p; equipment := e;
     properties := properties p; chimeraOrigin := chimeraOrigin p;
     naturalArmor := naturalArmor p; hasWings := hasWings p;
     offhandChance := offhandChance p |}.

Definition set_chimeraOrigin (b : bool) (p : BodyPart) : BodyPart :=
  {| id := id p; type := type p; variant := variant p; laterality := laterality p;
     parent := parent p; children := children p; equipment := equipment p;
     properties := properties p; chimeraOrigin := b;
     naturalArmor := naturalArmor p; hasWings := hasWings p;
     offhandChance := offhandChance p |}.

Definition set_naturalArmor (a : option NaturalArmor) (p : BodyPart) : BodyPart :=
  {| id := id p; type := type p; variant := variant p; laterality := laterality p;
     parent := parent p; children := children p; equipment := equipment p;
     properties := properties p; chimeraOrigin := chimeraOrigin p;
     naturalArmor := a; hasWings := hasWings p;
     offhandChance := offhandChance p |}.

Definition set_hasWings (b : bool) (p : BodyPart) : BodyPart :=
  {| id := id p; type := type p; variant := variant p; laterality := laterality p;
     parent := parent p; children := children p; equipment := equipment p;
     properties := properties p; chimeraOrigin := chimeraOrigin p;
     naturalArmor := naturalArmor p; hasWings := b;
     offhandChance := offhandChance p |}.

Definition set_offhandChance (c : option Z) (p : BodyPart) : BodyPart :=
  {| id := id p; type := type p; variant := variant p; laterality := laterality p;
     parent := parent p; children := children p; equipment := equipment p;
     properties := properties p; chimeraOrigin := chimeraOrigin p;
     naturalArmor := naturalArmor p; hasWings := hasWings p;
     offhandChance := c |}.

(** [Object.values(bodyParts)] and [Object.entries(bodyParts)].  A JavaScript
    object lists its entries in insertion order and a [gmap] in the order of
    its keys; what the code computes from these lists is either independent
    of their order or a list of ids whose order is not used. *)
Definition values (bodyParts : gmap string BodyPart) : list BodyPart :=
  (map_to_list bodyParts).*2.

Definition entries (bodyParts : gmap string BodyPart) : list (string * BodyPart) :=
  map_to_list bodyParts.

(** What the helpers read from outside: the clock read by [Date.now()], the
    module-level [bodyPartIdCounter], and the forced results of
    [Math.random()] (rationals in [0,1); past its end the sequence goes on
    with zeros). *)
Record World := {
  dateNow : N;
  bodyPartIdCounter : N;
  random : list Q
}.

(** A helper that reads or advances the [World]; [None] is a [TypeError]
    thrown on dereferencing [null]. *)
Definition Eff (A : Type) : Type := World → option (A * World).

#[global] Instance eff_ret : MRet Eff := λ A a w, Some (a, w).

#[global] Instance eff_bind : MBind Eff := λ A B k m w,
  match m w with
  | Some (a, w') => k a w'
  | None => None
  end.

Definition throwTypeError {A} : Eff A := λ _, None.

(** [Math.floor(Math.random() * n)]. *)
Definition randomBelow (n : Z) : Eff Z :=
  λ w, match random w with
       | [] => Some (0, w)
       | r :: rest =>
           Some (Qfloor (r * inject_Z n),
                 {| dateNow := dateNow w;
                    bodyPartIdCounter := bodyPartIdCounter w;
                    random := rest |})
       end.

Definition generateBodyPartId : Eff string :=
  λ w, Some ("bp_" +:+ pretty (dateNow w) +:+ "_" +:+ pretty (bodyPartIdCounter w),
             {| dateNow := dateNow w;
                bodyPartIdCounter := (bodyPartIdCounter w + 1)%N;
                random := random w |}).

(** [createBodyPart(type, variant, laterality, parentId, chimeraOrigin)];
    the inner [None] is the [null] returned for an unknown type.  Every
    type of the configuration has a first variant. *)
Definition createBodyPart (type : string) (variant : option string)
    (laterality : string) (parentId : option string) (chimeraOrigin : bool)
  : Eff (option BodyPart) :=
  match CAVESOFQUD.bodyPartTypes type with
  | None => mret None
  | Some partType =>
      newId ← generateBodyPartId;
      mret (Some {| id := newId;
                    type := type;
                    variant := if JS.truthy_id variant then default "" variant
                               else default "" (head (CAVESOFQUD.variants partType));
                    laterality := laterality;
                    parent := parentId;
                    children := [];
                    equipment := None;
                    properties := CAVESOFQUD.properties partType;
                    chimeraOrigin := chimeraOrigin;
                    naturalArmor := None;
                    hasWings := false;
                    offhandChance := None |})
  end.

(** [const x = createBodyPart(...)] followed by a dereference of [x]. *)
Definition createBodyPart_deref (type : string) (variant : option string)
    (laterality : string) (parentId : option string) : Eff BodyPart :=
  created ← createBodyPart type variant laterality parentId false;
  match created with
  | Some part => mret part
  | None => throwTypeError
  end.

(** [parts[child.id] = child; parent.children.push(child.id)] of
    [createHumanoidBody], where [parent] is still a local object that has
    been stored under its own id. *)
Definition attach (parts : gmap string BodyPart) (parentPart child : BodyPart)
  : gmap string BodyPart * BodyPart :=
  let parentPart' := set_children (children parentPart ++ [id child]) parentPart in
  (<[id parentPart := parentPart']> (<[id child := child]> parts), parentPart').

Definition createHumanoidBody : Eff (gmap string BodyPart * string) :=
  body ← createBodyPart_deref "Body" None "" None;
  let parts := <[id body := body]> (∅ : gmap string BodyPart) in
  head ← createBodyPart_deref "Head" (Some "Head") "" (Some (id body));
  let '(parts, body) := attach parts body head in
  face ← createBodyPart_deref "Face" (Some "Face") "" (Some (id head));
  let '(parts, head) := attach parts head face in
  back ← createBodyPart_deref "Back" (Some "Back") "" (Some (id body));
  let '(parts, body) := attach parts body back in
  leftArm ← createBodyPart_deref "Arm" (Some "Arm") "Left" (Some (id body));
  let '(parts, body) := attach parts body leftArm in
  leftHand ← createBodyPart_deref "Hand" (Some "Hand") "Left" (Some (id leftArm));
  let '(parts, leftArm) := attach parts leftArm leftHand in
  rightArm ← createBodyPart_deref "Arm" (Some "Arm") "Right" (Some (id body));
  let '(parts, body) := attach parts body rightArm in
  rightHand ← createBodyPart_deref "Hand" (Some "Hand") "Right" (Some (id rightArm));
  let '(parts, rightArm) := attach parts rightArm rightHand in
  feet ← createBodyPart_deref "Feet" (Some "Feet") "" (Some (id body));
  let '(parts, body) := attach parts body feet in
  floating ← createBodyPart_deref "FloatingNearby" (Some "Floating Nearby") ""
               (Some (id body));
  let '(parts, body) := attach parts body floating in
  mret (parts, id body).


Definition getBodyPartDisplayName (part : BodyPart) : string :=
  if JS.truthy_str (laterality part)
  then laterality part +:+ " " +:+ variant part
  else variant part.

Definition canEquipItem (part : BodyPart) : bool :=
  match CAVESOFQUD.bodyPartTypes (type part) with
  | Some partType => CAVESOFQUD.canEquip partType
  | None => false
  end.

Definition canWieldWeapon (part : BodyPart) : bool :=
  match CAVESOFQUD.bodyPartTypes (type part) with
  | Some partType => CAVESOFQUD.canWield partType
  | None => false
  end.

Definition getEquippableBodyParts (bodyParts : gmap string BodyPart) : list BodyPart :=
  List.filter canEquipItem (values bodyParts).

Definition getWieldingBodyParts (bodyParts : gmap string BodyPart) : list BodyPart :=
  List.filter canWieldWeapon (values bodyParts).

(** [addBodyPart]: the result pairs the updated [bodyParts] object with the
    new part ([None] for the [null] returned when the parent is absent).
    The parent object was fetched before the new part is stored, so its
    [children] are extended in the map only while it is still stored under
    [parentId]. *)
Definition addBodyPart (bodyParts : gmap string BodyPart) (type parentId : string)
    (variant : option string) (laterality : string)
  : Eff (gmap string BodyPart * option BodyPart) :=
  match bodyParts !! parentId with
  | None => mret (bodyParts, None)
  | Some parentPart =>
      newPart ← createBodyPart_deref type variant laterality (Some parentId);
      let bodyParts1 := <[id newPart := newPart]> bodyParts in
      let bodyParts2 :=
        if String.eqb (id newPart) parentId then bodyParts1
        else <[parentId := set_children (children parentPart ++ [id newPart]) parentPart]>
               bodyParts1 in
      mret (bodyParts2, Some newPart)
  end.

(** [for (let childId of p.children) visit(childId)] for a recursive closure
    [visit] that pushes onto a shared array: what the loop pushes, or [None]
    when one of the calls does not come back. *)
Fixpoint forEachChild (visit : string → option (list string))
    (childIds : list string) : option (list string) :=
  match childIds with
  | [] => Some []
  | childId :: rest =>
      match visit childId with
      | None => None
      | Some pushed =>
          match forEachChild visit rest with
          | None => None
          | Some after => Some (pushed ++ after)
          end
      end
  end.

(** The recursive closure [collectDescendants] inside [removeBodyPart],
    returning what it pushes onto [descendants]: for each child, the child's
    id and then what the recursive call pushes.  [fuel] bounds the depth of
    the JavaScript call stack: [None] is the recursion that does not come
    back (a cycle among the [children] lists). *)
Fixpoint collectDescendants (fuel : nat) (bodyParts : gmap string BodyPart)
    (partId : string) : option (list string) :=
  match fuel with
  | O => None
  | S fuel' =>
      match bodyParts !! partId with
      | None => Some []
      | Some p =>
          forEachChild
            (λ childId, cons childId <$> collectDescendants fuel' bodyParts childId)
            (children p)
      end
  end.

(** [for (let id of removedIds) delete bodyParts[id]]. *)
Definition deleteAll (ids : list string) (bodyParts : gmap string BodyPart)
  : gmap string BodyPart :=
  foldl (λ m partId, delete partId m) bodyParts ids.

(** [removeBodyPart(bodyParts, partId)]: the updated [bodyParts] and the
    returned array of removed ids. *)
Definition removeBodyPart (fuel : nat) (bodyParts : gmap string BodyPart)
    (partId : string) : option (gmap string BodyPart * list string) :=
  match bodyParts !! partId with
  | None => Some (bodyParts, [])
  | Some part =>
      match collectDescendants fuel bodyParts partId with
      | None => None
      | Some descendants =>
          let removedIds := partId :: descendants in
          let bodyParts1 :=
            if JS.truthy_id (parent part) then
              match bodyParts !! default "" (parent part) with
              | Some parentPart =>
                  <[default "" (parent part) :=
                      set_children
                        (List.filter (λ c, negb (String.eqb c partId))
                           (children parentPart)) parentPart]> bodyParts
              | None => bodyParts
              end
            else bodyParts in
          Some (deleteAll removedIds bodyParts1, removedIds)
      end
  end.

(** [addBodyPartWithChildren]: the updated [bodyParts] and [addedIds]. *)
Fixpoint addChildren (bodyParts : gmap string BodyPart) (mainId : string)
    (laterality : string) (chimeraOrigin : bool) (withChildren : list string)
    (addedIds : list string) : Eff (gmap string BodyPart * list string) :=
  match withChildren with
  | [] => mret (bodyParts, addedIds)
  | childType :: rest =>
      r ← addBodyPart bodyParts childType mainId None laterality;
      match r with
      | (bodyParts', Some childPart) =>
          let bodyParts'' :=
            if chimeraOrigin
            then alter (set_chimeraOrigin true) (id childPart) bodyParts'
            else bodyParts' in
          addChildren bodyParts'' mainId laterality chimeraOrigin rest
            (addedIds ++ [id childPart])
      | (bodyParts', None) =>
          addChildren bodyParts' mainId laterality chimeraOrigin rest addedIds
      end
  end.

Definition addBodyPartWithChildren (bodyParts : gmap string BodyPart)
    (type parentId : string) (variant : option string) (laterality : string)
    (withChildren : list string) (chimeraOrigin : bool)
  : Eff (gmap string BodyPart * list string) :=
  r ← addBodyPart bodyParts type parentId variant laterality;
  match r with
  | (bodyParts', None) => mret (bodyParts', [])
  | (bodyParts', Some mainPart) =>
      let bodyParts'' :=
        if chimeraOrigin
        then alter (set_chimeraOrigin true) (id mainPart) bodyParts'
        else bodyParts' in
      addChildren bodyParts'' (id mainPart) laterality chimeraOrigin withChildren
        [id mainPart]
  end.

(** The [weights] object of [rollChimeraBodyPart], in source order. *)
Definition chimeraWeights : list (string * Z) :=
  [ ("Hand", 3); ("Arm", 3); ("Head", 3); ("Face", 3); ("Feet", 3);
    ("Fin", 1); ("Tail", 1); ("Roots", 1); ("FungalOutcrop", 1) ].

Fixpoint pickWeighted (roll : Z) (weights : list (string * Z)) : string :=
  match weights with
  | [] => "Hand"
  | (t, weight) :: rest =>
      let roll := roll - weight in
      if roll <? 0 then t else pickWeighted roll rest
  end.

Definition rollChimeraBodyPart : Eff string :=
  roll ← randomBelow 19;
  mret (pickWeighted roll chimeraWeights).

(** [selectRandomParent]: [None] is the [null] returned for an empty body. *)
Definition selectRandomParent (bodyParts : gmap string BodyPart)
  : Eff (option string) :=
  let allParts := values bodyParts in
  match allParts with
  | [] => mret None
  | _ =>
      randomIndex ← randomBelow (Z.of_nat (length allParts));
      if randomIndex <? 0 then throwTypeError
      else match allParts !! Z.to_nat randomIndex with
           | Some part => mret (Some (id part))
           | None => throwTypeError
           end
  end.



(** A node of the display tree: [{ part, depth, children }]. *)
#[warnings="-register-all"]
Inductive TreeNode :=
  mkTreeNode (node_part : BodyPart) (node_depth : Z) (node_children : list TreeNode).

(** [for (let childId of part.children) acc = acc.concat(visit(childId))]:
    the concatenation of what the recursive calls return, or [None] when
    one of them does not come back. *)
Fixpoint concatEach {A} (visit : string → option (list A)) (childIds : list string)
  : option (list A) :=
  match childIds with
  | [] => Some []
  | childId :: rest =>
      match visit childId with
      | None => None
      | Some found =>
          match concatEach visit rest with
          | None => None
          | Some after => Some (found ++ after)
          end
      end
  end.

(** [buildBodyPartTree(bodyParts, startId, depth)]; [fuel] bounds the depth
    of the recursion as in [collectDescendants].  A falsy [startId] is
    replaced by the id of the first part without a parent, in the
    enumeration order of [values]. *)
Fixpoint buildBodyPartTree (fuel : nat) (bodyParts : gmap string BodyPart)
    (startId : option string) (depth : Z) : option (list TreeNode) :=
  match fuel with
  | O => None
  | S fuel' =>
      (* Find root if not specified *)
      let startId :=
        if negb (JS.truthy_id startId)
        then id <$> List.find (λ p, bool_decide (parent p = None)) (values bodyParts)
        else startId in
      match startId with
      | None => Some []
      | Some startId =>
          match bodyParts !! startId with
          | None => Some []
          | Some part =>
              (* Recursively build children *)
              match concatEach
                      (λ childId,
                         buildBodyPartTree fuel' bodyParts (Some childId) (depth + 1))
                      (children part) with
              | None => None
              | Some childTrees => Some [mkTreeNode part depth childTrees]
              end
          end
      end
  end.

(** An entry of the flattened tree: [{ part, depth, hasChildren }]. *)
Record FlatNode := {
  flat_part : BodyPart;
  flat_depth : Z;
  hasChildren : bool
}.

(** The closure [traverse] of [flattenBodyPartTree], for one node of the
    array it loops over. *)
Fixpoint traverseNode (node : TreeNode) : list FlatNode :=
  match node with
  | mkTreeNode part depth nodeChildren =>
      {| flat_part := part; flat_depth := depth;
         hasChildren := (0 <? length nodeChildren)%nat |}
      :: (if (0 <? length nodeChildren)%nat
          then flat_map traverseNode nodeChildren
          else [])
  end.

Definition flattenBodyPartTree (tree : list TreeNode) : list FlatNode :=
  flat_map traverseNode tree.


End BodyParts.

(** ** documents/actor.mjs: data *)

Module Data.

Record Attribute := { attr_value : Z; attr_mod : Z }.

Record Attributes := {
  strength : Attribute;
  agility : Attribute;
  toughness : Attribute;
  intelligence : Attribute;
  willpower : Attribute;
  ego : Attribute
}.

Record Combat := {
  dv : Z;
  pv : Z;
  ma : Z;
  av : Z;
  mainHandId : option string
}.

(** One entry of [health.hpHistory]. *)
Record HpEntry := { hp_level : Z; roll : Z; modifier : Z; hp_total : Z }.

Record Health := {
  health_value : Z;
  health_max : Z;
  hpHistory : option (list HpEntry)
}.

Record CarryCapacity := { cc_max : Z; cc_current : Z; overburdened : bool }.

Record SkillPoints := { sp_total : Z; sp_spent : option Z; sp_available : Z }.

Record CooldownReduction := { reductionPercent : Z; minimumCooldown : Z }.

Record Movement := { speedBonus : Z }.

Record Quickness := { bonus : Z }.

(** [actor.system].  [level] is [level.value], [hpRegenRate] is
    [hpRegen.rate] and [multiweaponFightingTier] is
    [skills?.multiweaponFighting?.tier]; [movement] and [quickness] are
    absent until the code creates them. *)
Record SystemData := {
  attributes : Attributes;
  combat : Combat;
  health : Health;
  level : Z;
  carryCapacity : CarryCapacity;
  skillPoints : SkillPoints;
  hpRegenRate : Q;
  cooldownReduction : CooldownReduction;
  movement : option Movement;
  quickness : option Quickness;
  bodyParts : gmap string BodyParts.BodyPart;
  bodyRoot : string;
  characterType : string;
  multiweaponFightingTier : option Z
}.

Definition set_attributes (x : Attributes) (s : SystemData) : SystemData :=
  let 'Build_SystemData _ b c d e f g h i j k l m n := s in
  Build_SystemData x b c d e f g h i j k l m n.
Definition set_combat (x : Combat) (s : SystemData) : SystemData :=
  let 'Build_SystemData a _ c d e f g h i j k l m n := s in
  Build_SystemData a x c d e f g h i j k l m n.
Definition set_health (x : Health) (s : SystemData) : SystemData :=
  let 'Build_SystemData a b _ d e f g h i j k l m n := s in
  Build_SystemData a b x d e f g h i j k l m n.
Definition set_level (x : Z) (s : SystemData) : SystemData :=
  let 'Build_SystemData a b c _ e f g h i j k l m n := s in
  Build_SystemData a b c x e f g h i j k l m n.
Definition set_carryCapacity (x : CarryCapacity) (s : SystemData) : SystemData :=
  let 'Build_SystemData a b c d _ f g h i j k l m n := s in
  Build_SystemData a b c d x f g h i j k l m n.
Definition set_skillPoints (x : SkillPoints) (s : SystemData) : SystemData :=
  let 'Build_SystemData a b c d e _ g h i j k l m n := s in
  Build_SystemData a b c d e x g h i j k l m n.
Definition set_hpRegenRate (x : Q) (s : SystemData) : SystemData :=
  let 'Build_SystemData a b c d e f _ h i j k l m n := s in
  Build_SystemData a b c d e f x h i j k l m n.
Definition set_cooldownReduction (x : CooldownReduction) (s : SystemData)
  : SystemData :=
  let 'Build_SystemData a b c d e f g _ i j k l m n := s in
  Build_SystemData a b c d e f g x i j k l m n.
Definition set_movement (x : option Movement) (s : SystemData) : SystemData :=
  let 'Build_SystemData a b c d e f g h _ j k l m n := s in
  Build_SystemData a b c d e f g h x j k l m n.
Definition set_quickness (x : option Quickness) (s : SystemData) : SystemData :=
  let 'Build_SystemData a b c d e f g h i _ k l m n := s in
  Build_SystemData a b c d e f g h i x k l m n.
Definition set_bodyParts (x : gmap string BodyParts.BodyPart) (s : SystemData)
  : SystemData :=
  let 'Build_SystemData a b c d e f g h i j _ l m n := s in
  Build_SystemData a b c d e f g h i j x l m n.

(** One of [statBonuses.carryCapacity], [.movementSpeed], [.quickness]. *)
Record StatBonus := { bonusType : string; value : Z; formula : string }.

Record StatBonuses := {
  sb_carryCapacity : option StatBonus;
  sb_movementSpeed : option StatBonus;
  sb_quickness : option StatBonus
}.

Record NaturalWeapon := {
  nw_enabled : bool;
  bodyPartTypes : list string;
  nw_damageFormula : option string;
  nw_pv : option Z;
  nw_attackChance : option Z
}.

Record ProvidesArmor := { pa_enabled : bool; bodyPartType : string }.

Record ResourceTracking := { rt_enabled : bool; rt_current : Z }.

(** One entry of [bodyModifications]: a ['replace'] reads [targetType],
    [newType] and [preserveEquipment]; any other action is an add and reads
    the remaining fields. *)
Record BodyModification := {
  action : string;
  targetType : string;
  newType : string;
  preserveEquipment : bool;
  mod_type : string;
  mod_parent : string;
  mod_variant : option string;
  mod_laterality : option string;
  withChildren : option (list string);
  mod_chimeraOrigin : bool
}.

(** [item.system], with the fields of armor, weapon and mutation items. *)
Record ItemSystem := {
  weight : option Z;
  quantity : option Z;
  equipped : bool;
  armor_av : option Z;
  dvModifier : option Z;
  slot : string;
  weapon_damage : string;
  weapon_pv : option Z;
  mut_level : Z;
  isActive : bool;
  statBonuses : option StatBonuses;
  naturalWeapon : option NaturalWeapon;
  providesArmor : option ProvidesArmor;
  resourceTracking : option ResourceTracking;
  blockedEquipment : option (list (string * list string));
  bodyModifications : option (list BodyModification);
  addedBodyParts : option (list string)
}.

Record Item := {
  item_id : string;
  item_name : string;
  item_type : string;
  item_system : ItemSystem
}.

Definition set_equipped (x : bool) (s : ItemSystem) : ItemSystem :=
  let 'Build_ItemSystem a b _ d e f g h i j k l m n o p q := s in
  Build_ItemSystem a b x d e f g h i j k l m n o p q.
Definition set_resourceTracking (x : option ResourceTracking) (s : ItemSystem)
  : ItemSystem :=
  let 'Build_ItemSystem a b c d e f g h i j k l m _ o p q := s in
  Build_ItemSystem a b c d e f g h i j k l m x o p q.
(** [item.update({'system.addedBodyParts': ids, 'system.isActive': b})]. *)
Definition set_tracking (ids : list string) (b : bool) (s : ItemSystem)
  : ItemSystem :=
  let 'Build_ItemSystem a c d e f g h i j _ k l m n o p _ := s in
  Build_ItemSystem a c d e f g h i j b k l m n o p (Some ids).
Definition set_item_system (x : ItemSystem) (i : Item) : Item :=
  {| item_id := item_id i; item_name := item_name i; item_type := item_type i;
     item_system := x |}.

(** The actor document: [this.items] in collection order and [this.system]. *)
Record Actor := {
  actor_name : string;
  actor_type : string;
  items : list Item;
  system : SystemData
}.

Definition set_items (x : list Item) (a : Actor) : Actor :=
  {| actor_name := actor_name a; actor_type := actor_type a; items := x;
     system := system a |}.
Definition set_system (x : SystemData) (a : Actor) : Actor :=
  {| actor_name := actor_name a; actor_type := actor_type a; items := items a;
     system := x |}.

(** [this.items.get(id)]. *)
Definition items_get (items : list Item) (itemId : string) : option Item :=
  List.find (λ item, String.eqb (item_id item) itemId) items.

(** [item.update(...)] on an item owned by the actor: the item stored under
    the same id is replaced. *)
Definition items_update (item' : Item) (items : list Item) : list Item :=
  (λ item, if String.eqb (item_id item) (item_id item') then item' else item)
    <$> items.

End Data.

(** ** documents/actor.mjs: the derived-stat pipeline *)

Module Actor.
Import Data.

Section Methods.

(** [eval(formula.replace(/level/g, level))]: the integer value of the
    JavaScript expression [formula] once every occurrence of [level] is
    replaced by the mutation level. *)
Variable evalFormula : string → Z → Z.

Definition isMutation (item : Item) : bool := String.eqb (item_type item) "mutation".

(** Is the item skipped by [if (item.type !== 'mutation' || !item.system.isActive) continue]? *)
Definition activeMutation (item : Item) : bool :=
  isMutation item && isActive (item_system item).

(** [attribute.mod = Math.floor((attribute.value - 16) / 2)] *)
Definition calcMod (attribute : Attribute) : Attribute :=
  {| attr_value := attr_value attribute;
     attr_mod := JS.floorDiv (attr_value attribute - 16) 2 |}.

Definition _calculateAttributeModifiers (systemData : SystemData) : SystemData :=
  let a := attributes systemData in
  set_attributes
    {| strength := calcMod (strength a);
       agility := calcMod (agility a);
       toughness := calcMod (toughness a);
       intelligence := calcMod (intelligence a);
       willpower := calcMod (willpower a);
       ego := calcMod (ego a) |} systemData.

(** The loop [for (let i = 1; i < hpHistory.length; i++)] of [_calculateHP],
    run over the entries from index 1 on: the rewritten entries and the
    final [calculatedMax]. *)
Fixpoint recalculateHistory (toughMod : Z) (entries : list HpEntry)
    (calculatedMax : Z) : list HpEntry * Z :=
  match entries with
  | [] => ([], calculatedMax)
  | entry :: rest =>
      let hpGain := roll entry + toughMod in
      let entry' := {| hp_level := hp_level entry; roll := roll entry;
                       modifier := toughMod; hp_total := hpGain |} in
      let '(rest', calculatedMax') :=
        recalculateHistory toughMod rest (calculatedMax + hpGain) in
      (entry' :: rest', calculatedMax')
  end.

Definition _calculateHP (systemData : SystemData) : SystemData :=
  let level := level systemData in
  let toughValue := attr_value (toughness (attributes systemData)) in
  let toughMod := attr_mod (toughness (attributes systemData)) in
  let value := health_value (health systemData) in
  (* Initialize HP history if empty *)
  let history := default [] (hpHistory (health systemData)) in
  let '(history, max) :=
    if level =? 1 then
      (if (length history =? 0)%nat
       then history ++ [{| hp_level := 1; roll := toughValue;
                           modifier := toughMod; hp_total := toughValue |}]
       else history,
       toughValue)
    else
      let '(rewritten, calculatedMax) :=
        recalculateHistory toughMod (drop 1 history) toughValue in
      (take 1 history ++ rewritten, calculatedMax) in
  set_health {| health_value := if max <? value then max else value;
                health_max := max;
                hpHistory := Some history |} systemData.

(** The body of [for (let part of parts)] in [_applyEquipmentBonuses]:
    the [partAV] and [partDV] pushed for one part. *)
Definition partValues (items : list Item) (part : BodyParts.BodyPart) : Z * Z :=
  let '(partAV, partDV) :=
    if JS.truthy_id (BodyParts.equipment part) then
      match items_get items (default "" (BodyParts.equipment part)) with
      | Some item =>
          if String.eqb (item_type item) "armor"
          then (JS.orZ (armor_av (item_system item)) 0,
                JS.orZ (dvModifier (item_system item)) 0)
          else (0, 0)
      | None => (0, 0)
      end
    else (0, 0) in
  let partAV :=
    match BodyParts.naturalArmor part with
    | Some natural =>
        if BodyParts.av natural =? 0 then partAV else partAV + BodyParts.av natural
    | None => partAV
    end in
  (partAV, partDV).

(** [if (!partsByType[part.type]) partsByType[part.type] = [];
     partsByType[part.type].push(part)]
    on an object whose keys are kept in insertion order. *)
Fixpoint pushByType (partsByType : list (string * list BodyParts.BodyPart))
    (part : BodyParts.BodyPart) : list (string * list BodyParts.BodyPart) :=
  match partsByType with
  | [] => [(BodyParts.type part, [part])]
  | (t, parts) :: rest =>
      if String.eqb t (BodyParts.type part) then (t, parts ++ [part]) :: rest
      else (t, parts) :: pushByType rest part
  end.

(** The loop over [Object.entries(partsByType)]: the running [totalAV] and
    [totalDV]. *)
Definition addGroup (items : list Item) (totals : Q * Q)
    (group : string * list BodyParts.BodyPart) : Q * Q :=
  let '(totalAV, totalDV) := totals in
  let parts := group.2 in
  if (length parts =? 0)%nat then totals
  else
    let avValues := (λ part, (partValues items part).1) <$> parts in
    let dvValues := (λ part, (partValues items part).2) <$> parts in
    if (0 <? length avValues)%nat
    then ((totalAV + JS.average avValues)%Q, (totalDV + JS.average dvValues)%Q)
    else totals.

Definition equipmentTotals (items : list Item)
    (bodyParts : gmap string BodyParts.BodyPart) : Q * Q :=
  let partsByType := foldl pushByType [] (BodyParts.values bodyParts) in
  foldl (addGroup items) (0%Q, 0%Q) partsByType.

Definition _applyEquipmentBonuses (items : list Item) (systemData : SystemData)
  : SystemData :=
  let '(totalAV, totalDV) := equipmentTotals items (bodyParts systemData) in
  let c := combat systemData in
  set_combat {| dv := dv c + Qfloor totalDV;
                pv := pv c;
                ma := ma c;
                av := Qfloor totalAV;
                mainHandId := mainHandId c |} systemData.

Definition _calculateCombatStats (items : list Item) (systemData : SystemData)
  : SystemData :=
  let agiMod := attr_mod (agility (attributes systemData)) in
  let strMod := attr_mod (strength (attributes systemData)) in
  let wilMod := attr_mod (willpower (attributes systemData)) in
  let c := combat systemData in
  let systemData :=
    set_combat {| dv := CAVESOFQUD.baseValues.dvBase + agiMod;
                  pv := CAVESOFQUD.baseValues.pvBase + strMod;
                  ma := CAVESOFQUD.baseValues.maBase + wilMod;
                  av := av c;
                  mainHandId := mainHandId c |} systemData in
  let systemData := _calculateHP systemData in
  _applyEquipmentBonuses items systemData.

Definition _calculateCarryCapacity (items : list Item) (systemData : SystemData)
  : SystemData :=
  let strValue := attr_value (strength (attributes systemData)) in
  let max := CAVESOFQUD.baseValues.carryCapacityMultiplier * strValue in
  let currentWeight :=
    foldl (λ currentWeight item,
             currentWeight + JS.orZ (weight (item_system item)) 0
                             * JS.orZ (quantity (item_system item)) 1)
          0 items in
  set_carryCapacity {| cc_max := max;
                       cc_current := currentWeight;
                       overburdened := max <? currentWeight |} systemData.

Definition _calculateSkillPoints (systemData : SystemData) : SystemData :=
  let level := level systemData in
  let intValue := attr_value (intelligence (attributes systemData)) in
  let basePerLevel :=
    if String.eqb (characterType systemData) "TrueKin"
    then CAVESOFQUD.baseValues.skillPointsTrueKin
    else CAVESOFQUD.baseValues.skillPointsMutant in
  let intModifier := (intValue - 10) * CAVESOFQUD.baseValues.skillPointsPerInt in
  let pointsPerLevel := basePerLevel + intModifier in
  let totalEarned := pointsPerLevel * level in
  let spent := JS.orZ (sp_spent (skillPoints systemData)) 0 in
  set_skillPoints {| sp_total := totalEarned;
                     sp_spent := sp_spent (skillPoints systemData);
                     sp_available := totalEarned - spent |} systemData.

Definition _calculateHPRegeneration (systemData : SystemData) : SystemData :=
  let wilMod := attr_mod (willpower (attributes systemData)) in
  let touMod := attr_mod (toughness (attributes systemData)) in
  let numerator := CAVESOFQUD.baseValues.hpRegenBase
                   + CAVESOFQUD.baseValues.hpRegenMultiplier * (wilMod + touMod) in
  set_hpRegenRate (inject_Z numerator / inject_Z 100)%Q systemData.

Definition _calculateCooldownReduction (systemData : SystemData) : SystemData :=
  let wilValue := attr_value (willpower (attributes systemData)) in
  let reduction :=
    Z.max 0 ((wilValue - 16) * CAVESOFQUD.baseValues.cooldownReductionPercent) in
  set_cooldownReduction
    {| reductionPercent := Z.min CAVESOFQUD.baseValues.cooldownReductionMax reduction;
       minimumCooldown := CAVESOFQUD.baseValues.cooldownMinimum |} systemData.

(** Is the block guarded by [bonuses.x && bonuses.x.value !== 0] entered? *)
Definition bonusApplies (b : option StatBonus) : option StatBonus :=
  match b with
  | Some bonus => if value bonus =? 0 then None else Some bonus
  | None => None
  end.

Definition isFormula (bonus : StatBonus) : bool :=
  String.eqb (bonusType bonus) "formula" && JS.truthy_str (formula bonus).

(** The body of the loop of [_applyMutationBonuses] for one item. *)
Definition applyItemBonuses (systemData : SystemData) (item : Item) : SystemData :=
  if negb (activeMutation item) then systemData
  else
    match statBonuses (item_system item) with
    | None => systemData
    | Some bonuses =>
        let level := mut_level (item_system item) in
        (* Apply carry capacity bonuses *)
        let systemData :=
          match bonusApplies (sb_carryCapacity bonuses) with
          | Some bonus =>
              let cc := carryCapacity systemData in
              let max :=
                if String.eqb (bonusType bonus) "flat"
                then cc_max cc + value bonus
                else if String.eqb (bonusType bonus) "percent"
                then (* Math.floor(max * (value / 100)), in exact arithmetic *)
                     cc_max cc + JS.floorDiv (cc_max cc * value bonus) 100
                else if isFormula bonus
                then cc_max cc + evalFormula (formula bonus) level
                else cc_max cc in
              set_carryCapacity {| cc_max := max; cc_current := cc_current cc;
                                   overburdened := overburdened cc |} systemData
          | None => systemData
          end in
        (* Apply movement speed bonuses *)
        let systemData :=
          match bonusApplies (sb_movementSpeed bonuses) with
          | Some bonus =>
              let current :=
                match movement systemData with
                | Some m => speedBonus m
                | None => 0
                end in
              let speed :=
                if String.eqb (bonusType bonus) "percent"
                then current + value bonus
                else if isFormula bonus
                then current + evalFormula (formula bonus) level
                else current in
              set_movement (Some {| speedBonus := speed |}) systemData
          | None => systemData
          end in
        (* Apply quickness bonuses *)
        match bonusApplies (sb_quickness bonuses) with
        | Some bonus =>
            let current :=
              match quickness systemData with
              | Some q => Data.bonus q
              | None => 0
              end in
            let quick :=
              if String.eqb (bonusType bonus) "flat"
              then current + value bonus
              else if isFormula bonus
              then current + evalFormula (formula bonus) level
              else current in
            set_quickness (Some {| Data.bonus := quick |}) systemData
        | None => systemData
        end
    end.

Definition _applyMutationBonuses (items : list Item) (systemData : SystemData)
  : SystemData :=
  foldl applyItemBonuses systemData items.


(** [_getMutationLevelForBodyPart]: the level of the first active mutation
    that tracks the part, [0] for a base body part. *)
Fixpoint _getMutationLevelForBodyPart (items : list Item) (bodyPartId : string) : Z :=
  match items with
  | [] => 0
  | item :: rest =>
      if activeMutation item
         && bool_decide (bodyPartId ∈ default [] (addedBodyParts (item_system item)))
      then (if mut_level (item_system item) =? 0 then 1 else mut_level (item_system item))
      else _getMutationLevelForBodyPart rest bodyPartId
  end.

Definition _calculateOffhandChance (items : list Item) (systemData : SystemData)
    (bodyPartId : string) : Z :=
  let mutationLevel := _getMutationLevelForBodyPart items bodyPartId in
  let baseChance := 7 + mutationLevel * 3 in
  let skillTier := JS.orZ (multiweaponFightingTier systemData) 0 in
  let skillBonus :=
    if skillTier <? 0 then 0
    else default 0 ([0; 20; 35; 50] !! Z.to_nat skillTier) in
  Z.min 100 (baseChance + skillBonus).

(** [item.system.naturalWeapon?.enabled] *)
Definition naturalWeaponEnabled (item : Item) : option NaturalWeapon :=
  match naturalWeapon (item_system item) with
  | Some nw => if nw_enabled nw then Some nw else None
  | None => None
  end.

(** The inner [for (let item of this.items)] of [_calculateOffhandChances]
    for a part that cannot wield: the part after the loop. *)
Fixpoint naturalOffhandChance (items : list Item) (part : BodyParts.BodyPart)
  : BodyParts.BodyPart :=
  match items with
  | [] => part
  | item :: rest =>
      match (if activeMutation item then naturalWeaponEnabled item else None) with
      | Some nw =>
          if bool_decide (BodyParts.type part ∈ bodyPartTypes nw)
          then BodyParts.set_offhandChance (nw_attackChance nw) part
          else naturalOffhandChance rest part
      | None => naturalOffhandChance rest part
      end
  end.

Definition _calculateOffhandChances (items : list Item) (systemData : SystemData)
  : SystemData :=
  set_bodyParts
    (map_imap (λ partId part,
                 Some (if BodyParts.canWieldWeapon part
                       then BodyParts.set_offhandChance
                              (Some (_calculateOffhandChance items systemData partId)) part
                       else naturalOffhandChance items part))
              (bodyParts systemData))
    systemData.

Definition isWings (item : Item) : bool :=
  activeMutation item && String.eqb (item_name item) "Wings".

(** [item.system.providesArmor] of an active mutation that grants armor. *)
Definition grantsArmor (item : Item) : option ProvidesArmor :=
  if activeMutation item then
    match providesArmor (item_system item) with
    | Some armorData => if pa_enabled armorData then Some armorData else None
    | None => None
    end
  else None.

(** The resource-tracking block of [_calculateNaturalArmor]: the item after
    [item.system.resourceTracking.current] has been initialised. *)
Definition initQuills (item : Item) : Item :=
  match resourceTracking (item_system item) with
  | Some tracking =>
      if rt_enabled tracking then
        match CAVESOFQUD.naturalWeaponFormulas (item_name item) with
        | Some formula =>
            if JS.truthy_id (CAVESOFQUD.maxQuillsFormula formula) then
              let maxQuills :=
                evalFormula (default "" (CAVESOFQUD.maxQuillsFormula formula))
                  (mut_level (item_system item)) in
              if rt_current tracking =? 0
              then set_item_system
                     (set_resourceTracking
                        (Some {| rt_enabled := rt_enabled tracking;
                                 rt_current := maxQuills |})
                        (item_system item)) item
              else item
            else item
        | None => item
        end
      else item
  | None => item
  end.

(** The value stored as [part.naturalArmor.av] for a granting mutation. *)
Definition naturalAV (item : Item) : Z :=
  match CAVESOFQUD.naturalWeaponFormulas (item_name item) with
  | Some formula =>
      if JS.truthy_id (CAVESOFQUD.avFormula formula)
      then evalFormula (default "" (CAVESOFQUD.avFormula formula))
             (mut_level (item_system item))
      else 0
  | None => 0
  end.

(** The third loop of [_calculateNaturalArmor] for one item. *)
Definition grantArmor (bodyParts : gmap string BodyParts.BodyPart) (item : Item)
  : gmap string BodyParts.BodyPart :=
  match grantsArmor item with
  | Some armorData =>
      (λ part,
         if String.eqb (BodyParts.type part) (bodyPartType armorData)
         then BodyParts.set_naturalArmor
                (Some {| BodyParts.av := naturalAV item;
                         BodyParts.source := item_name item |}) part
         else part) <$> bodyParts
  | None => bodyParts
  end.

(** [_calculateNaturalArmor]: the items (whose resource tracking may have
    been initialised) and the system data after the three loops. *)
Definition _calculateNaturalArmor (items : list Item) (systemData : SystemData)
  : list Item * SystemData :=
  (* Clear all natural armor and flags first *)
  let cleared :=
    (λ part, BodyParts.set_hasWings false
               (BodyParts.set_naturalArmor
                  (Some {| BodyParts.av := 0; BodyParts.source := "" |}) part))
      <$> bodyParts systemData in
  (* Check for Wings mutation to add flight indicator *)
  let winged :=
    foldl (λ parts item,
             if isWings item
             then (λ part, if String.eqb (BodyParts.type part) "Back"
                           then BodyParts.set_hasWings true part else part) <$> parts
             else parts)
          cleared items in
  (* Check all active mutations for natural armor *)
  let items' :=
    (λ item, match grantsArmor item with
             | Some _ => initQuills item
             | None => item
             end) <$> items in
  let armored := foldl grantArmor winged items in
  (items', set_bodyParts armored systemData).

(** [_prepareCharacterData(actorData)] with [actorData = this]. *)
Definition _prepareCharacterData (this : Actor) : Actor :=
  let systemData := system this in
  let systemData := _calculateAttributeModifiers systemData in
  let '(items, systemData) := _calculateNaturalArmor (items this) systemData in
  let systemData := _calculateCombatStats items systemData in
  let systemData := _calculateCarryCapacity items systemData in
  let systemData := _calculateSkillPoints systemData in
  let systemData := _calculateHPRegeneration systemData in
  let systemData := _calculateCooldownReduction systemData in
  let systemData := _applyMutationBonuses items systemData in
  let systemData := _calculateOffhandChances items systemData in
  set_system systemData (set_items items this).

(** The virtual weapon object returned by [getNaturalWeapon]. *)
Record VirtualWeapon := {
  vw_id : string;
  vw_name : string;
  vw_type : string;
  vw_damage : option string;
  vw_pv : Z;
  vw_weaponType : string
}.

Definition virtualWeapon (item : Item) (nw : NaturalWeapon) (bodyPartId : string)
  : VirtualWeapon :=
  let level := mut_level (item_system item) in
  (* Get damage based on mutation level *)
  let damage := CAVESOFQUD.getNaturalWeaponDamage (item_name item) level in
  let damage := if JS.truthy_id damage then damage else nw_damageFormula nw in
  (* If still a reference string, try to resolve it *)
  let damage :=
    match damage with
    | Some d =>
        if negb (JS.includes d "d") then
          Some (let resolved := CAVESOFQUD.getNaturalWeaponDamage d level in
                if JS.truthy_id resolved then default "" resolved else "1d4")
        else Some d
    | None => None
    end in
  (* Calculate PV *)
  let pv :=
    match CAVESOFQUD.naturalWeaponFormulas (item_name item) with
    | Some formula =>
        if JS.truthy_id (CAVESOFQUD.pvFormula formula) then
          let pvFormula := default "" (CAVESOFQUD.pvFormula formula) in
          if JS.includes pvFormula "level"
          then evalFormula pvFormula level
          else JS.orZ (nw_pv nw) 0
        else 0
    | None => 0
    end in
  {| vw_id := "natural-" +:+ item_id item +:+ "-" +:+ bodyPartId;
     vw_name := item_name item;
     vw_type := "weapon";
     vw_damage := damage;
     vw_pv := pv;
     vw_weaponType := "melee" |}.

(** The loop [for (let item of this.items)] of [getNaturalWeapon]. *)
Fixpoint firstNaturalWeapon (items : list Item) (bodyPart : BodyParts.BodyPart)
    (bodyPartId : string) : option VirtualWeapon :=
  match items with
  | [] => None
  | item :: rest =>
      if negb (activeMutation item) then firstNaturalWeapon rest bodyPart bodyPartId
      else
        match naturalWeaponEnabled item with
        | None => firstNaturalWeapon rest bodyPart bodyPartId
        | Some nw =>
            if bool_decide (BodyParts.type bodyPart ∈ bodyPartTypes nw)
            then Some (virtualWeapon item nw bodyPartId)
            else firstNaturalWeapon rest bodyPart bodyPartId
        end
  end.

(** [getNaturalWeapon(bodyPartId)]; [None] is [null]. *)
Definition getNaturalWeapon (this : Actor) (bodyPartId : string)
  : option VirtualWeapon :=
  match bodyParts (system this) !! bodyPartId with
  | None => None
  | Some bodyPart =>
      (* Equipped weapons override natural weapons *)
      if JS.truthy_id (BodyParts.equipment bodyPart) then None
      else firstNaturalWeapon (items this) bodyPart bodyPartId
  end.

Fixpoint isEquipmentBlocked_loop (items : list Item) (partType itemType : string)
  : bool :=
  match items with
  | [] => false
  | item :: rest =>
      if negb (activeMutation item) then isEquipmentBlocked_loop rest partType itemType
      else
        match blockedEquipment (item_system item) with
        | None => isEquipmentBlocked_loop rest partType itemType
        | Some table =>
            match CAVESOFQUD.assoc partType table with
            | Some blocked =>
                if bool_decide (itemType ∈ blocked) then true
                else isEquipmentBlocked_loop rest partType itemType
            | None => isEquipmentBlocked_loop rest partType itemType
            end
        end
  end.

Definition isEquipmentBlocked (this : Actor) (bodyPart : option BodyParts.BodyPart)
    (itemType : string) : bool :=
  match bodyPart with
  | None => false
  | Some part => isEquipmentBlocked_loop (items this) (BodyParts.type part) itemType
  end.

(** [levelUp()]: rolls [new Roll('1d4')] (the next forced die), appends the
    entry to the ledger and raises the level; the result is the actor after
    [this.update] and the returned [hpGain].  The history has been
    initialised by an earlier [_calculateHP]. *)
Definition levelUp (this : Actor) : Dice.Rolling (Actor * Z) :=
  λ dice,
    match dice with
    | [] => None
    | rollResult :: rest =>
        let systemData := system this in
        let currentLevel := level systemData in
        let toughMod := attr_mod (toughness (attributes systemData)) in
        let hpGain := rollResult + toughMod in
        let history :=
          default [] (hpHistory (health systemData))
          ++ [{| hp_level := currentLevel + 1; roll := rollResult;
                 modifier := toughMod; hp_total := hpGain |}] in
        let h := health systemData in
        let systemData :=
          set_health {| health_value := health_value h; health_max := health_max h;
                        hpHistory := Some history |} systemData in
        Some (set_system (set_level (currentLevel + 1) systemData) this, hpGain, rest)
    end.

End Methods.
End Actor.

(** ** documents/actor.mjs: structural mutations

  [this.update({'system.bodyParts': bodyParts})] stores the edited clone as
  the actor's body; the host's re-preparation of derived data after an
  update and its chat messages are outside these functions. *)

Module Mutation.
Import Data.

Definition update_bodyParts (bodyParts : gmap string BodyParts.BodyPart)
    (this : Actor) : Actor :=
  set_system (set_bodyParts bodyParts (system this)) this.

(** [addBodyPartMutation]: the actor after the call and the added ids. *)
Definition addBodyPartMutation (this : Actor) (type parentId : string)
    (variant : option string) (laterality : string) (withChildren : list string)
    (chimeraOrigin : bool) : BodyParts.Eff (Actor * list string) :=
  let bodyParts := bodyParts (system this) in
  r ← BodyParts.addBodyPartWithChildren bodyParts type parentId variant laterality
        withChildren chimeraOrigin;
  let '(bodyParts', addedIds) := r in
  if (0 <? length addedIds)%nat
  then mret (update_bodyParts bodyParts' this, addedIds)
  else mret (this, addedIds).

(** The closure [collectEquipment] of [removeBodyPartMutation], returning
    what it pushes onto [toUnequip]; [fuel] as in
    [BodyParts.collectDescendants]. *)
Fixpoint collectEquipment (fuel : nat) (bodyParts : gmap string BodyParts.BodyPart)
    (partId : string) : option (list string) :=
  match fuel with
  | O => None
  | S fuel' =>
      match bodyParts !! partId with
      | None => Some []
      | Some p =>
          let own := if JS.truthy_id (BodyParts.equipment p)
                     then [default "" (BodyParts.equipment p)] else [] in
          app own <$> BodyParts.forEachChild (collectEquipment fuel' bodyParts)
                        (BodyParts.children p)
      end
  end.

(** [for (let itemId of toUnequip)]: clear the [equipped] flag of the items
    that were held on removed parts. *)
Definition unequipAll (toUnequip : list string) (items : list Item) : list Item :=
  foldl (λ items itemId,
           match items_get items itemId with
           | Some item =>
               if equipped (item_system item)
               then items_update (set_item_system (set_equipped false (item_system item)) item)
                      items
               else items
           | None => items
           end) items toUnequip.

(** [removeBodyPartMutation(partId)]; [None] when a recursive closure does
    not come back. *)
Definition removeBodyPartMutation (fuel : nat) (this : Actor) (partId : string)
  : option (Actor * list string) :=
  let bodyParts := bodyParts (system this) in
  match bodyParts !! partId with
  | Some _ =>
      match collectEquipment fuel bodyParts partId with
      | None => None
      | Some toUnequip =>
          match BodyParts.removeBodyPart fuel bodyParts partId with
          | None => None
          | Some (bodyParts', removedIds) =>
              if (0 <? length removedIds)%nat
              then Some (set_items (unequipAll toUnequip (items this))
                           (update_bodyParts bodyParts' this), removedIds)
              else Some (this, removedIds)
          end
      end
  | None => Some (this, [])
  end.

(** The ['replace'] branch of [applyMutation] on the cloned body: every part
    of the target type is retyped in place, loses its equipment unless
    [preserveEquipment] is set, and has its id pushed onto [allAddedIds]. *)
Definition replaceParts (modification : BodyModification)
    (bodyParts : gmap string BodyParts.BodyPart)
  : gmap string BodyParts.BodyPart * list string :=
  let isTarget (part : BodyParts.BodyPart) :=
    String.eqb (BodyParts.type part) (targetType modification) in
  ((λ part,
      if isTarget part then
        let part := BodyParts.set_type (newType modification) part in
        if preserveEquipment modification then part
        else BodyParts.set_equipment None part
      else part) <$> bodyParts,
   (List.filter (λ entry, isTarget entry.2) (BodyParts.entries bodyParts)).*1).

(** The add branch of [applyMutation] for one modification. *)
Definition addParts (this : Actor) (modification : BodyModification)
  : BodyParts.Eff (Actor * list string) :=
  (* Handle random selections for Chimera *)
  parentId ←
    (if String.eqb (mod_parent modification) "random" then
       chosen ← BodyParts.selectRandomParent (bodyParts (system this));
       mret (default "null" chosen)
     else if String.eqb (mod_parent modification) "Body" then
       mret (bodyRoot (system this))
     else mret (mod_parent modification));
  partType ←
    (if String.eqb (mod_type modification) "random"
     then BodyParts.rollChimeraBodyPart
     else mret (mod_type modification));
  (* Handle auto variant *)
  let variant :=
    match mod_variant modification with
    | Some v => if String.eqb v "auto" || negb (JS.truthy_str v) then None else Some v
    | None => None
    end in
  (* Auto-add children for certain part types if not specified *)
  let withChildren := default [] (withChildren modification) in
  let withChildren :=
    if (length withChildren =? 0)%nat && mod_chimeraOrigin modification then
      let withChildren :=
        if String.eqb partType "Arm" then ["Hand"] else withChildren in
      if String.eqb partType "Head" then ["Face"] else withChildren
    else withChildren in
  addBodyPartMutation this partType parentId variant
    (default "" (mod_laterality modification)) withChildren
    (mod_chimeraOrigin modification).

(** The loop [for (let mod of modifications)] of [applyMutation]. *)
Fixpoint applyModifications (this : Actor) (modifications : list BodyModification)
    (allAddedIds : list string) : BodyParts.Eff (Actor * list string) :=
  match modifications with
  | [] => mret (this, allAddedIds)
  | modification :: rest =>
      if String.eqb (action modification) "replace" then
        let '(bodyParts', replacedIds) :=
          replaceParts modification (bodyParts (system this)) in
        applyModifications (update_bodyParts bodyParts' this) rest
          (allAddedIds ++ replacedIds)
      else
        r ← addParts this modification;
        let '(this', addedIds) := r in
        applyModifications this' rest (allAddedIds ++ addedIds)
  end.

(** [applyMutation(mutationItem)]: the actor after the call, the mutation
    item after its [update], and the returned ids. *)
Definition applyMutation (this : Actor) (mutationItem : option Item)
  : BodyParts.Eff (Actor * option Item * list string) :=
  match mutationItem with
  | None => mret (this, None, [])
  | Some item =>
      if negb (String.eqb (item_type item) "mutation")
      then mret (this, Some item, [])
      else
        let modifications := default [] (bodyModifications (item_system item)) in
        r ← applyModifications this modifications [];
        let '(this', allAddedIds) := r in
        (* Track added parts in mutation item *)
        let item' := set_item_system (set_tracking allAddedIds true (item_system item))
                       item in
        mret (set_items (items_update item' (items this')) this', Some item',
              allAddedIds)
  end.

(** The restore loop of [removeMutation] for one ['replace'] modification. *)
Definition restoreParts (modification : BodyModification) (addedParts : list string)
    (bodyParts : gmap string BodyParts.BodyPart)
  : gmap string BodyParts.BodyPart * list string :=
  let isReplaced (partId : string) (part : BodyParts.BodyPart) :=
    String.eqb (BodyParts.type part) (newType modification)
    && bool_decide (partId ∈ addedParts) in
  (map_imap (λ partId part,
               Some (if isReplaced partId part
                     then BodyParts.set_type (targetType modification) part
                     else part)) bodyParts,
   (List.filter (λ entry, isReplaced entry.1 entry.2)
      (BodyParts.entries bodyParts)).*1).

Fixpoint restoreModifications (modifications : list BodyModification)
    (addedParts : list string) (bodyParts : gmap string BodyParts.BodyPart)
    (allRemovedIds : list string)
  : gmap string BodyParts.BodyPart * list string :=
  match modifications with
  | [] => (bodyParts, allRemovedIds)
  | modification :: rest =>
      if String.eqb (action modification) "replace" then
        let '(bodyParts', restoredIds) :=
          restoreParts modification addedParts bodyParts in
        restoreModifications rest addedParts bodyParts' (allRemovedIds ++ restoredIds)
      else restoreModifications rest addedParts bodyParts allRemovedIds
  end.

(** The normal removal loop [for (let partId of addedParts)]. *)
Fixpoint removeAdded (fuel : nat) (this : Actor) (addedParts : list string)
    (allRemovedIds : list string) : option (Actor * list string) :=
  match addedParts with
  | [] => Some (this, allRemovedIds)
  | partId :: rest =>
      match removeBodyPartMutation fuel this partId with
      | None => None
      | Some (this', removedIds) =>
          removeAdded fuel this' rest (allRemovedIds ++ removedIds)
      end
  end.

(** [removeMutation(mutationItem)]: the actor after the call, the mutation
    item after its [update], and the returned ids. *)
Definition removeMutation (fuel : nat) (this : Actor) (mutationItem : option Item)
  : option (Actor * option Item * list string) :=
  match mutationItem with
  | None => Some (this, None, [])
  | Some item =>
      if negb (String.eqb (item_type item) "mutation")
      then Some (this, Some item, [])
      else
        let addedParts := default [] (addedBodyParts (item_system item)) in
        let modifications := default [] (bodyModifications (item_system item)) in
        (* Check if this mutation has replace actions *)
        let hasReplaceActions :=
          existsb (λ modification, String.eqb (action modification) "replace")
            modifications in
        let removed :=
          if hasReplaceActions then
            (* Restore replaced parts instead of deleting them *)
            let '(bodyParts', allRemovedIds) :=
              restoreModifications modifications addedParts
                (bodyParts (system this)) [] in
            Some (update_bodyParts bodyParts' this, allRemovedIds)
          else
            (* Normal removal - delete added parts *)
            removeAdded fuel this addedParts [] in
        match removed with
        | None => None
        | Some (this', allRemovedIds) =>
            (* Clear tracking in mutation item *)
            let item' := set_item_system (set_tracking [] false (item_system item))
                           item in
            Some (set_items (items_update item' (items this')) this', Some item',
                  allRemovedIds)
        end
  end.

End Mutation.

(** ** documents/actor.mjs: equipping *)

Module Equipment.
Import Data.

(** [getBodyPart(partId)]; [None] is [null]. *)
Definition getBodyPart (this : Actor) (partId : string) : option BodyParts.BodyPart :=
  bodyParts (system this) !! partId.

(** [Object.values(bodyParts).some(p => p.equipment === itemId)] *)
Definition stillEquipped (bodyParts : gmap string BodyParts.BodyPart) (itemId : string)
  : bool :=
  existsb (λ p, bool_decide (BodyParts.equipment p = Some itemId))
    (BodyParts.values bodyParts).

(** [item.update({'system.equipped': b})] on an item of the actor. *)
Definition markEquipped (b : bool) (item : Item) (this : Actor) : Actor :=
  set_items (items_update (set_item_system (set_equipped b (item_system item)) item)
               (items this)) this.

(** [unequipFromBodyPart(partId)]: the actor after the call and the
    returned flag. *)
Definition unequipFromBodyPart (this : Actor) (partId : string) : Actor * bool :=
  match bodyParts (system this) !! partId with
  | None => (this, false)
  | Some part =>
      if negb (JS.truthy_id (BodyParts.equipment part)) then (this, false)
      else
        let itemId := default "" (BodyParts.equipment part) in
        let item := items_get (items this) itemId in
        (* Clone bodyParts, modify, then update *)
        let bodyParts' :=
          <[partId := BodyParts.set_equipment None part]> (bodyParts (system this)) in
        let this := Mutation.update_bodyParts bodyParts' this in
        (* Mark item as unequipped if not equipped elsewhere *)
        match item with
        | Some item =>
            if stillEquipped bodyParts' itemId then (this, true)
            else (markEquipped false item this, true)
        | None => (this, true)
        end
  end.

(** [equipToBodyPart(itemId, partId)]: the actor after the call and the
    returned flag.  The item is a live document, so its [equipped] flag is
    read after a previous occupant has been unequipped. *)
Definition equipToBodyPart (this : Actor) (itemId partId : string) : Actor * bool :=
  match items_get (items this) itemId, bodyParts (system this) !! partId with
  | Some item, Some part =>
      (* Check if body part can equip items *)
      if negb (BodyParts.canEquipItem part) then (this, false)
      else
        match CAVESOFQUD.bodyPartTypes (BodyParts.type part) with
        | None => (this, false) (* not reached: canEquipItem found the type *)
        | Some partType =>
            (* Check slot type compatibility *)
            if String.eqb (item_type item) "armor"
               && negb (String.eqb (slot (item_system item)) (CAVESOFQUD.slotType partType))
            then (this, false)
            (* Check weapon can only go in hands *)
            else if String.eqb (item_type item) "weapon"
                    && negb (BodyParts.canWieldWeapon part)
            then (this, false)
            (* Check if equipment is blocked by mutations *)
            else if Actor.isEquipmentBlocked this (Some part) (item_type item)
            then (this, false)
            else
              (* Unequip previous item if slot occupied *)
              let this :=
                if JS.truthy_id (BodyParts.equipment part)
                then (unequipFromBodyPart this partId).1 else this in
              (* Clone bodyParts, modify, then update *)
              let bodyParts' :=
                alter (BodyParts.set_equipment (Some itemId)) partId
                  (bodyParts (system this)) in
              let this := Mutation.update_bodyParts bodyParts' this in
              (* Mark item as equipped *)
              match items_get (items this) itemId with
              | Some item =>
                  if negb (equipped (item_system item))
                  then (markEquipped true item this, true)
                  else (this, true)
              | None => (this, true)
              end
        end
  | _, _ => (this, false)
  end.

End Equipment.

(** ** helpers/combat.mjs and the combat methods of documents/actor.mjs

  A call returns or throws: [Threw] carries the message of an [Error] the
  code raises, [ThrewTypeError] is a property read on [undefined].  Dice are
  the forced faces of [Dice.Rolling]: [new Roll('1d20 + m')] and
  [new Roll('1d100')] take the next face.  The chat message and the result
  fields that only the host provides (document ids, [Date.now()], the [Roll]
  objects themselves) are left out; [this.update] stores the new value, the
  host's re-preparation of derived data after it is outside these
  functions. *)

Module Combat.
Import Data.

Inductive Outcome (A : Type) : Type :=
  | Threw (message : string)
  | ThrewTypeError
  | Returned (value : A).
Arguments Threw {A} message.
Arguments ThrewTypeError {A}.
Arguments Returned {A} value.

(** An awaited computation that draws dice and may throw. *)
Definition Fight (A : Type) : Type := list Z → option (Outcome A * list Z).

#[global] Instance fight_ret : MRet Fight := λ A a dice, Some (Returned a, dice).

#[global] Instance fight_bind : MBind Fight := λ A B k m dice,
  match m dice with
  | Some (Returned a, dice') => k a dice'
  | Some (Threw message, dice') => Some (Threw message, dice')
  | Some (ThrewTypeError, dice') => Some (ThrewTypeError, dice')
  | None => None
  end.

Definition throw {A} (message : string) : Fight A :=
  λ dice, Some (Threw message, dice).

Definition throwTypeError {A} : Fight A := λ dice, Some (ThrewTypeError, dice).

(** A dice computation that cannot throw. *)
Definition rolled {A} (m : Dice.Rolling A) : Fight A :=
  λ dice, match m dice with
          | Some (a, dice') => Some (Returned a, dice')
          | None => None
          end.

(** The next forced face. *)
Definition nextFace : Dice.Rolling Z :=
  λ dice, match dice with
          | [] => None
          | face :: rest => Some (face, rest)
          end.

(** [!!x] on an object or [null]. *)
Definition notNull {A} (o : option A) : bool :=
  match o with
  | Some _ => true
  | None => false
  end.

(** What the combat code holds as [weapon]: an item of the actor or the
    virtual weapon of a mutation. *)
Inductive Weapon :=
  | ItemWeapon (item : Item)
  | Natural (weapon : Actor.VirtualWeapon).

(** [weapon.id], [weapon.name], [weapon.system.damage] and
    [weapon.system.pv || 0]. *)
Definition idOf (weapon : Weapon) : string :=
  match weapon with
  | ItemWeapon item => item_id item
  | Natural w => Actor.vw_id w
  end.
Definition nameOf (weapon : Weapon) : string :=
  match weapon with
  | ItemWeapon item => item_name item
  | Natural w => Actor.vw_name w
  end.
Definition damageOf (weapon : Weapon) : option string :=
  match weapon with
  | ItemWeapon item => Some (weapon_damage (item_system item))
  | Natural w => Actor.vw_damage w
  end.
Definition pvOf (weapon : Weapon) : Z :=
  match weapon with
  | ItemWeapon item => JS.orZ (weapon_pv (item_system item)) 0
  | Natural w => JS.orZ (Some (Actor.vw_pv w)) 0
  end.

(** The result of [executeHandAttack]; [penetration], [damageRolls] and
    [totalDamage] are absent after a miss.  A damage roll is kept as its
    total. *)
Record HandResult := {
  bodyPartId : string;
  bodyPartName : string;
  weaponId : string;
  weaponName : string;
  weaponDamage : option string;
  weaponPV : Z;
  toHitTotal : Z;
  targetDV : Z;
  hit : bool;
  penetration : option Dice.Penetration;
  damageRolls : option (list Z);
  totalDamage : option Z
}.

(** The result of [executeOffhandAttack]; [attack] holds the fields merged in
    from [executeHandAttack] when the offhand triggered. *)
Record OffhandResult := {
  off_bodyPartId : string;
  off_bodyPartName : string;
  off_weaponId : string;
  off_weaponName : string;
  off_weaponDamage : option string;
  offhandChance : Z;
  percentResult : Z;
  triggered : bool;
  attack : option HandResult
}.

(** The result of [executeMultiWeaponAttack]. *)
Record AttackResults := {
  attackerName : string;
  targetName : string;
  mainHandResults : list HandResult;
  offHandResults : list OffhandResult;
  results_totalDamage : Z;
  targetHPBefore : Z;
  targetHPAfter : Z
}.

(** [r.hit && r.totalDamage] as a filter predicate: a missing or zero total
    is falsy. *)
Definition dealtDamage (r : HandResult) : bool :=
  hit r && match totalDamage r with
           | Some d => negb (d =? 0)
           | None => false
           end.

(** [r.triggered && r.hit && r.totalDamage] *)
Definition offhandDealtDamage (r : OffhandResult) : bool :=
  triggered r && match attack r with
                 | Some a => dealtDamage a
                 | None => false
                 end.

(** [r.totalDamage] of a result that passed the filter. *)
Definition damageOfHand (r : HandResult) : Z := default 0 (totalDamage r).
Definition damageOfOffhand (r : OffhandResult) : Z :=
  default 0 (attack r ≫= totalDamage).

(** [applyDamage(amount)], the later of the two definitions in the class,
    which is the one in effect. *)
Definition applyDamage (this : Actor) (amount : Z) : Actor :=
  let h := health (system this) in
  let currentHP := health_value h in
  let newHP := Z.max 0 (currentHP - amount) in
  set_system
    (set_health {| health_value := newHP; health_max := health_max h;
                   hpHistory := hpHistory h |} (system this)) this.

(** [this.update({'system.combat.mainHandId': bodyPartId})] *)
Definition update_mainHandId (bodyPartId : option string) (this : Actor) : Actor :=
  let c := combat (system this) in
  set_system
    (set_combat {| dv := dv c; pv := pv c; ma := ma c; av := av c;
                   mainHandId := bodyPartId |} (system this)) this.

Section Methods.

Variable evalFormula : string → Z → Z.

(** [Object.entries(bodyParts)]: the entries in the order of the object,
    which the map does not record. *)
Variable entries :
  gmap string BodyParts.BodyPart → list (string * BodyParts.BodyPart).

(** [(await new Roll(formula).evaluate()).total] for a weapon's damage
    formula, which the host parses. *)
Variable rollTotal : option string → Dice.Rolling Z.


(** [!!actor.getNaturalWeapon(partId)] *)
Definition hasNaturalWeapon (actor : Actor) (partId : string) : bool :=
  notNull (Actor.getNaturalWeapon evalFormula actor partId).





(** [getMainHand()]; [None] is [null].  [{ id: mainHandId, ...part }] is the
    part itself. *)
Definition getMainHand (this : Actor) : option BodyParts.BodyPart :=
  let mainHandId := mainHandId (combat (system this)) in
  if negb (JS.truthy_id mainHandId) then None
  else bodyParts (system this) !! default "" mainHandId.

Definition getOffHands (this : Actor) : list BodyParts.BodyPart :=
  let mainHandId := mainHandId (combat (system this)) in
  snd <$> List.filter
            (λ e,
               (* Skip main hand *)
               negb (bool_decide (Some e.1 = mainHandId))
               (* Include if it's a wielding part OR has a natural weapon *)
               && (BodyParts.canWieldWeapon e.2 || hasNaturalWeapon this e.1))
            (entries (bodyParts (system this))).

(** The loop of phase 3 of [executeHandAttack]: [n] damage rolls. *)
Fixpoint damageLoop (n : nat) (damage : option string) (damageRolls : list Z)
    (totalDamage : Z) : Dice.Rolling (list Z * Z) :=
  match n with
  | O => mret (damageRolls, totalDamage)
  | S n' =>
      damageRoll ← rollTotal damage;
      damageLoop n' damage (damageRolls ++ [damageRoll]) (totalDamage + damageRoll)
  end.

Definition executeHandAttack (weapon : Weapon) (attacker target : Actor)
    (bodyPartId : string) : Fight HandResult :=
  match bodyParts (system attacker) !! bodyPartId with
  | None => throwTypeError
  | Some bodyPart =>
      let bodyPartName := BodyParts.getBodyPartDisplayName bodyPart in
      (* Phase 1: To-hit roll (1d20 + AGI modifier vs DV) *)
      let agiMod := attr_mod (agility (attributes (system attacker))) in
      face ← rolled nextFace;
      let toHitTotal := face + agiMod in
      let targetDV := dv (combat (system target)) in
      let hit := targetDV <=? toHitTotal in
      let result penetration damageRolls totalDamage :=
        {| bodyPartId := bodyPartId;
           bodyPartName := bodyPartName;
           weaponId := idOf weapon;
           weaponName := nameOf weapon;
           weaponDamage := damageOf weapon;
           weaponPV := pvOf weapon;
           toHitTotal := toHitTotal;
           targetDV := targetDV;
           hit := hit;
           penetration := penetration;
           damageRolls := damageRolls;
           totalDamage := totalDamage |} in
      (* If miss, stop here *)
      if negb hit then mret (result None None None)
      else
        (* Phase 2: Penetration resolution *)
        let attackerPV := pv (combat (system attacker)) + pvOf weapon in
        let defenderAV := av (combat (system target)) in
        penetration ← rolled (Dice.resolvePenetration attackerPV defenderAV);
        (* If no penetrations, stop here (no damage) *)
        if Dice.totalPenetrations penetration =? 0
        then mret (result (Some penetration) (Some []) (Some 0))
        else
          (* Phase 3: roll weapon damage once per penetration *)
          r ← rolled (damageLoop (Z.to_nat (Dice.totalPenetrations penetration))
                        (damageOf weapon) [] 0);
          mret (result (Some penetration) (Some r.1) (Some r.2))
  end.

Definition executeOffhandAttack (weapon : Weapon) (attacker target : Actor)
    (bodyPartId : string) (offhandChance : Z) : Fight OffhandResult :=
  match bodyParts (system attacker) !! bodyPartId with
  | None => throwTypeError
  | Some bodyPart =>
      let bodyPartName := BodyParts.getBodyPartDisplayName bodyPart in
      (* Roll percentage check (1d100) *)
      percentResult ← rolled nextFace;
      let triggered := percentResult <=? offhandChance in
      let result attack :=
        {| off_bodyPartId := bodyPartId;
           off_bodyPartName := bodyPartName;
           off_weaponId := idOf weapon;
           off_weaponName := nameOf weapon;
           off_weaponDamage := damageOf weapon;
           offhandChance := offhandChance;
           percentResult := percentResult;
           triggered := triggered;
           attack := attack |} in
      (* If offhand doesn't trigger, stop here *)
      if negb triggered then mret (result None)
      else
        (* If triggered, execute full attack sequence *)
        attackResult ← executeHandAttack weapon attacker target bodyPartId;
        mret (result (Some attackResult))
  end.

(** [hand.equipment ? attacker.items.get(hand.equipment)
                    : attacker.getNaturalWeapon(hand.id)], written out for
    the main hand and again for each offhand. *)
Definition weaponOf (attacker : Actor) (hand : BodyParts.BodyPart) : option Weapon :=
  if JS.truthy_id (BodyParts.equipment hand)
  then ItemWeapon <$> items_get (items attacker) (default "" (BodyParts.equipment hand))
  else Natural <$> Actor.getNaturalWeapon evalFormula attacker (BodyParts.id hand).

(** The loop of phase 2 of [executeMultiWeaponAttack]. *)
Fixpoint offhandLoop (attacker target : Actor) (offHands : list BodyParts.BodyPart)
    (offHandResults : list OffhandResult) : Fight (list OffhandResult) :=
  match offHands with
  | [] => mret offHandResults
  | offHand :: rest =>
      match weaponOf attacker offHand with
      | None =>
          (* Skip if no weapon available (equipped or natural) *)
          offhandLoop attacker target rest offHandResults
      | Some offHandWeapon =>
          let offhandChance := JS.orZ (BodyParts.offhandChance offHand) 0 in
          offHandResult ← executeOffhandAttack offHandWeapon attacker target
                            (BodyParts.id offHand) offhandChance;
          offhandLoop attacker target rest (offHandResults ++ [offHandResult])
      end
  end.

(** [executeMultiWeaponAttack(attacker, target)]: the results and the target
    after the call. *)
Definition executeMultiWeaponAttack (attacker target : Actor)
  : Fight (AttackResults * Actor) :=
  (* Get main hand *)
  match getMainHand attacker with
  | None => throw "No main hand designated"
  | Some mainHand =>
      match weaponOf attacker mainHand with
      | None => throw "Main hand has no weapon (equipped or natural)"
      | Some mainHandWeapon =>
          (* Store HP before attack *)
          let targetHPBefore := health_value (health (system target)) in
          (* PHASE 1: Execute main hand attack (always attacks) *)
          mainHandResult ← executeHandAttack mainHandWeapon attacker target
                             (BodyParts.id mainHand);
          let mainHandResults := [mainHandResult] in
          (* PHASE 2: Execute offhand attacks *)
          offHandResults ← offhandLoop attacker target (getOffHands attacker) [];
          (* PHASE 3: Sum all damage from all successful attacks *)
          let totalDamage :=
            JS.sumZ ((damageOfHand <$> List.filter dealtDamage mainHandResults)
                     ++ (damageOfOffhand
                           <$> List.filter offhandDealtDamage offHandResults)) in
          (* PHASE 4: Apply damage to target *)
          let target :=
            if 0 <? totalDamage then applyDamage target totalDamage else target in
          (* Store HP after attack *)
          let targetHPAfter := health_value (health (system target)) in
          mret ({| attackerName := actor_name attacker;
                   targetName := actor_name target;
                   mainHandResults := mainHandResults;
                   offHandResults := offHandResults;
                   results_totalDamage := totalDamage;
                   targetHPBefore := targetHPBefore;
                   targetHPAfter := targetHPAfter |}, target)
      end
  end.


End Methods.

End Combat.

(** * Vocabulary of the properties *)

(** ** The body hierarchy as a graph *)

(** [b] is listed among the children of the part stored under [a]. *)
Definition childOf (bodyParts : gmap string BodyParts.BodyPart) (a b : string) : Prop :=
  ∃ p, bodyParts !! a = Some p ∧ b ∈ BodyParts.children p.

(** The transitive descendants of a part, along the [children] lists. *)
Definition descendantOf (bodyParts : gmap string BodyParts.BodyPart)
  : string → string → Prop :=
  tc (childOf bodyParts).

(** The hierarchy is acyclic: some rank decreases from every part to each of
    its children. *)
Definition ranked (rank : string → nat) (bodyParts : gmap string BodyParts.BodyPart)
  : Prop :=
  map_Forall (λ partId p, Forall (λ c, (rank c < rank partId)%nat)
                            (BodyParts.children p)) bodyParts.

(** The parent's part once [partId] is filtered out of its children. *)
Definition detached (partId : string) (q : BodyParts.BodyPart) : BodyParts.BodyPart :=
  BodyParts.set_children
    (List.filter (λ c, negb (String.eqb c partId)) (BodyParts.children q)) q.

(** ** Equipment averaging, as the specification words it *)

(** The armor item equipped on a part, if the part holds one. *)
Definition equippedArmor (items : list Data.Item) (part : BodyParts.BodyPart)
  : option Data.Item :=
  if JS.truthy_id (BodyParts.equipment part) then
    match Data.items_get items (default "" (BodyParts.equipment part)) with
    | Some item => if String.eqb (Data.item_type item) "armor" then Some item else None
    | None => None
    end
  else None.

(** A part's armor contribution: the equipped armor's av plus the part's
    natural-armor av. *)
Definition armorContribution (items : list Data.Item) (part : BodyParts.BodyPart) : Z :=
  match equippedArmor items part with
  | Some item => JS.orZ (Data.armor_av (Data.item_system item)) 0
  | None => 0
  end
  + match BodyParts.naturalArmor part with
    | Some natural => BodyParts.av natural
    | None => 0
    end.

(** A part's dodge contribution: the equipped armor's dodge modifier. *)
Definition dodgeContribution (items : list Data.Item) (part : BodyParts.BodyPart) : Z :=
  match equippedArmor items part with
  | Some item => JS.orZ (Data.dvModifier (Data.item_system item)) 0
  | None => 0
  end.

(** The parts of one type. *)
Definition partsOfType (t : string) (parts : list BodyParts.BodyPart)
  : list BodyParts.BodyPart :=
  List.filter (λ part, String.eqb (BodyParts.type part) t) parts.

(** The body-part types present, each once. *)
Definition typesPresent (parts : list BodyParts.BodyPart) : list string :=
  remove_dups (BodyParts.type <$> parts).

Definition sumQ (l : list Q) : Q := foldr Qplus 0%Q l.

(** The average of the contributions within one type group. *)
Definition groupAverage (contribution : BodyParts.BodyPart → Z) (t : string)
    (parts : list BodyParts.BodyPart) : Q :=
  let group := partsOfType t parts in
  (inject_Z (foldr Z.add 0%Z (contribution <$> group))
   / inject_Z (Z.of_nat (length group)))%Q.

(** The per-group averages, summed over the types present. *)
Definition summedAverages (contribution : BodyParts.BodyPart → Z)
    (parts : list BodyParts.BodyPart) : Q :=
  sumQ ((λ t, groupAverage contribution t parts) <$> typesPresent parts).

(** ** Sample data *)

(** A part with the given structural fields and no derived data. *)
Definition samplePart (partId type : string) (parent : option string)
    (children : list string) (equipment : option string) : BodyParts.BodyPart :=
  {| BodyParts.id := partId;
     BodyParts.type := type;
     BodyParts.variant := type;
     BodyParts.laterality := "";
     BodyParts.parent := parent;
     BodyParts.children := children;
     BodyParts.equipment := equipment;
     BodyParts.properties :=
       {| CAVESOFQUD.mortal := false; CAVESOFQUD.appendage := true;
          CAVESOFQUD.mobility := 0; CAVESOFQUD.usuallyOn := None;
          CAVESOFQUD.attackChance := None |};
     BodyParts.chimeraOrigin := false;
     BodyParts.naturalArmor := None;
     BodyParts.hasWings := false;
     BodyParts.offhandChance := None |}.

(** A body with a head, and one arm that carries a hand. *)
Definition sampleBody : gmap string BodyParts.BodyPart :=
  <["body" := samplePart "body" "Body" None ["arm"; "head"] None]>
  (<["arm" := samplePart "arm" "Arm" (Some "body") ["hand"] None]>
  (<["hand" := samplePart "hand" "Hand" (Some "arm") [] (Some "sword")]>
  (<["head" := samplePart "head" "Head" (Some "body") [] None]> ∅))).

Definition sampleRank (partId : string) : nat :=
  if String.eqb partId "body" then 2
  else if String.eqb partId "arm" then 1
  else 0.

Definition sampleAttribute (v : Z) : Data.Attribute :=
  {| Data.attr_value := v; Data.attr_mod := 0 |}.

(** A level-1 character with every attribute at 16 and the given body,
    toughness, level, current hit points and ledger. *)
Definition sampleSystem (bodyParts : gmap string BodyParts.BodyPart)
    (toughness level hp : Z) (ledger : option (list Data.HpEntry))
  : Data.SystemData :=
  {| Data.attributes :=
       {| Data.strength := sampleAttribute 16; Data.agility := sampleAttribute 16;
          Data.toughness := sampleAttribute toughness;
          Data.intelligence := sampleAttribute 16;
          Data.willpower := sampleAttribute 16; Data.ego := sampleAttribute 16 |};
     Data.combat := {| Data.dv := 0; Data.pv := 0; Data.ma := 0; Data.av := 0;
                       Data.mainHandId := None |};
     Data.health := {| Data.health_value := hp; Data.health_max := 0;
                       Data.hpHistory := ledger |};
     Data.level := level;
     Data.carryCapacity := {| Data.cc_max := 0; Data.cc_current := 0;
                              Data.overburdened := false |};
     Data.skillPoints := {| Data.sp_total := 0; Data.sp_spent := None;
                            Data.sp_available := 0 |};
     Data.hpRegenRate := 0%Q;
     Data.cooldownReduction := {| Data.reductionPercent := 0;
                                  Data.minimumCooldown := 0 |};
     Data.movement := None;
     Data.quickness := None;
     Data.bodyParts := bodyParts;
     Data.bodyRoot := "body";
     Data.characterType := "Mutant";
     Data.multiweaponFightingTier := None |}.

(** An equipped armor item with the given armor value and dodge modifier. *)
Definition sampleArmor (itemId : string) (av dvModifier : Z) : Data.Item :=
  {| Data.item_id := itemId; Data.item_name := itemId; Data.item_type := "armor";
     Data.item_system :=
       {| Data.weight := None; Data.quantity := None; Data.equipped := true;
          Data.armor_av := Some av; Data.dvModifier := Some dvModifier;
          Data.slot := ""; Data.weapon_damage := ""; Data.weapon_pv := None;
          Data.mut_level := 1; Data.isActive := false; Data.statBonuses := None;
          Data.naturalWeapon := None; Data.providesArmor := None;
          Data.resourceTracking := None; Data.blockedEquipment := None;
          Data.bodyModifications := None; Data.addedBodyParts := None |} |}.

(** An active mutation with the given natural weapon, stat bonuses and body
    modifications. *)
Definition sampleMutation (itemId name : string) (active : bool)
    (weapon : option Data.NaturalWeapon) (bonuses : option Data.StatBonuses)
    (modifications : list Data.BodyModification) : Data.Item :=
  {| Data.item_id := itemId; Data.item_name := name; Data.item_type := "mutation";
     Data.item_system :=
       {| Data.weight := None; Data.quantity := None; Data.equipped := false;
          Data.armor_av := None; Data.dvModifier := None;
          Data.slot := ""; Data.weapon_damage := ""; Data.weapon_pv := None;
          Data.mut_level := 1; Data.isActive := active; Data.statBonuses := bonuses;
          Data.naturalWeapon := weapon; Data.providesArmor := None;
          Data.resourceTracking := None; Data.blockedEquipment := None;
          Data.bodyModifications := Some modifications;
          Data.addedBodyParts := Some [] |} |}.

Definition sampleActor (items : list Data.Item) (system : Data.SystemData)
  : Data.Actor :=
  {| Data.actor_name := "Qud"; Data.actor_type := "character";
     Data.items := items; Data.system := system |}.



(** The Horns mutation of the catalog, active: a natural weapon on heads. *)
Definition hornsItem : Data.Item :=
  sampleMutation "horns" "Horns" true
    (Some {| Data.nw_enabled := true; Data.bodyPartTypes := ["Head"];
             Data.nw_damageFormula := Some "Horns"; Data.nw_pv := Some 0;
             Data.nw_attackChance := Some 20 |})
    None [].

(** A head that wears a helmet, and the same head bare. *)
Definition helmetedBody : gmap string BodyParts.BodyPart :=
  <["head" := samplePart "head" "Head" None [] (Some "helmet")]> ∅.

Definition bareHeadBody : gmap string BodyParts.BodyPart :=
  <["head" := samplePart "head" "Head" None [] None]> ∅.

(** A stand-in for JavaScript's [eval] in examples: the formula [level * 3]. *)
Definition sampleEval (formula : string) (level : Z) : Z := level * 3.

(** The ledger of a character of toughness 18 (modifier +1) that reached
    level 2 with a roll of 3. *)
Definition sampleLedger : list Data.HpEntry :=
  [ {| Data.hp_level := 1; Data.roll := 18; Data.modifier := 1; Data.hp_total := 18 |};
    {| Data.hp_level := 2; Data.roll := 3; Data.modifier := 1; Data.hp_total := 4 |} ].

(** The rewriting of a ledger entry under the current toughness modifier. *)
Definition rewritten (toughMod : Z) (entry : Data.HpEntry) : Data.HpEntry :=
  {| Data.hp_level := Data.hp_level entry; Data.roll := Data.roll entry;
     Data.modifier := toughMod; Data.hp_total := Data.roll entry + toughMod |}.

(** The body modification of the Burrowing Claws mutation: hands become
    burrowing claws. *)
Definition clawModification (preserve : bool) : Data.BodyModification :=
  {| Data.action := "replace"; Data.targetType := "Hand";
     Data.newType := "BurrowingClaw"; Data.preserveEquipment := preserve;
     Data.mod_type := ""; Data.mod_parent := ""; Data.mod_variant := None;
     Data.mod_laterality := None; Data.withChildren := None;
     Data.mod_chimeraOrigin := false |}.


Definition sampleWorld : BodyParts.World :=
  {| BodyParts.dateNow := 0; BodyParts.bodyPartIdCounter := 0;
     BodyParts.random := [] |}.

(** What a replace modification makes of a part of its target type. *)
Definition replaced (modification : Data.BodyModification) (part : BodyParts.BodyPart)
  : BodyParts.BodyPart :=
  if Data.preserveEquipment modification
  then BodyParts.set_type (Data.newType modification) part
  else BodyParts.set_equipment None
         (BodyParts.set_type (Data.newType modification) part).

(** A part after a replace modification has been applied and removed again:
    its equipment is gone if it was of the target type and the modification
    does not preserve equipment, and nothing else has changed. *)
Definition afterRoundTrip (modification : Data.BodyModification)
    (part : BodyParts.BodyPart) : BodyParts.BodyPart :=
  if String.eqb (BodyParts.type part) (Data.targetType modification)
     && negb (Data.preserveEquipment modification)
  then BodyParts.set_equipment None part
  else part.

(** The Burrowing Claws and Multiple Legs mutations, not yet applied. *)
Definition clawsItem (preserve : bool) : Data.Item :=
  sampleMutation "claws" "Burrowing Claws" false None None [clawModification preserve].


(** An active mutation that grants +20 carry capacity (flat), +10 movement
    speed (percent) and +5 quickness (flat). *)
Definition swiftItem : Data.Item :=
  sampleMutation "swift" "Swift" true None
    (Some {| Data.sb_carryCapacity :=
               Some {| Data.bonusType := "flat"; Data.value := 20; Data.formula := "" |};
             Data.sb_movementSpeed :=
               Some {| Data.bonusType := "percent"; Data.value := 10; Data.formula := "" |};
             Data.sb_quickness :=
               Some {| Data.bonusType := "flat"; Data.value := 5; Data.formula := "" |} |})
    [].

(** ** The stored body and its invariant *)

(** The id the generator hands out next. *)
Definition nextId (w : BodyParts.World) : string :=
  "bp_" +:+ pretty (BodyParts.dateNow w) +:+ "_" +:+ pretty (BodyParts.bodyPartIdCounter w).

(** The world after [n] ids have been generated. *)
Definition advance (n : N) (w : BodyParts.World) : BodyParts.World :=
  {| BodyParts.dateNow := BodyParts.dateNow w;
     BodyParts.bodyPartIdCounter := (BodyParts.bodyPartIdCounter w + n)%N;
     BodyParts.random := BodyParts.random w |}.

(** The invariant of a stored body: every part is stored under its own,
    non-empty id; the children lists and the parent pointers agree and point
    at stored parts; and [rank] decreases along the children lists. *)
Record wellFormed (rank : string → nat) (bodyParts : gmap string BodyParts.BodyPart)
  : Prop := {
  wf_id : ∀ k p, bodyParts !! k = Some p → BodyParts.id p = k ∧ k ≠ "";
  wf_children : ∀ k p c, bodyParts !! k = Some p → c ∈ BodyParts.children p →
                  ∃ q, bodyParts !! c = Some q ∧ BodyParts.parent q = Some k;
  wf_parent : ∀ k p y, bodyParts !! k = Some p → BodyParts.parent p = Some y →
                ∃ q, bodyParts !! y = Some q ∧ k ∈ BodyParts.children q;
  wf_ranked : ranked rank bodyParts
}.

(** The part that [createBodyPart] builds for a known type. *)
Definition freshPart (newId type : string) (variant : option string)
    (laterality : string) (parentId : option string) (partType : CAVESOFQUD.BodyPartType)
  : BodyParts.BodyPart :=
  {| BodyParts.id := newId;
     BodyParts.type := type;
     BodyParts.variant := if JS.truthy_id variant then default "" variant
                          else default "" (head (CAVESOFQUD.variants partType));
     BodyParts.laterality := laterality;
     BodyParts.parent := parentId;
     BodyParts.children := [];
     BodyParts.equipment := None;
     BodyParts.properties := CAVESOFQUD.properties partType;
     BodyParts.chimeraOrigin := false;
     BodyParts.naturalArmor := None;
     BodyParts.hasWings := false;
     BodyParts.offhandChance := None |}.

(** The body once [child] has been stored and pushed onto the children of
    the part stored under [parentId]. *)
Definition withChild (bodyParts : gmap string BodyParts.BodyPart) (parentId : string)
    (parentPart child : BodyParts.BodyPart) : gmap string BodyParts.BodyPart :=
  <[parentId := BodyParts.set_children
                  (BodyParts.children parentPart ++ [BodyParts.id child]) parentPart]>
    (<[BodyParts.id child := child]> bodyParts).

(** The id generated after [k] earlier ids. *)
Definition idAt (w : BodyParts.World) (k : nat) : string :=
  nextId (Nat.iter k (advance 1) w).

(** A placeholder for a type the configuration does not have. *)
Definition unknownType : CAVESOFQUD.BodyPartType :=
  CAVESOFQUD.mkType "" false "" false [] false false 0 None None.

(** The standard humanoid layout over the ids [ids 0 .. ids 9]: a body
    carrying a head (with a face), a back, two arms (each with a hand), feet
    and a floating slot. *)
Definition humanoidParts (ids : nat → string) : list (string * BodyParts.BodyPart) :=
  let part (k : nat) (type variant laterality : string) (parentId : option string) :=
    freshPart (ids k) type (Some variant) laterality parentId
      (default unknownType (CAVESOFQUD.bodyPartTypes type)) in
  let withKids (kids : list nat) (p : BodyParts.BodyPart) :=
    BodyParts.set_children (ids <$> kids) p in
  let body := ids 0%nat in
  [ (ids 0%nat, withKids [1; 3; 4; 6; 8; 9]%nat
                  (freshPart (ids 0%nat) "Body" None "" None
                     (default unknownType (CAVESOFQUD.bodyPartTypes "Body"))));
    (ids 1%nat, withKids [2%nat] (part 1%nat "Head" "Head" "" (Some body)));
    (ids 2%nat, part 2%nat "Face" "Face" "" (Some (ids 1%nat)));
    (ids 3%nat, part 3%nat "Back" "Back" "" (Some body));
    (ids 4%nat, withKids [5%nat] (part 4%nat "Arm" "Arm" "Left" (Some body)));
    (ids 5%nat, part 5%nat "Hand" "Hand" "Left" (Some (ids 4%nat)));
    (ids 6%nat, withKids [7%nat] (part 6%nat "Arm" "Arm" "Right" (Some body)));
    (ids 7%nat, part 7%nat "Hand" "Hand" "Right" (Some (ids 6%nat)));
    (ids 8%nat, part 8%nat "Feet" "Feet" "" (Some body));
    (ids 9%nat, part 9%nat "FloatingNearby" "Floating Nearby" "" (Some body)) ].

Definition humanoidBody (ids : nat → string) : gmap string BodyParts.BodyPart :=
  list_to_map (humanoidParts ids).

(** A rank for the humanoid layout: the body above the limbs that carry a
    part, and these above the rest. *)
Definition humanoidRank (ids : nat → string) (x : string) : nat :=
  if bool_decide (x = ids 0%nat) then 2%nat
  else if bool_decide (x = ids 1%nat ∨ x = ids 4%nat ∨ x = ids 6%nat) then 1%nat
  else 0%nat.

(** [c] run in the world [w] returns, with a result and a world that
    satisfy [Q]. *)
Definition returns {A} (c : BodyParts.Eff A) (w : BodyParts.World)
    (Q : A → BodyParts.World → Prop) : Prop :=
  ∃ a w', c w = Some (a, w') ∧ Q a w'.

(** The world once the head of the forced random sequence is used up. *)
Definition afterRandom (w : BodyParts.World) : BodyParts.World :=
  {| BodyParts.dateNow := BodyParts.dateNow w;
     BodyParts.bodyPartIdCounter := BodyParts.bodyPartIdCounter w;
     BodyParts.random := tail (BodyParts.random w) |}.

(** The number of the 19 equally likely rolls that select a type. *)
Definition rollsFor (t : string) : nat :=
  length (List.filter
            (λ roll, String.eqb (BodyParts.pickWeighted roll BodyParts.chimeraWeights) t)
            (seqZ 0 19)).

(** The display tree mirrors the hierarchy below the part stored under
    [partId]: one node per part, children in the order of the [children]
    list, one level deeper each. *)
#[warnings="-register-all"]
Inductive mirrors (bodyParts : gmap string BodyParts.BodyPart)
  : Z → string → BodyParts.TreeNode → Prop :=
| mirrors_node depth partId part nodes :
    bodyParts !! partId = Some part →
    Forall2 (mirrors bodyParts (depth + 1)) (BodyParts.children part) nodes →
    mirrors bodyParts depth partId (BodyParts.mkTreeNode part depth nodes).

(** What the flattened entries say about their parts: the flag tells
    whether the part lists children, and no entry is above [depth]. *)
Definition flatOk (depth : Z) (f : BodyParts.FlatNode) : Prop :=
  BodyParts.hasChildren f
  = negb (bool_decide (BodyParts.children (BodyParts.flat_part f) = []))
  ∧ depth ≤ BodyParts.flat_depth f.

(** ** The dice of a singlet *)

(** The die record the loop pushes for a raw face. *)
Definition dieRoll (dieResult : Z) : Dice.DieRoll :=
  {| Dice.raw := dieResult; Dice.modified := dieResult - 2 |}.

(** ** More sample data *)

(** A world whose next random number is one half. *)
Definition halfWorld : BodyParts.World :=
  {| BodyParts.dateNow := 0; BodyParts.bodyPartIdCounter := 0;
     BodyParts.random := [1 # 2]%Q |}.

(** ** Slots and equipped flags *)

(** Some part of the body holds the item. *)
Definition held (bodyParts : gmap string BodyParts.BodyPart) (itemId : string) : Prop :=
  ∃ partId part, bodyParts !! partId = Some part
                 ∧ BodyParts.equipment part = Some itemId.

(** The items have distinct, non-empty ids; a slot holds [null] or a
    non-empty id; and an item of the actor is flagged [equipped] exactly when
    some part holds it. *)
Record slotsInStep (this : Data.Actor) : Prop := {
  sis_ids : NoDup (Data.item_id <$> Data.items this);
  sis_nonempty : ∀ item, item ∈ Data.items this → Data.item_id item ≠ "";
  sis_slots : ∀ partId part,
    Data.bodyParts (Data.system this) !! partId = Some part →
    BodyParts.equipment part ≠ Some "";
  sis_flags : ∀ item, item ∈ Data.items this →
    (Data.equipped (Data.item_system item) = true
     ↔ held (Data.bodyParts (Data.system this)) (Data.item_id item))
}.

(** The last steps of [equipToBodyPart], once the slot is empty. *)
Definition fillSlot (this : Data.Actor) (itemId partId : string) : Data.Actor * bool :=
  let bodyParts' :=
    alter (BodyParts.set_equipment (Some itemId)) partId (Data.bodyParts (Data.system this)) in
  let this := Mutation.update_bodyParts bodyParts' this in
  match Data.items_get (Data.items this) itemId with
  | Some item =>
      if negb (Data.equipped (Data.item_system item))
      then (Equipment.markEquipped true item this, true)
      else (this, true)
  | None => (this, true)
  end.

(** An item of the given type and slot. *)
Definition sampleGear (itemId type slot : string) (equipped : bool) : Data.Item :=
  {| Data.item_id := itemId; Data.item_name := itemId; Data.item_type := type;
     Data.item_system :=
       {| Data.weight := None; Data.quantity := None; Data.equipped := equipped;
          Data.armor_av := None; Data.dvModifier := None;
          Data.slot := slot; Data.weapon_damage := "1d4"; Data.weapon_pv := None;
          Data.mut_level := 1; Data.isActive := false; Data.statBonuses := None;
          Data.naturalWeapon := None; Data.providesArmor := None;
          Data.resourceTracking := None; Data.blockedEquipment := None;
          Data.bodyModifications := None; Data.addedBodyParts := None |} |}.

(** The sample body, whose hand holds the sword, with a helmet in the pack. *)
Definition gearedActor : Data.Actor :=
  sampleActor [sampleGear "sword" "weapon" "" true;
               sampleGear "helm" "armor" "head" false]
    (sampleSystem sampleBody 16 1 10 None).

(** ** Attacks *)

(** The computation returns or is still waiting for dice: it never throws;
    and what it returns satisfies [P]. *)
Definition neverThrows {A} (P : A → Prop) (m : Combat.Fight A) : Prop :=
  ∀ dice, m dice = None ∨ ∃ a rest, m dice = Some (Combat.Returned a, rest) ∧ P a.

(** Every part is stored under its own id. *)
Definition keyedById (m : gmap string BodyParts.BodyPart) : Prop :=
  ∀ k p, m !! k = Some p → BodyParts.id p = k.

(** A damage roll takes the next forced face as its total. *)
Definition sampleRollTotal (formula : option string) : Dice.Rolling Z :=
  Combat.nextFace.

(** The entries of a map in key order. *)
Definition sampleEntries (m : gmap string BodyParts.BodyPart)
  : list (string * BodyParts.BodyPart) := map_to_list m.

(** A sword with the given damage formula and penetration value. *)
Definition sampleWeapon (itemId damage : string) (pv : option Z) : Data.Item :=
  {| Data.item_id := itemId; Data.item_name := itemId; Data.item_type := "weapon";
     Data.item_system :=
       {| Data.weight := None; Data.quantity := None; Data.equipped := true;
          Data.armor_av := None; Data.dvModifier := None;
          Data.slot := ""; Data.weapon_damage := damage; Data.weapon_pv := pv;
          Data.mut_level := 1; Data.isActive := false; Data.statBonuses := None;
          Data.naturalWeapon := None; Data.providesArmor := None;
          Data.resourceTracking := None; Data.blockedEquipment := None;
          Data.bodyModifications := None; Data.addedBodyParts := None |} |}.

(** The sample body with a sword of penetration value 4 in its hand and ten
    hit points; no main hand is designated. *)
Definition armedActor : Data.Actor :=
  sampleActor [sampleWeapon "sword" "1d4" (Some 4)]
    (sampleSystem sampleBody 16 1 10 None).

(** ** What the pipeline leaves on a body part *)

(** The wings flag that [_calculateNaturalArmor] leaves on a part of the
    given type. *)
Definition wingsOf (items : list Data.Item) (type : string) : bool :=
  foldl (λ wings item,
           if Actor.isWings item && String.eqb type "Back" then true else wings)
        false items.

(** The natural armor that [_calculateNaturalArmor] leaves on a part of the
    given type: that of the last granting mutation, or the cleared value. *)
Definition armorOf (evalFormula : string → Z → Z) (items : list Data.Item)
    (type : string) : option BodyParts.NaturalArmor :=
  foldl (λ armor item,
           match Actor.grantsArmor item with
           | Some armorData =>
               if String.eqb type (Data.bodyPartType armorData)
               then Some {| BodyParts.av := Actor.naturalAV evalFormula item;
                            BodyParts.source := Data.item_name item |}
               else armor
           | None => armor
           end)
        (Some {| BodyParts.av := 0; BodyParts.source := "" |}) items.

(** The offhand chance that [_calculateOffhandChances] leaves on a part that
    cannot wield: that of the first active natural weapon for its type, or
    the chance it had. *)
Fixpoint naturalChance (items : list Data.Item) (type : string) (chance : option Z)
  : option Z :=
  match items with
  | [] => chance
  | item :: rest =>
      match (if Actor.activeMutation item then Actor.naturalWeaponEnabled item
             else None) with
      | Some nw =>
          if bool_decide (type ∈ Data.bodyPartTypes nw)
          then Data.nw_attackChance nw
          else naturalChance rest type chance
      | None => naturalChance rest type chance
      end
  end.

(** A body part after one run of the pipeline. *)
Definition preparedPart (evalFormula : string → Z → Z) (items : list Data.Item)
    (systemData : Data.SystemData) (partId : string) (part : BodyParts.BodyPart)
  : BodyParts.BodyPart :=
  let type := BodyParts.type part in
  BodyParts.set_offhandChance
    (if BodyParts.canWieldWeapon part
     then Some (Actor._calculateOffhandChance items systemData partId)
     else naturalChance items type (BodyParts.offhandChance part))
    (BodyParts.set_naturalArmor (armorOf evalFormula items type)
       (BodyParts.set_hasWings (wingsOf items type) part)).

(** No active mutation of the items has a movement-speed or quickness bonus
    that applies. *)
Definition noSpeedBonuses (items : list Data.Item) : Prop :=
  ∀ item bonuses,
    item ∈ items → Actor.activeMutation item = true →
    Data.statBonuses (Data.item_system item) = Some bonuses →
    Actor.bonusApplies (Data.sb_movementSpeed bonuses) = None
    ∧ Actor.bonusApplies (Data.sb_quickness bonuses) = None.

(** ** Parts that go with a removed part *)

(** The part removed and everything below it. *)
Definition goesWith (bodyParts : gmap string BodyParts.BodyPart) (partId x : string)
  : Prop :=
  x = partId ∨ descendantOf bodyParts partId x.

(** An item held by one of the parts that go with [partId]. *)
Definition heldBelow (bodyParts : gmap string BodyParts.BodyPart) (partId itemId : string)
  : Prop :=
  ∃ x p, goesWith bodyParts partId x ∧ bodyParts !! x = Some p
         ∧ BodyParts.equipment p = Some itemId ∧ itemId ≠ "".

(** An item held by a part that stays. *)
Definition heldBeside (bodyParts : gmap string BodyParts.BodyPart) (partId itemId : string)
  : Prop :=
  ∃ x p, ¬ goesWith bodyParts partId x ∧ bodyParts !! x = Some p
         ∧ BodyParts.equipment p = Some itemId.

(** ** Proof steps *)

(** The distinct elements of a list, in the order of their first
    occurrence: the key order of an object filled key by key. *)
Definition firsts (l : list string) : list string :=
  foldl (λ acc t, if bool_decide (t ∈ acc) then acc else acc ++ [t]) [] l.

(** Leaving the loop at once appends no triplet. *)
Ltac loop_exit :=
  exists []; rewrite app_nil_r; simpl; unfold JS.sumZ; simpl;
  repeat split; try done; try lia; auto.


(** Membership in a list that is written out. *)
Ltac pick_entry :=
  repeat first [ apply list_elem_of_here | apply list_elem_of_further ].

(** The cases of a lookup in a map that is written out as inserts. *)
Ltac each_part Hk :=
  repeat (apply lookup_insert_Some in Hk as [[<- <-]|[_ Hk]]);
  [..|by rewrite lookup_empty in Hk].

(** * Properties *)

(** ** Sums *)

Section Sums.

Lemma foldl_add_acc (l : list Z) : ∀ acc, foldl Z.add acc l = acc + foldl Z.add 0 l.
Proof.
  induction l as [|y l IH]; intros acc; simpl; [lia|].
  rewrite (IH (acc + y)), (IH (0 + y)). lia.
Qed.

Lemma sumZ_cons x l : JS.sumZ (x :: l) = x + JS.sumZ l.
Proof. unfold JS.sumZ. simpl. rewrite foldl_add_acc. lia. Qed.

Lemma sumZ_nil : JS.sumZ [] = 0.
Proof. done. Qed.

Lemma sumZ_foldr (l : list Z) : JS.sumZ l = foldr Z.add 0 l.
Proof.
  induction l as [|x l IH]; [done|]. rewrite sumZ_cons, IH. done.
Qed.

End Sums.

(** ** The penetration dice engine *)

Section DiceFacts.
Import Dice.

(** Unfolding the bind of [Rolling]. *)
Lemma rolling_bind_Some {A B} (m : Rolling A) (k : A → Rolling B) dice b rest :
  (m ≫= k) dice = Some (b, rest) ↔
  ∃ a dice', m dice = Some (a, dice') ∧ k a dice' = Some (b, rest).
Proof.
  unfold mbind, rolling_bind. split.
  - destruct (m dice) as [[a dice']|]; [|done]. intros H. by exists a, dice'.
  - intros (a & dice' & -> & H). done.
Qed.

(** A run of [k] raw tens followed by a face other than ten. *)
Lemma singletLoop_explodes (k : nat) (d : Z) (rest : list Z) :
  d ≠ 10 →
  ∀ total rolls,
    singletLoop total rolls (replicate k 10 ++ d :: rest)
    = Some (total + 8 * Z.of_nat k + (d - 2),
            rolls ++ replicate k {| raw := 10; modified := 8 |}
                  ++ [{| raw := d; modified := d - 2 |}],
            rest).
Proof.
  intros Hd. induction k as [|k IH]; intros total rolls; simpl.
  - destruct (d - 2 =? 8) eqn:E; [lia|]. do 3 f_equal. lia.
  - rewrite IH. rewrite <- (assoc_L (++)). simpl. do 3 f_equal. lia.
Qed.

(** Every singlet consumes at least one die. *)
Lemma singletLoop_consumes dice : ∀ total rolls total' rolls' rest,
  singletLoop total rolls dice = Some (total', rolls', rest) →
  (length rest < length dice)%nat.
Proof.
  induction dice as [|d dice IH]; intros total rolls total' rolls' rest; simpl; [done|].
  destruct (d - 2 =? 8).
  - intros H. apply IH in H. lia.
  - intros [= _ _ <-]. lia.
Qed.

(** A singlet over dice that never show a ten stops after its first die. *)
Lemma rollQudSinglet_plain d dice :
  d ≠ 10 →
  rollQudSinglet (d :: dice)
  = Some ({| total := d - 2; rolls := [{| raw := d; modified := d - 2 |}];
             exploded := false; explosionChain := [d] |}, dice).
Proof.
  intros Hd. unfold rollQudSinglet. simpl.
  destruct (d - 2 =? 8) eqn:E; [lia|]. done.
Qed.

(** C4, as the code has it.  On the forced raw sequence [10, 10, 3] the
    singlet explodes twice: the two tens count 8 each and the three counts 1,
    so the singlet returns total 8 + 8 + 1 = 17 with exploded = true, having
    consumed the three dice. *)
Theorem rollQudSinglet_forced_10_10_3 :
  ∃ s, rollQudSinglet [10; 10; 3] = Some (s, [])
       ∧ total s = 17
       ∧ modified <$> rolls s = [8; 8; 1]
       ∧ exploded s = true
       ∧ explosionChain s = [10; 10; 3].
Proof. eexists. repeat split; reflexivity. Qed.

(** C4, as the specification states it, fails: the singlet rolled from
    [10, 10, 3] does not have total 6 + 6 + 1 = 13. *)
Lemma rollQudSinglet_forced_total_not_13 :
  ¬ ∃ s rest, rollQudSinglet [10; 10; 3] = Some (s, rest)
              ∧ total s = 6 + 6 + 1 ∧ exploded s = true.
Proof. intros (s & rest & H & Ht & _). vm_compute in H. by simplify_eq. Qed.

(** C2.  For any penetration value, armor value and three singlet results,
    a singlet passes iff its total plus PV is at least AV; the triplet yields
    one penetration if at least one singlet passes and none otherwise; and
    allPassed holds iff all three pass.  [rollQudTriplet] returns this
    evaluation of the three singlets it rolled; with PV 10, AV 6 and singlet
    totals -2, 5, 1 all three pass, penetrations = 1, allPassed = true. *)
Theorem rollQudTriplet_evaluation (pv av : Z) (s1 s2 s3 : Singlet) :
  let t := evaluateTriplet pv av [s1; s2; s3] in
  let passes s := av ≤ total s + pv in
  (∀ s, singletPasses pv av s = true ↔ passes s)
  ∧ singlets t = [s1; s2; s3]
  ∧ singletsPassed t
    = Z.of_nat (length (List.filter (λ s, bool_decide (passes s)) [s1; s2; s3]))
  ∧ (penetrations t = 1 ↔ passes s1 ∨ passes s2 ∨ passes s3)
  ∧ (penetrations t = 0 ↔ ¬ (passes s1 ∨ passes s2 ∨ passes s3))
  ∧ (allPassed t = true ↔ passes s1 ∧ passes s2 ∧ passes s3)
  ∧ (∀ dice t' rest, rollQudTriplet pv av dice = Some (t', rest) →
       ∃ r1 r2 r3, t' = evaluateTriplet pv av [r1; r2; r3])
  ∧ (∃ t', rollQudTriplet 10 6 [0; 7; 3] = Some (t', [])
           ∧ total <$> singlets t' = [-2; 5; 1]
           ∧ singletsPassed t' = 3 ∧ penetrations t' = 1 ∧ allPassed t' = true).
Proof.
  intros t passes.
  assert (Hp : ∀ s, singletPasses pv av s = true ↔ passes s).
  { intros s. unfold singletPasses, passes. apply Z.leb_le. }
  assert (Hb : ∀ s, bool_decide (passes s) = singletPasses pv av s).
  { intros s. destruct (singletPasses pv av s) eqn:E.
    - by apply bool_decide_eq_true_2, Hp.
    - apply bool_decide_eq_false_2. rewrite <- Hp. congruence. }
  assert (Hroll : ∀ dice t' rest, rollQudTriplet pv av dice = Some (t', rest) →
                    ∃ r1 r2 r3, t' = evaluateTriplet pv av [r1; r2; r3]).
  { intros dice t' rest Hroll. unfold rollQudTriplet in Hroll.
    apply rolling_bind_Some in Hroll as (r1 & d1 & _ & Hroll).
    apply rolling_bind_Some in Hroll as (r2 & d2 & _ & Hroll).
    apply rolling_bind_Some in Hroll as (r3 & d3 & _ & Hroll).
    injection Hroll as <- _. by exists r1, r2, r3. }
  split; [exact Hp|]. split; [done|].
  split; [|split; [|split; [|split; [|split; [exact Hroll|]]]]].
  - subst t. unfold evaluateTriplet. cbn [singletsPassed List.filter].
    by rewrite !Hb.
  - rewrite <- !Hp. subst t. unfold evaluateTriplet.
    cbn [singletsPassed penetrations List.filter].
    destruct (singletPasses pv av s1), (singletPasses pv av s2),
      (singletPasses pv av s3); clear; simpl; intuition congruence.
  - rewrite <- !Hp. subst t. unfold evaluateTriplet.
    cbn [singletsPassed penetrations List.filter].
    destruct (singletPasses pv av s1), (singletPasses pv av s2),
      (singletPasses pv av s3); clear; simpl; intuition congruence.
  - rewrite <- !Hp. subst t. unfold evaluateTriplet.
    cbn [singletsPassed allPassed List.filter].
    destruct (singletPasses pv av s1), (singletPasses pv av s2),
      (singletPasses pv av s3); clear; simpl; intuition congruence.
  - eexists. repeat split; reflexivity.
Qed.

Lemma rollQudTriplet_Some pv av dice t rest :
  rollQudTriplet pv av dice = Some (t, rest) →
  ∃ s1 s2 s3, t = evaluateTriplet pv av [s1; s2; s3].
Proof.
  intros Hroll. unfold rollQudTriplet in Hroll.
  apply rolling_bind_Some in Hroll as (r1 & d1 & _ & Hroll).
  apply rolling_bind_Some in Hroll as (r2 & d2 & _ & Hroll).
  apply rolling_bind_Some in Hroll as (r3 & d3 & _ & Hroll).
  injection Hroll as <- _. by exists r1, r2, r3.
Qed.

(** The bound on the number of iterations is never the reason for [None]:
    any two budgets of at least [Z.to_nat currentPV] give the same run. *)
Lemma penetrationLoop_fuel fuel : ∀ fuel' av cur tot ts cont dice,
  (cont = true → Z.to_nat cur ≤ fuel ∧ Z.to_nat cur ≤ fuel')%nat →
  penetrationLoop fuel av cur tot ts cont dice
  = penetrationLoop fuel' av cur tot ts cont dice.
Proof.
  induction fuel as [|fuel IH]; intros fuel' av cur tot ts cont dice Hfuel.
  - destruct fuel' as [|fuel']; [done|]. simpl.
    destruct cont; [|done]. destruct (0 <? cur) eqn:E; [|done].
    apply Z.ltb_lt in E. destruct Hfuel as [? _]; [done|lia].
  - destruct fuel' as [|fuel'].
    + simpl. destruct cont; [|done]. destruct (0 <? cur) eqn:E; [|done].
      apply Z.ltb_lt in E. destruct Hfuel as [_ ?]; [done|lia].
    + simpl. destruct cont; [|done]. destruct (0 <? cur) eqn:E; [|done].
      apply Z.ltb_lt in E. destruct Hfuel as [? ?]; [done|]. simpl.
      unfold mbind, rolling_bind.
      destruct (rollQudTriplet cur av dice) as [[t dice']|]; [|done].
      destruct (allPassed t).
      * apply IH. intros _. lia.
      * apply IH. done.
Qed.

(** The invariant of the penetration loop: what one run appends to the
    triplets rolled so far. *)
Lemma penetrationLoop_spec fuel : ∀ av cur tot ts cont dice cur' tot' ts' rest,
  penetrationLoop fuel av cur tot ts cont dice = Some ((cur', tot', ts'), rest) →
  ∃ new,
    ts' = ts ++ new
    ∧ tot' = tot + JS.sumZ (penetrations <$> new)
    ∧ cur' = cur - 2 * Z.of_nat (length (List.filter allPassed new))
    ∧ (∀ (k : nat) t, new !! k = Some t →
         (∃ s1 s2 s3, t = evaluateTriplet (cur - 2 * Z.of_nat k) av [s1; s2; s3])
         ∧ 0 < cur - 2 * Z.of_nat k
         ∧ ((S k < length new)%nat → allPassed t = true))
    ∧ (cont = false → new = [])
    ∧ match last new with
      | Some t => allPassed t = false ∨ cur' ≤ 0
      | None => cont = false ∨ cur ≤ 0
      end.
Proof.
  induction fuel as [|fuel IH]; intros av cur tot ts cont dice cur' tot' ts' rest;
    simpl.
  - destruct cont; simpl.
    + destruct (0 <? cur) eqn:E; [done|]. apply Z.ltb_ge in E.
      intros [= <- <- <- <-]. loop_exit.
    + intros [= <- <- <- <-]. loop_exit.
  - destruct cont; simpl.
    2:{ intros [= <- <- <- <-]. loop_exit. }
    destruct (0 <? cur) eqn:E.
    2:{ apply Z.ltb_ge in E. intros [= <- <- <- <-]. loop_exit. }
    apply Z.ltb_lt in E. intros Hrun.
    apply rolling_bind_Some in Hrun as (t & dice' & Hroll & Hrun).
    apply rollQudTriplet_Some in Hroll as Ht.
    destruct (allPassed t) eqn:Hall.
    + apply IH in Hrun as (new & -> & -> & -> & Hk & _ & Hlast).
      exists (t :: new). rewrite <- (assoc_L (++)), fmap_cons, sumZ_cons.
      cbn [List.filter app]. rewrite Hall. cbn [length].
      split; [done|]. split; [lia|]. split; [lia|]. split; [|split; [done|]].
      * intros [|k] t0 Hlook; simpl in Hlook.
        -- injection Hlook as <-. rewrite Z.sub_0_r. auto.
        -- apply Hk in Hlook as (Hev & Hpos & Hnext).
           replace (cur - 2 * Z.of_nat (S k)) with (cur - 2 - 2 * Z.of_nat k) by lia.
           split; [done|]. split; [done|]. intros ?. apply Hnext. lia.
      * destruct new as [|t1 new].
        -- simpl in *. right. destruct Hlast as [?|?]; [done|lia].
        -- rewrite last_cons_cons. cbn [List.filter app] in *.
           destruct (last (t1 :: new)) as [tl|] eqn:El.
           ++ destruct Hlast as [?|?]; [by left|right].
              destruct (allPassed t1); cbn [length] in *; lia.
           ++ by apply last_None in El.
    + apply IH in Hrun as (new & -> & -> & -> & _ & Hnil & _).
      rewrite (Hnil eq_refl). exists [t].
      rewrite <- (assoc_L (++)), fmap_cons, sumZ_cons, fmap_nil, sumZ_nil.
      cbn [List.filter app]. rewrite Hall. cbn [length].
      split; [done|]. split; [lia|]. split; [lia|]. split; [|split; [done|by left]].
      intros [|k] t0 Hlook; simpl in Hlook; [|done].
      injection Hlook as <-. rewrite Z.sub_0_r. split; [done|]. split; [done|].
      intros ?. lia.
Qed.



(** The sequence always comes back when the forced dice suffice: dice that
    never show a ten end every singlet at once, and three dice per triplet
    for at most [Z.to_nat pv] triplets are enough. *)
Lemma penetrationLoop_total fuel : ∀ av cur tot ts cont dice,
  (cont = true → Z.to_nat cur ≤ fuel ∧ 3 * Z.to_nat cur ≤ length dice)%nat →
  Forall (λ d, d ≠ 10) dice →
  is_Some (penetrationLoop fuel av cur tot ts cont dice).
Proof.
  induction fuel as [|fuel IH]; intros av cur tot ts cont dice Hc Hdice; simpl.
  - destruct cont; simpl; [|done].
    destruct (0 <? cur) eqn:E; [|done]. apply Z.ltb_lt in E.
    destruct Hc as [? _]; [done|lia].
  - destruct cont; simpl; [|done].
    destruct (0 <? cur) eqn:E; [|done]. apply Z.ltb_lt in E.
    destruct Hc as [Hf Hlen]; [done|].
    destruct dice as [|d1 [|d2 [|d3 dice]]]; simpl in Hlen; try lia.
    apply Forall_cons in Hdice as [H1 Hdice].
    apply Forall_cons in Hdice as [H2 Hdice].
    apply Forall_cons in Hdice as [H3 Hdice].
    unfold mbind at 1, rolling_bind at 1. unfold rollQudTriplet.
    unfold mbind at 1, rolling_bind at 1. rewrite rollQudSinglet_plain by done.
    unfold mbind at 1, rolling_bind at 1. rewrite rollQudSinglet_plain by done.
    unfold mbind at 1, rolling_bind at 1. rewrite rollQudSinglet_plain by done.
    unfold mret, rolling_ret.
    match goal with |- context [allPassed ?t] => destruct (allPassed t) end.
    + apply IH; [|done]. intros _. lia.
    + apply IH; [|done]. done.
Qed.

Lemma resolvePenetration_total pv av dice :
  Forall (λ d, d ≠ 10) dice →
  (3 * Z.to_nat pv ≤ length dice)%nat →
  is_Some (resolvePenetration pv av dice).
Proof.
  intros Hdice Hlen. unfold resolvePenetration.
  destruct (penetrationLoop_total (Z.to_nat pv) av pv 0 [] true dice)
    as [[[[cur tot] ts] rest] Hloop]; [by intros _| done |].
  unfold mbind, rolling_bind. rewrite Hloop. done.
Qed.

End DiceFacts.

(** ** Removing a body part *)

Section RemoveBodyPart.
Import BodyParts.

Implicit Types (m : gmap string BodyPart) (partId x : string).

Lemma forEachChild_Some visit (childIds : list string) out :
  forEachChild visit childIds = Some out →
  ∀ x, x ∈ out ↔ ∃ c pushed, c ∈ childIds ∧ visit c = Some pushed ∧ x ∈ pushed.
Proof.
  revert out. induction childIds as [|c cs IH]; intros out; simpl.
  - intros [= <-] x. split; [by intros ?%elem_of_nil|].
    by intros (c & ? & ?%elem_of_nil & _).
  - destruct (visit c) as [pushed|] eqn:Hc; [|done].
    destruct (forEachChild visit cs) as [after|]; [|done].
    intros [= <-] x. rewrite elem_of_app, (IH after eq_refl). split.
    + intros [Hx|(c' & pushed' & Hin & Hv & Hx)].
      * exists c, pushed. split; [left|]; done.
      * exists c', pushed'. split; [by right|]. done.
    + intros (c' & pushed' & Hin & Hv & Hx).
      apply elem_of_cons in Hin as [->|Hin].
      * left. congruence.
      * right. by exists c', pushed'.
Qed.

Lemma forEachChild_is_Some visit (childIds : list string) :
  (∀ c, c ∈ childIds → is_Some (visit c)) →
  is_Some (forEachChild visit childIds).
Proof.
  induction childIds as [|c cs IH]; intros Hall; simpl; [done|].
  destruct (Hall c) as [pushed ->]; [left|].
  destruct IH as [after ->]; [|done].
  intros c' Hc'. apply Hall. by right.
Qed.

(** What [collectDescendants] pushes is exactly the set of transitive
    descendants. *)
Lemma collectDescendants_descendantOf fuel : ∀ m partId ds,
  collectDescendants fuel m partId = Some ds →
  ∀ x, x ∈ ds ↔ descendantOf m partId x.
Proof.
  induction fuel as [|fuel IH]; intros m partId ds; simpl; [done|].
  destruct (m !! partId) as [p|] eqn:Hp.
  - intros Hout x. rewrite (forEachChild_Some _ _ _ Hout). split.
    + intros (c & pushed & Hin & Hv & Hx).
      destruct (collectDescendants fuel m c) as [below|] eqn:Hc; [|done].
      injection Hv as <-. apply elem_of_cons in Hx as [->|Hx].
      * apply tc_once. by exists p.
      * eapply tc_l; [by exists p|]. by apply (IH m c below).
    + intros Hd. assert (Hstep : ∃ c, c ∈ children p ∧ (x = c ∨ descendantOf m c x)).
      { inversion Hd as [? ? (p' & Hp' & Hin)|? c ? (p' & Hp' & Hin) Hrest]; subst;
          rewrite Hp in Hp'; injection Hp' as <-; eauto. }
      destruct Hstep as (c & Hin & Hx).
      assert (is_Some (collectDescendants fuel m c)) as [below Hc].
      { destruct (collectDescendants fuel m c) eqn:Hc; [done|].
        exfalso. clear -Hout Hin Hc. revert ds Hout.
        induction (children p) as [|c' cs IHcs]; intros ds; [by apply elem_of_nil in Hin|].
        simpl. apply elem_of_cons in Hin as [<-|Hin].
        - by rewrite Hc.
        - destruct (cons c' <$> collectDescendants fuel m c'); [|done].
          destruct (forEachChild _ cs) eqn:Hcs; [|done]. intros _.
          by eapply IHcs. }
      exists c, (c :: below). split; [done|]. rewrite Hc. split; [done|].
      destruct Hx as [->|Hx]; [left|right]. by apply (IH m c below).
  - intros [= <-] x. split; [by intros ?%elem_of_nil|].
    intros Hd. inversion Hd as [? ? (p' & Hp' & _)|? ? ? (p' & Hp' & _) _]; congruence.
Qed.

(** In an acyclic hierarchy the recursion comes back as soon as the stack
    allows for the rank of the part. *)
Lemma collectDescendants_total rank m :
  ranked rank m →
  ∀ fuel partId, (rank partId < fuel)%nat → is_Some (collectDescendants fuel m partId).
Proof.
  intros Hrank. induction fuel as [|fuel IH]; intros partId Hlt; [lia|]. simpl.
  destruct (m !! partId) as [p|] eqn:Hp; [|done].
  apply forEachChild_is_Some. intros c Hc.
  destruct (IH c) as [below ->]; [|done].
  pose proof (Hrank partId p Hp) as Hall. rewrite Forall_forall in Hall.
  specialize (Hall c Hc). lia.
Qed.

Lemma deleteAll_lookup (ids : list string) : ∀ m x,
  deleteAll ids m !! x = if bool_decide (x ∈ ids) then None else m !! x.
Proof.
  unfold deleteAll. induction ids as [|i ids IH]; intros m x; simpl; [done|].
  rewrite IH. destruct (decide (x = i)) as [->|Hne].
  - rewrite lookup_delete_eq, (bool_decide_eq_true_2 (i ∈ i :: ids)) by left.
    by destruct (bool_decide (i ∈ ids)).
  - rewrite lookup_delete_ne by done.
    destruct (decide (x ∈ ids)) as [Hin|Hnin].
    + by rewrite !bool_decide_eq_true_2 by (done || by right).
    + rewrite !bool_decide_eq_false_2; [done| |done].
      intros [->|?]%elem_of_cons; done.
Qed.

(** The body after the parent has been edited and before the parts are
    deleted. *)
Lemma detach_lookup m partId (part : BodyPart) x :
  (if JS.truthy_id (parent part) then
     match m !! default "" (parent part) with
     | Some parentPart =>
         <[default "" (parent part) := detached partId parentPart]> m
     | None => m
     end
   else m) !! x
  = if bool_decide (parent part = Some x ∧ x ≠ "")
    then detached partId <$> m !! x else m !! x.
Proof.
  destruct (parent part) as [s|]; simpl; [|done].
  destruct (String.eqb s "") eqn:Es; simpl.
  { apply String.eqb_eq in Es as ->.
    rewrite bool_decide_eq_false_2; [done|]. intros [[= <-] ?]. done. }
  apply String.eqb_neq in Es.
  destruct (decide (s = x)) as [->|Hne].
  - rewrite bool_decide_eq_true_2 by done.
    destruct (m !! x) as [pp|] eqn:Hx; simpl.
    + by rewrite lookup_insert_eq.
    + by rewrite Hx.
  - rewrite bool_decide_eq_false_2 by (intros [[= ?] _]; done).
    destruct (m !! s); [|done]. by rewrite lookup_insert_ne.
Qed.




End RemoveBodyPart.

(** ** Natural weapons *)

Section NaturalWeapons.
Import Data Actor.
Variable evalFormula : string → Z → Z.

(** C10.  A body part whose equipment field holds an item id makes
    [getNaturalWeapon] return null, whatever items the actor owns, whichever
    mutations are active and whatever the type of the equipped item.  (The
    field holds [null] or the id of an item; ids are not empty.) *)
Theorem getNaturalWeapon_equipped (this : Actor) (bodyPartId : string)
    (bodyPart : BodyParts.BodyPart) (itemId : string) :
  bodyParts (system this) !! bodyPartId = Some bodyPart →
  BodyParts.equipment bodyPart = Some itemId →
  itemId ≠ "" →
  getNaturalWeapon evalFormula this bodyPartId = None.
Proof.
  intros Hpart Heq Hid. unfold getNaturalWeapon. rewrite Hpart, Heq. simpl.
  apply String.eqb_neq in Hid. by rewrite Hid.
Qed.

End NaturalWeapons.

(** A witness of [getNaturalWeapon_equipped]: a head with active Horns that
    wears a helmet (an armor, not a weapon) has no natural weapon. *)
Lemma getNaturalWeapon_equipped_witness :
  Actor.getNaturalWeapon sampleEval
    (sampleActor [hornsItem; sampleArmor "helmet" 2 0]
       (sampleSystem helmetedBody 16 1 16 None)) "head" = None.
Proof.
  by apply (getNaturalWeapon_equipped sampleEval _ "head"
              (samplePart "head" "Head" None [] (Some "helmet")) "helmet").
Defined.

(** The same head without the helmet attacks with its horns. *)
Lemma getNaturalWeapon_bare_head :
  Actor.vw_name <$>
    Actor.getNaturalWeapon sampleEval
      (sampleActor [hornsItem; sampleArmor "helmet" 2 0]
         (sampleSystem bareHeadBody 16 1 16 None)) "head" = Some "Horns".
Proof. by vm_compute. Qed.

(** ** The steps of the pipeline *)

Section PipelineFrames.
Import Data Actor.

(** The steps of the pipeline other than [_calculateHP] leave the health
    record, the attributes and the level alone. *)
Lemma applyItemBonuses_frame evalFormula (s : SystemData) (item : Item) :
  let s' := applyItemBonuses evalFormula s item in
  health s' = health s ∧ attributes s' = attributes s ∧ level s' = level s
  ∧ combat s' = combat s ∧ bodyParts s' = bodyParts s.
Proof.
  unfold applyItemBonuses. destruct (negb (activeMutation item)); [done|].
  destruct (statBonuses (item_system item)) as [bonuses|]; [|done].
  destruct (bonusApplies (sb_carryCapacity bonuses)),
    (bonusApplies (sb_movementSpeed bonuses)),
    (bonusApplies (sb_quickness bonuses)); by destruct s.
Qed.

Lemma applyMutationBonuses_frame evalFormula (items : list Item) : ∀ s : SystemData,
  let s' := _applyMutationBonuses evalFormula items s in
  health s' = health s ∧ attributes s' = attributes s ∧ level s' = level s
  ∧ combat s' = combat s ∧ bodyParts s' = bodyParts s.
Proof.
  unfold _applyMutationBonuses.
  induction items as [|item items IH]; intros s; [done|]. simpl.
  destruct (IH (applyItemBonuses evalFormula s item)) as (-> & -> & -> & -> & ->).
  apply applyItemBonuses_frame.
Qed.

(** [_calculateHP] reads nothing but the attributes, the level and the
    health record. *)
Lemma calculateHP_reads (s s' : SystemData) :
  attributes s = attributes s' → level s = level s' → health s = health s' →
  health (_calculateHP s) = health (_calculateHP s').
Proof.
  intros Ha Hl Hh. unfold _calculateHP. rewrite Ha, Hl, Hh.
  destruct (level s' =? 1).
  - by destruct s, s'.
  - destruct (recalculateHistory _ _ _). by destruct s, s'.
Qed.

Lemma calculateHP_frame (s : SystemData) :
  let s' := _calculateHP s in
  attributes s' = attributes s ∧ combat s' = combat s ∧ bodyParts s' = bodyParts s.
Proof.
  unfold _calculateHP. destruct (level s =? 1).
  - by destruct s.
  - destruct (recalculateHistory _ _ _). by destruct s.
Qed.

(** The combat block and the health record of a run are those computed by
    [_calculateCombatStats] on the body left by [_calculateNaturalArmor]: no
    later step of the pipeline touches them. *)
Lemma prepareCharacterData_combatStats evalFormula (this : Actor) :
  let prepared :=
    _calculateNaturalArmor evalFormula (items this)
      (_calculateAttributeModifiers (system this)) in
  let after := system (_prepareCharacterData evalFormula this) in
  health after = health (_calculateCombatStats prepared.1 prepared.2)
  ∧ combat after = combat (_calculateCombatStats prepared.1 prepared.2).
Proof.
  unfold _prepareCharacterData, _calculateNaturalArmor.
  destruct this as [n t its sys]. cbn [system items set_system set_items fst snd].
  set (s0 := _calculateAttributeModifiers sys).
  set (its' := _ <$> its).
  set (parts := foldl (grantArmor evalFormula) _ its).
  unfold _calculateOffhandChances.
  destruct (applyMutationBonuses_frame evalFormula its'
              (_calculateCooldownReduction
                 (_calculateHPRegeneration
                    (_calculateSkillPoints
                       (_calculateCarryCapacity its'
                          (_calculateCombatStats its' (set_bodyParts parts s0)))))))
    as (Hh & _ & _ & Hc & _).
  unfold _calculateCooldownReduction, _calculateHPRegeneration,
    _calculateSkillPoints, _calculateCarryCapacity in *.
  destruct (_calculateCombatStats its' (set_bodyParts parts s0)).
  cbn in Hh, Hc. destruct (_applyMutationBonuses _ _ _). by split.
Qed.

(** Within the pipeline the ledger is recomputed by [_calculateHP] from the
    attribute modifiers of this very run, and no later step touches it. *)
Lemma prepareCharacterData_health evalFormula (this : Actor) :
  health (system (_prepareCharacterData evalFormula this))
  = health (_calculateHP (_calculateAttributeModifiers (system this))).
Proof.
  destruct (prepareCharacterData_combatStats evalFormula this) as [-> _].
  unfold _calculateNaturalArmor. cbn [fst snd].
  set (s0 := _calculateAttributeModifiers (system this)).
  set (its' := _ <$> items this).
  set (parts := foldl (grantArmor evalFormula) _ (items this)).
  unfold _calculateCombatStats, _applyEquipmentBonuses.
  destruct (equipmentTotals _ _).
  set (s1 := set_combat _ (set_bodyParts parts s0)).
  transitivity (health (_calculateHP s1)); [by destruct (_calculateHP s1)|].
  apply calculateHP_reads; subst s1; by destruct s0.
Qed.

End PipelineFrames.

(** ** Equipment averaging *)

Section EquipmentAveraging.
Import Data Actor.
Variable items : list Item.

(** What the inner loop pushes for a part is its two contributions. *)
Lemma partValues_contribution part :
  partValues items part = (armorContribution items part, dodgeContribution items part).
Proof.
  unfold partValues, armorContribution, dodgeContribution, equippedArmor.
  destruct (JS.truthy_id (BodyParts.equipment part)).
  - destruct (items_get items _) as [item|].
    + destruct (String.eqb (item_type item) "armor");
        destruct (BodyParts.naturalArmor part) as [natural|]; f_equal; try lia;
        destruct (BodyParts.av natural =? 0) eqn:E; lia.
    + destruct (BodyParts.naturalArmor part) as [natural|]; f_equal; try lia.
      destruct (BodyParts.av natural =? 0) eqn:E; lia.
  - destruct (BodyParts.naturalArmor part) as [natural|]; f_equal; try lia.
    destruct (BodyParts.av natural =? 0) eqn:E; lia.
Qed.

Lemma partsOfType_snoc t parts p :
  partsOfType t (parts ++ [p])
  = partsOfType t parts ++ (if String.eqb (BodyParts.type p) t then [p] else []).
Proof. unfold partsOfType. by rewrite List.filter_app. Qed.

Lemma partsOfType_nil t parts :
  t ∉ BodyParts.type <$> parts → partsOfType t parts = [].
Proof.
  induction parts as [|p parts IH]; [done|]. rewrite fmap_cons, not_elem_of_cons.
  intros [Hne Hnin]. unfold partsOfType. simpl.
  destruct (String.eqb_spec (BodyParts.type p) t); [congruence|]. by apply IH.
Qed.

Lemma partsOfType_not_nil t parts :
  t ∈ BodyParts.type <$> parts → partsOfType t parts ≠ [].
Proof.
  intros (p & -> & Hp)%list_elem_of_fmap Hnil.
  assert (Hin : In p (partsOfType (BodyParts.type p) parts)).
  { unfold partsOfType. apply filter_In. split; [by apply list_elem_of_In|].
    apply String.eqb_refl. }
  by rewrite Hnil in Hin.
Qed.

Lemma pushByType_absent G p :
  BodyParts.type p ∉ G.*1 → pushByType G p = G ++ [(BodyParts.type p, [p])].
Proof.
  induction G as [|[t ps] G IH]; simpl; [done|]. rewrite not_elem_of_cons.
  intros [Hne Hnin]. destruct (String.eqb_spec t (BodyParts.type p)); [congruence|].
  by rewrite IH.
Qed.

Lemma pushByType_present G p :
  BodyParts.type p ∈ G.*1 → NoDup G.*1 →
  pushByType G p
  = (λ g, (g.1, if String.eqb g.1 (BodyParts.type p) then g.2 ++ [p] else g.2)) <$> G.
Proof.
  induction G as [|[t ps] G IH]; simpl.
  - by intros ?%elem_of_nil.
  - intros Hin [Hnot Hnd]%NoDup_cons.
    destruct (String.eqb_spec t (BodyParts.type p)) as [->|Hne].
    + f_equal. clear IH Hin. induction G as [|[t' ps'] G IH]; [done|].
      simpl in *. apply not_elem_of_cons in Hnot as [Hne Hnot].
      apply NoDup_cons in Hnd as [_ Hnd].
      destruct (String.eqb_spec t' (BodyParts.type p)); [congruence|].
      f_equal. by apply IH.
    + f_equal. apply IH; [|done]. by apply elem_of_cons in Hin as [?|?].
Qed.

Lemma firsts_snoc l t :
  firsts (l ++ [t]) = if bool_decide (t ∈ firsts l) then firsts l else firsts l ++ [t].
Proof. unfold firsts. by rewrite foldl_snoc. Qed.

Lemma elem_of_firsts l x : x ∈ firsts l ↔ x ∈ l.
Proof.
  induction l as [|t l IH] using rev_ind; [done|]. rewrite firsts_snoc.
  case_bool_decide as Ht; rewrite !elem_of_app, IH, list_elem_of_singleton.
  - split; [by left|]. intros [?| ->]; [done|]. by apply IH.
  - done.
Qed.

Lemma NoDup_firsts l : NoDup (firsts l).
Proof.
  induction l as [|t l IH] using rev_ind; [constructor|]. rewrite firsts_snoc.
  case_bool_decide as Ht; [done|]. apply NoDup_app. split; [done|].
  split; [|apply NoDup_singleton].
  intros x Hx ->%list_elem_of_singleton. done.
Qed.

(** The object [partsByType] holds, for every type present and in order of
    first occurrence, the parts of that type. *)
Lemma partsByType_groups parts :
  foldl pushByType [] parts
  = (λ t, (t, partsOfType t parts)) <$> firsts (BodyParts.type <$> parts).
Proof.
  induction parts as [|p parts IH] using rev_ind; [done|].
  rewrite foldl_snoc, IH, fmap_snoc, firsts_snoc.
  assert (Hkeys : ((λ t, (t, partsOfType t parts)) <$> firsts (BodyParts.type <$> parts)).*1
                  = firsts (BodyParts.type <$> parts)).
  { rewrite <- list_fmap_compose. apply list_fmap_id. }
  case_bool_decide as Hp.
  - rewrite pushByType_present by (rewrite Hkeys; (done || apply NoDup_firsts)).
    rewrite <- list_fmap_compose. apply list_fmap_ext. intros i t _. simpl.
    rewrite partsOfType_snoc, (String.eqb_sym (BodyParts.type p) t).
    destruct (String.eqb t (BodyParts.type p)); [done|by rewrite app_nil_r].
  - rewrite pushByType_absent by (by rewrite Hkeys).
    rewrite fmap_snoc. f_equal.
    + apply list_fmap_ext. intros i t Hi. rewrite partsOfType_snoc.
      destruct (String.eqb_spec (BodyParts.type p) t) as [<-|_];
        [|by rewrite app_nil_r].
      exfalso. apply Hp. apply list_elem_of_lookup. eauto.
    + rewrite partsOfType_snoc, String.eqb_refl, partsOfType_nil; [done|].
      by rewrite <- elem_of_firsts.
Qed.

Lemma sumQ_Permutation (l l' : list Q) : l ≡ₚ l' → (sumQ l == sumQ l')%Q.
Proof.
  induction 1 as [|x l l' _ IH|x y l|l l' l'' _ IH1 _ IH2]; simpl.
  - reflexivity.
  - by rewrite IH.
  - ring.
  - by rewrite IH1.
Qed.

(** The average of the values pushed for a group is the group average of
    the contributions. *)
Lemma average_group (f : BodyParts.BodyPart → Z) t parts :
  JS.average (f <$> partsOfType t parts) = groupAverage f t parts.
Proof.
  unfold JS.average, groupAverage. by rewrite sumZ_foldr, length_fmap.
Qed.

(** The loop over the groups adds up the group averages. *)
Lemma addGroup_totals parts (ts : list string) :
  (∀ t, t ∈ ts → partsOfType t parts ≠ []) →
  ∀ totalAV totalDV,
    let totals := foldl (addGroup items) (totalAV, totalDV)
                    ((λ t, (t, partsOfType t parts)) <$> ts) in
    (totals.1 == totalAV
                 + sumQ ((λ t, groupAverage (armorContribution items) t parts) <$> ts))%Q
    ∧ (totals.2 == totalDV
                   + sumQ ((λ t, groupAverage (dodgeContribution items) t parts) <$> ts))%Q.
Proof.
  induction ts as [|t ts IH]; intros Hne totalAV totalDV; simpl.
  - split; ring.
  - assert (Hlen : (length (partsOfType t parts) =? 0)%nat = false).
    { apply Nat.eqb_neq. intros Hl. apply (Hne t); [left|].
      by apply nil_length_inv. }
    unfold addGroup at 2. cbn [snd]. rewrite Hlen, length_fmap.
    replace (0 <? length (partsOfType t parts))%nat with true
      by (symmetry; apply Nat.ltb_lt; apply Nat.eqb_neq in Hlen; lia).
    rewrite (list_fmap_ext (λ part, (partValues items part).1) (armorContribution items))
      by (intros; by rewrite partValues_contribution).
    rewrite (list_fmap_ext (λ part, (partValues items part).2) (dodgeContribution items))
      by (intros; by rewrite partValues_contribution).
    rewrite !average_group.
    destruct (IH (λ t' Ht', Hne t' (list_elem_of_further _ _ _ Ht'))
                (totalAV + groupAverage (armorContribution items) t parts)%Q
                (totalDV + groupAverage (dodgeContribution items) t parts)%Q)
      as [Hav Hdv].
    simpl in Hav, Hdv. rewrite Hav, Hdv. split; symmetry; apply Qplus_assoc.
Qed.

Lemma partsOfType_Permutation t parts parts' :
  parts ≡ₚ parts' → partsOfType t parts ≡ₚ partsOfType t parts'.
Proof.
  unfold partsOfType.
  induction 1 as [|p l l' _ IH|p q l|l l' l'' _ IH1 _ IH2]; simpl.
  - done.
  - destruct (String.eqb _ _); by rewrite IH.
  - destruct (String.eqb (BodyParts.type p) t), (String.eqb (BodyParts.type q) t);
      (done || apply perm_swap).
  - by rewrite IH1.
Qed.

Lemma foldr_add_Permutation (l l' : list Z) :
  l ≡ₚ l' → foldr Z.add 0 l = foldr Z.add 0 l'.
Proof.
  induction 1 as [|x l l' _ IH|x y l|l l' l'' _ IH1 _ IH2]; simpl; lia.
Qed.

(** The summed averages do not depend on the order in which the parts are
    enumerated. *)
Lemma summedAverages_Permutation (f : BodyParts.BodyPart → Z) parts parts' :
  parts ≡ₚ parts' → (summedAverages f parts == summedAverages f parts')%Q.
Proof.
  intros Hperm. unfold summedAverages, typesPresent.
  assert (Hgroup : ∀ t, groupAverage f t parts = groupAverage f t parts').
  { intros t. unfold groupAverage.
    pose proof (partsOfType_Permutation t parts parts' Hperm) as Ht.
    by rewrite (foldr_add_Permutation _ _ (fmap_Permutation f _ _ Ht)),
      (Permutation_length Ht). }
  rewrite (list_fmap_ext (λ t, groupAverage f t parts) (λ t, groupAverage f t parts'))
    by done.
  apply sumQ_Permutation, fmap_Permutation.
  apply NoDup_Permutation; [apply NoDup_remove_dups|apply NoDup_remove_dups|].
  intros t. by rewrite !elem_of_remove_dups, Hperm.
Qed.

(** The totals of the code are the summed group averages of the
    specification. *)
Lemma equipmentTotals_summedAverages (bodyParts : gmap string BodyParts.BodyPart) :
  let parts := BodyParts.values bodyParts in
  ((equipmentTotals items bodyParts).1 == summedAverages (armorContribution items) parts)%Q
  ∧ ((equipmentTotals items bodyParts).2
     == summedAverages (dodgeContribution items) parts)%Q.
Proof.
  intros parts. unfold equipmentTotals. fold parts. rewrite partsByType_groups.
  destruct (addGroup_totals parts (firsts (BodyParts.type <$> parts))
              (λ t Ht, partsOfType_not_nil t parts (proj1 (elem_of_firsts _ t) Ht))
              0%Q 0%Q) as [Hav Hdv].
  simpl in Hav, Hdv. rewrite Hav, Hdv. unfold summedAverages, typesPresent.
  assert (Hperm : firsts (BodyParts.type <$> parts)
                  ≡ₚ remove_dups (BodyParts.type <$> parts)).
  { apply NoDup_Permutation; [apply NoDup_firsts|apply NoDup_remove_dups|].
    intros t. by rewrite elem_of_firsts, elem_of_remove_dups. }
  split.
  - rewrite Qplus_0_l. apply sumQ_Permutation. by apply fmap_Permutation.
  - rewrite Qplus_0_l. apply sumQ_Permutation. by apply fmap_Permutation.
Qed.


End EquipmentAveraging.

(** Within the pipeline: the armor value of a run is the floor of the summed
    averages over the body as [_calculateNaturalArmor] leaves it, and the
    dodge value is 6 plus the agility modifier plus the floored dodge
    bonus. *)
Lemma prepareCharacterData_armor evalFormula (this : Data.Actor) :
  let prepared :=
    Actor._calculateNaturalArmor evalFormula (Data.items this)
      (Actor._calculateAttributeModifiers (Data.system this)) in
  let parts := BodyParts.values (Data.bodyParts prepared.2) in
  let after := Data.system (Actor._prepareCharacterData evalFormula this) in
  Data.av (Data.combat after)
  = Qfloor (summedAverages (armorContribution prepared.1) parts)
  ∧ Data.dv (Data.combat after)
    = 6 + JS.floorDiv (Data.attr_value (Data.agility (Data.attributes (Data.system this)))
                       - 16) 2
      + Qfloor (summedAverages (dodgeContribution prepared.1) parts).
Proof.
  intros prepared parts after.
  destruct (prepareCharacterData_combatStats evalFormula this) as [_ Hcombat].
  fold prepared after in Hcombat. rewrite Hcombat.
  unfold Actor._calculateCombatStats, Actor._applyEquipmentBonuses.
  set (s1 := Data.set_combat _ prepared.2).
  destruct (calculateHP_frame s1) as (Hattr & Hc & Hbody).
  destruct (equipmentTotals_summedAverages prepared.1
              (Data.bodyParts (Actor._calculateHP s1))) as [Hav Hdv].
  destruct (Actor.equipmentTotals _ _) as [totalAV totalDV].
  simpl in Hav, Hdv.
  assert (Hparts : BodyParts.values (Data.bodyParts (Actor._calculateHP s1)) = parts).
  { rewrite Hbody. subst s1 parts. by destruct (prepared.2). }
  rewrite Hparts in Hav, Hdv.
  assert (Hdv0 : Data.dv (Data.combat (Actor._calculateHP s1))
                 = 6 + JS.floorDiv
                         (Data.attr_value
                            (Data.agility (Data.attributes (Data.system this))) - 16) 2).
  { rewrite Hc. subst s1 prepared. unfold Actor._calculateNaturalArmor. cbn [snd].
    unfold Actor._calculateAttributeModifiers. by destruct (Data.system this). }
  destruct (Actor._calculateHP s1) eqn:Hs. simpl in *.
  split; [by rewrite Hav|]. rewrite Hdv, Hdv0. done.
Qed.

(** ** The hit-point ledger *)

Section HitPoints.
Import Data Actor.

Lemma recalculateHistory_spec toughMod (entries : list HpEntry) : ∀ calculatedMax,
  recalculateHistory toughMod entries calculatedMax
  = (rewritten toughMod <$> entries,
     calculatedMax + JS.sumZ ((λ entry, roll entry + toughMod) <$> entries)).
Proof.
  induction entries as [|entry entries IH]; intros calculatedMax.
  - rewrite !fmap_nil, sumZ_nil. simpl. f_equal. lia.
  - cbn [recalculateHistory]. rewrite IH, !fmap_cons, sumZ_cons.
    unfold rewritten at 2. f_equal. lia.
Qed.

(** C5.  At level 2 or more, [_calculateHP] keeps the level-1 entry, rewrites
    every later ledger entry to modifier = current toughness modifier and
    total = stored roll + current toughness modifier with level and roll
    untouched, sets max HP to the toughness value plus the sum of the
    rewritten totals, and lowers current HP to max HP when it exceeds it. *)
Theorem calculateHP_ledger (systemData : SystemData) :
  2 ≤ level systemData →
  let toughValue := attr_value (toughness (attributes systemData)) in
  let toughMod := attr_mod (toughness (attributes systemData)) in
  let ledger := default [] (hpHistory (health systemData)) in
  let after := _calculateHP systemData in
  let ledger' := default [] (hpHistory (health after)) in
  length ledger' = length ledger
  ∧ ledger' !! 0%nat = ledger !! 0%nat
  ∧ (∀ (i : nat) entry, (1 ≤ i)%nat → ledger !! i = Some entry →
       ledger' !! i = Some {| hp_level := hp_level entry; roll := roll entry;
                              modifier := toughMod;
                              hp_total := roll entry + toughMod |})
  ∧ health_max (health after) = toughValue + JS.sumZ (hp_total <$> drop 1 ledger')
  ∧ health_value (health after)
    = (if health_max (health after) <? health_value (health systemData)
       then health_max (health after) else health_value (health systemData))
  ∧ health_value (health after) ≤ health_max (health after).
Proof.
  intros Hlevel toughValue toughMod ledger after ledger'.
  assert (Hafter : health after
                   = {| health_value :=
                          if toughValue + JS.sumZ ((λ e, roll e + toughMod) <$> drop 1 ledger)
                             <? health_value (health systemData)
                          then toughValue
                               + JS.sumZ ((λ e, roll e + toughMod) <$> drop 1 ledger)
                          else health_value (health systemData);
                        health_max :=
                          toughValue + JS.sumZ ((λ e, roll e + toughMod) <$> drop 1 ledger);
                        hpHistory := Some (take 1 ledger
                                           ++ (rewritten toughMod <$> drop 1 ledger)) |}).
  { subst after. unfold _calculateHP.
    destruct (level systemData =? 1) eqn:E; [lia|].
    fold toughValue toughMod ledger. rewrite recalculateHistory_spec.
    by destruct systemData. }
  assert (Hledger : ledger' = take 1 ledger ++ (rewritten toughMod <$> drop 1 ledger)).
  { subst ledger'. by rewrite Hafter. }
  rewrite Hafter, Hledger. simpl. clear Hafter Hledger after ledger'.
  split; [|split; [|split; [|split; [|split]]]].
  - rewrite length_app, length_fmap, <- length_app, take_drop. done.
  - by destruct ledger.
  - intros i entry Hi Hentry. destruct ledger as [|first ledger]; [done|].
    destruct i as [|i]; [lia|]. simpl in *. rewrite drop_0, list_lookup_fmap, Hentry.
    done.
  - f_equal. f_equal. destruct ledger as [|first ledger]; [done|]. simpl.
    rewrite !drop_0. rewrite <- list_fmap_compose. done.
  - done.
  - case_match; lia.
Qed.

(** A witness of [calculateHP_ledger]: with the roll of 3 taken at level 2,
    toughness 18 (modifier +1) gives the entry a total of 4, and toughness 20
    (modifier +2) gives the same entry, roll untouched, a total of 5; 30
    current hit points are lowered to the maximum. *)
Lemma calculateHP_ledger_witness :
  let s18 := _calculateAttributeModifiers (sampleSystem ∅ 18 2 30 (Some sampleLedger)) in
  let s20 := _calculateAttributeModifiers (sampleSystem ∅ 20 2 30 (Some sampleLedger)) in
  2 ≤ level s18
  ∧ default [] (hpHistory (health (_calculateHP s18))) !! 1%nat
    = Some {| hp_level := 2; roll := 3; modifier := 1; hp_total := 4 |}
  ∧ default [] (hpHistory (health (_calculateHP s20))) !! 1%nat
    = Some {| hp_level := 2; roll := 3; modifier := 2; hp_total := 5 |}
  ∧ health_value (health (_calculateHP s18)) ≤ health_max (health (_calculateHP s18)).
Proof.
  intros s18 s20. assert (H2 : 2 ≤ level s18) by (vm_compute; discriminate).
  split; [exact H2|].
  destruct (calculateHP_ledger s18 H2) as (_ & _ & Hi & _ & _ & Hle).
  destruct (calculateHP_ledger s20 H2) as (_ & _ & Hi' & _).
  split; [exact (Hi 1%nat _ (le_n 1) eq_refl)|].
  split; [exact (Hi' 1%nat _ (le_n 1) eq_refl)|exact Hle].
Defined.

(** The ledger of the specification's example.  Levelling from 1 to 2 at
    toughness 18 (modifier +1) with a roll of 3 records a total of 4, and max
    HP is the level-1 value plus 4; when toughness is then raised to 20
    (modifier +2) the next recomputation rewrites the entry to total
    3 + 2 = 5 with the stored roll unchanged, and max HP follows. *)
Lemma ledger_example :
  let fresh := _prepareCharacterData sampleEval
                 (sampleActor [] (sampleSystem ∅ 18 1 18 None)) in
  ∃ levelled hpGain,
    levelUp fresh [3] = Some (levelled, hpGain, [])
    ∧ hpGain = 4
    ∧ let second := _prepareCharacterData sampleEval levelled in
      default [] (hpHistory (health (system second))) !! 1%nat
      = Some {| hp_level := 2; roll := 3; modifier := 1; hp_total := 4 |}
      ∧ health_max (health (system second)) = 18 + 4
      ∧ let tougher :=
          set_system
            (set_attributes
               {| strength := strength (attributes (system second));
                  agility := agility (attributes (system second));
                  toughness := {| attr_value := 20; attr_mod := 1 |};
                  intelligence := intelligence (attributes (system second));
                  willpower := willpower (attributes (system second));
                  ego := ego (attributes (system second)) |} (system second))
            second in
        let third := _prepareCharacterData sampleEval tougher in
        default [] (hpHistory (health (system third))) !! 1%nat
        = Some {| hp_level := 2; roll := 3; modifier := 2; hp_total := 5 |}
        ∧ health_max (health (system third)) = 20 + 5.
Proof. eexists _, _. split; [reflexivity|]. by vm_compute. Qed.

End HitPoints.

(** ** Structural mutations *)

Section StructuralMutations.
Import Data Mutation.

Implicit Types (bp : gmap string BodyParts.BodyPart) (modification : BodyModification).

Lemma replaceParts_lookup modification bp partId :
  (replaceParts modification bp).1 !! partId
  = (λ part, if String.eqb (BodyParts.type part) (targetType modification)
             then replaced modification part else part) <$> bp !! partId.
Proof.
  unfold replaceParts, replaced. cbn [fst]. rewrite lookup_fmap.
  destruct (bp !! partId) as [part|]; [|done]. simpl.
  by destruct (String.eqb _ _), (preserveEquipment modification).
Qed.

Lemma replaceParts_ids modification bp partId :
  partId ∈ (replaceParts modification bp).2
  ↔ ∃ part, bp !! partId = Some part ∧ BodyParts.type part = targetType modification.
Proof.
  unfold replaceParts, BodyParts.entries. cbn [snd]. rewrite list_elem_of_fmap. split.
  - intros ([k part] & -> & Hin). apply list_elem_of_In, filter_In in Hin as [Hin Ht].
    apply list_elem_of_In, elem_of_map_to_list in Hin. simpl in *.
    apply String.eqb_eq in Ht. by exists part.
  - intros (part & Hpart & Ht). exists (partId, part). split; [done|].
    apply list_elem_of_In, filter_In. split.
    + by apply list_elem_of_In, elem_of_map_to_list.
    + simpl. by apply String.eqb_eq.
Qed.

Lemma restoreParts_lookup modification addedParts bp partId :
  (restoreParts modification addedParts bp).1 !! partId
  = (λ part, if String.eqb (BodyParts.type part) (newType modification)
                && bool_decide (partId ∈ addedParts)
             then BodyParts.set_type (targetType modification) part else part)
    <$> bp !! partId.
Proof.
  unfold restoreParts. cbn [fst]. rewrite map_lookup_imap.
  by destruct (bp !! partId).
Qed.

Lemma set_type_replaced modification (part : BodyParts.BodyPart) :
  BodyParts.type part = targetType modification →
  BodyParts.set_type (targetType modification) (replaced modification part)
  = afterRoundTrip modification part.
Proof.
  intros Ht. unfold replaced, afterRoundTrip. rewrite Ht, String.eqb_refl.
  destruct (preserveEquipment modification), part; simpl in *; by subst.
Qed.

(** C8.  For a mutation whose only body modification replaces Hand by
    BurrowingClaw, applying it and then removing it generates no id, keeps
    the set of part ids, and gives every part back as it was (type Hand
    restored on exactly the ids that were retyped), except that a retyped
    part has lost its equipment when the modification does not preserve
    equipment; so every equipment reference left sits on a part that exists
    and held that very item before. *)
Theorem applyMutation_removeMutation_claws (this : Actor) (item : Item)
    (preserve : bool) (world : BodyParts.World) (fuel : nat) :
  item_type item = "mutation" →
  bodyModifications (item_system item) = Some [clawModification preserve] →
  ∃ applied item1 ids restored item2 ids',
    applyMutation this (Some item) world = Some (applied, Some item1, ids, world)
    ∧ removeMutation fuel applied (Some item1) = Some (restored, Some item2, ids')
    ∧ (∀ partId, partId ∈ ids ↔
         ∃ part, bodyParts (system this) !! partId = Some part
                 ∧ BodyParts.type part = "Hand")
    ∧ (∀ partId, partId ∈ ids' ↔ partId ∈ ids)
    ∧ (∀ partId, partId ∈ ids →
         BodyParts.type <$> bodyParts (system applied) !! partId = Some "BurrowingClaw")
    ∧ dom (bodyParts (system applied)) = dom (bodyParts (system this))
    ∧ dom (bodyParts (system restored)) = dom (bodyParts (system this))
    ∧ (∀ partId,
         bodyParts (system restored) !! partId
         = afterRoundTrip (clawModification preserve)
             <$> bodyParts (system this) !! partId)
    ∧ (∀ partId part' itemId,
         bodyParts (system restored) !! partId = Some part' →
         BodyParts.equipment part' = Some itemId →
         ∃ part, bodyParts (system this) !! partId = Some part
                 ∧ BodyParts.equipment part = Some itemId
                 ∧ BodyParts.type part' = BodyParts.type part).
Proof.
  intros Htype Hmods.
  set (modification := clawModification preserve).
  set (bp := bodyParts (system this)).
  set (bp1 := (replaceParts modification bp).1).
  set (ids := (replaceParts modification bp).2).
  set (bp2 := (restoreParts modification ids bp1).1).
  set (ids' := (restoreParts modification ids bp1).2).
  assert (Hids : ∀ partId, partId ∈ ids ↔
            ∃ part, bp !! partId = Some part ∧ BodyParts.type part = "Hand").
  { intros partId. apply (replaceParts_ids modification). }
  assert (Hbp1 : ∀ partId, bp1 !! partId
            = (λ part, if String.eqb (BodyParts.type part) "Hand"
                       then replaced modification part else part) <$> bp !! partId).
  { intros partId. apply (replaceParts_lookup modification). }
  assert (Hbp2 : ∀ partId, bp2 !! partId = afterRoundTrip modification <$> bp !! partId).
  { intros partId. subst bp2. rewrite restoreParts_lookup, Hbp1.
    destruct (bp !! partId) as [part|] eqn:Hpart; [|done]. simpl. f_equal.
    destruct (String.eqb_spec (BodyParts.type part) "Hand") as [Hhand|Hother].
    - assert (Hnew : BodyParts.type (replaced modification part) = "BurrowingClaw").
      { unfold replaced. simpl. by destruct preserve, part. }
      rewrite Hnew. simpl. rewrite bool_decide_eq_true_2 by (apply Hids; eauto).
      by apply (set_type_replaced modification).
    - unfold afterRoundTrip. simpl.
      replace (String.eqb (BodyParts.type part) "Hand") with false
        by (symmetry; by apply String.eqb_neq).
      simpl. rewrite bool_decide_eq_false_2; [by rewrite andb_false_r|].
      intros (part' & Hpart' & Hhand)%Hids. congruence. }
  exists (set_items
            (items_update
               (set_item_system (set_tracking ids true (item_system item)) item)
               (items this))
            (update_bodyParts bp1 this)).
  exists (set_item_system (set_tracking ids true (item_system item)) item).
  exists ids.
  exists (set_items
            (items_update
               (set_item_system (set_tracking [] false (item_system item)) item)
               (items_update
                  (set_item_system (set_tracking ids true (item_system item)) item)
                  (items this)))
            (update_bodyParts bp2 this)).
  exists (set_item_system (set_tracking [] false (item_system item)) item).
  exists ids'.
  split; [|split; [|split; [exact Hids|split; [|split; [|split; [|split; [|split]]]]]]].
  - unfold applyMutation. rewrite Htype, Hmods. simpl.
    unfold mbind, BodyParts.eff_bind, mret, BodyParts.eff_ret. simpl.
    destruct this as [n t its sys]; destruct sys; reflexivity.
  - unfold removeMutation. destruct item as [iid iname itype isys].
    simpl in Htype, Hmods. subst itype. destruct isys. simpl in Hmods. subst.
    simpl. destruct this as [n t its sys]; destruct sys; reflexivity.
  - intros partId. subst ids'. unfold restoreParts, BodyParts.entries. cbn [snd].
    rewrite list_elem_of_fmap. split.
    + intros ([k part] & -> & Hin). apply list_elem_of_In, filter_In in Hin as [_ Hin].
      simpl in Hin. apply andb_true_iff in Hin as [_ Hin].
      by apply bool_decide_eq_true in Hin.
    + intros Hin. pose proof Hin as (part & Hpart & Hhand)%Hids.
      exists (partId, replaced modification part). split; [done|].
      apply list_elem_of_In, filter_In. split.
      * apply list_elem_of_In, elem_of_map_to_list. rewrite Hbp1, Hpart. simpl.
        by rewrite Hhand.
      * simpl. rewrite bool_decide_eq_true_2 by done.
        unfold replaced. simpl. by destruct preserve, part.
  - intros partId (part & Hpart & Hhand)%Hids.
    destruct this as [n t its sys]; destruct sys; simpl in *.
    rewrite Hbp1, Hpart. simpl. rewrite Hhand. simpl.
    unfold replaced. simpl. by destruct preserve, part.
  - destruct this as [n t its sys]; destruct sys; simpl in *.
    apply set_eq. intros partId. rewrite !elem_of_dom, Hbp1.
    by rewrite fmap_is_Some.
  - destruct this as [n t its sys]; destruct sys; simpl in *.
    apply set_eq. intros partId. rewrite !elem_of_dom, Hbp2.
    by rewrite fmap_is_Some.
  - intros partId. destruct this as [n t its sys]; destruct sys; simpl in *.
    apply Hbp2.
  - intros partId part' itemId Hpart' Heq.
    destruct this as [n t its sys]; destruct sys; simpl in *.
    rewrite Hbp2 in Hpart'. destruct (bp !! partId) as [part|]; [|done].
    injection Hpart' as <-. exists part. split; [done|].
    unfold afterRoundTrip in *. destruct (_ && _); [done|]. done.
Qed.

(** A witness of [applyMutation_removeMutation_claws]: on the sample body,
    whose hand holds a sword, the round trip retypes the hand and gives it
    back as it was. *)
Lemma applyMutation_removeMutation_claws_witness :
  ∃ applied item1 ids restored item2 ids',
    applyMutation (sampleActor [clawsItem true] (sampleSystem sampleBody 16 1 16 None))
      (Some (clawsItem true)) sampleWorld
    = Some (applied, Some item1, ids, sampleWorld)
    ∧ removeMutation 0 applied (Some item1) = Some (restored, Some item2, ids')
    ∧ "hand" ∈ ids ∧ "hand" ∈ ids'
    ∧ BodyParts.type <$> bodyParts (system applied) !! "hand" = Some "BurrowingClaw"
    ∧ bodyParts (system restored) !! "hand" = sampleBody !! "hand"
    ∧ dom (bodyParts (system restored)) = dom sampleBody.
Proof.
  destruct (applyMutation_removeMutation_claws
              (sampleActor [clawsItem true] (sampleSystem sampleBody 16 1 16 None))
              (clawsItem true) true sampleWorld 0 eq_refl eq_refl)
    as (applied & item1 & ids & restored & item2 & ids' & Happly & Hremove
        & Hids & Hids' & Hclaw & _ & Hdom & Hback & _).
  exists applied, item1, ids, restored, item2, ids'.
  split; [exact Happly|]. split; [exact Hremove|].
  assert (Hin : "hand" ∈ ids).
  { apply Hids. eexists. split; [by vm_compute|reflexivity]. }
  split; [exact Hin|]. split; [by apply Hids'|].
  split; [exact (Hclaw _ Hin)|]. split; [|exact Hdom].
  rewrite Hback. by vm_compute.
Defined.








End StructuralMutations.

(** ** Recomputing the derived stats twice *)

Section Recomputation.
Import Data Actor.
Variable evalFormula : string → Z → Z.

(** C6 on the code.  For a character with one active mutation that grants
    +20 carry capacity, +10 movement speed and +5 quickness, the first run of
    the pipeline yields carry capacity 260, speed bonus 10 and quickness
    bonus 5; a second run on its result, with nothing changed in between,
    yields the same carry capacity but speed bonus 20 and quickness bonus 10:
    [movement] and [quickness] are created when absent and never reset, so
    every run adds the bonuses again. *)
Theorem prepareCharacterData_twice_accumulates :
  let this := sampleActor [swiftItem] (sampleSystem sampleBody 16 1 16 None) in
  let once := _prepareCharacterData evalFormula this in
  let twice := _prepareCharacterData evalFormula once in
  cc_max (carryCapacity (system once)) = 260
  ∧ cc_max (carryCapacity (system twice)) = 260
  ∧ movement (system once) = Some {| speedBonus := 10 |}
  ∧ movement (system twice) = Some {| speedBonus := 20 |}
  ∧ quickness (system once) = Some {| bonus := 5 |}
  ∧ quickness (system twice) = Some {| bonus := 10 |}
  ∧ items twice = items once
  ∧ system twice ≠ system once.
Proof.
  intros this once twice.
  do 7 (split; [vm_compute; reflexivity|]).
  intros Heq. apply (f_equal movement) in Heq. vm_compute in Heq. discriminate.
Qed.

End Recomputation.

(** * Further properties of the code *)

(** ** The dice of a singlet and the length of a penetration sequence *)

Section DiceShape.
Import Dice.

(** The die record the loop pushes for a raw face. *)
Lemma singletLoop_shape dice : ∀ total rolls total' rolls' rest,
  singletLoop total rolls dice = Some (total', rolls', rest) →
  ∃ (k : nat) d,
    dice = replicate k 10 ++ d :: rest ∧ d ≠ 10
    ∧ total' = total + 8 * Z.of_nat k + (d - 2)
    ∧ rolls' = rolls ++ (dieRoll <$> replicate k 10 ++ [d]).
Proof.
  induction dice as [|d dice IH]; intros total rolls total' rolls' rest; simpl; [done|].
  destruct (d - 2 =? 8) eqn:E.
  - apply Z.eqb_eq in E. assert (d = 10) as -> by lia.
    intros (k & d' & -> & Hd' & -> & ->)%IH.
    exists (S k), d'. split; [done|]. split; [done|]. split; [lia|].
    rewrite <- (assoc_L (++)). done.
  - apply Z.eqb_neq in E. intros [= <- <- <-].
    exists 0%nat, d. split; [done|]. split; [lia|]. split; [lia|]. done.
Qed.

Lemma sumZ_app l1 l2 : JS.sumZ (l1 ++ l2) = JS.sumZ l1 + JS.sumZ l2.
Proof.
  induction l1 as [|x l1 IH]; simpl.
  - rewrite sumZ_nil. lia.
  - rewrite !sumZ_cons, IH. lia.
Qed.

Lemma sumZ_replicate (k : nat) x : JS.sumZ (replicate k x) = Z.of_nat k * x.
Proof.
  induction k as [|k IH]; [done|].
  cbn [replicate]. rewrite sumZ_cons, IH. lia.
Qed.

(** X1.  A singlet that returns has consumed exactly its explosion chain
    from the front of the forced dice: a run of raw tens closed by one face
    that is not a ten.  Its rolls are these faces with 2 subtracted, its
    total is the sum of the chain minus 2 per die (so total + 2 x the number
    of rolls, the sum the combat message prints, is the sum of the raw
    faces), and it counts as exploded iff the first die was a ten. *)
Theorem rollQudSinglet_chain dice s rest :
  rollQudSinglet dice = Some (s, rest) →
  dice = explosionChain s ++ rest
  ∧ (∃ (k : nat) d, explosionChain s = replicate k 10 ++ [d] ∧ d ≠ 10)
  ∧ rolls s = dieRoll <$> explosionChain s
  ∧ total s = JS.sumZ (explosionChain s) - 2 * Z.of_nat (length (explosionChain s))
  ∧ (exploded s = true ↔ head dice = Some 10).
Proof.
  unfold rollQudSinglet.
  destruct (singletLoop 0 [] dice) as [[[total' rolls'] rest']|] eqn:Hloop; [|done].
  intros [= <- <-]. cbn [explosionChain rolls total exploded].
  apply singletLoop_shape in Hloop as (k & d & -> & Hd & -> & ->).
  rewrite app_nil_l.
  assert (Hraw : raw <$> (dieRoll <$> replicate k 10 ++ [d]) = replicate k 10 ++ [d]).
  { rewrite <- list_fmap_compose. apply list_fmap_id. }
  rewrite Hraw. split.
  { by rewrite <- (assoc_L (++)). }
  split; [by exists k, d|]. split; [done|]. split.
  - rewrite sumZ_app, sumZ_replicate, sumZ_cons, sumZ_nil.
    rewrite length_app, length_replicate. simpl. lia.
  - rewrite length_fmap, length_app, length_replicate. simpl.
    destruct k as [|k]; simpl.
    + split; [done|]. intros [= ->]. done.
    + split; [done|]. intros _. apply Nat.ltb_lt. lia.
Qed.

(** A witness of [rollQudSinglet_chain]: two tens, a three, and a die that
    is left over. *)
Lemma rollQudSinglet_chain_witness :
  ∃ s, rollQudSinglet [10; 10; 3; 7] = Some (s, [7])
       ∧ total s = JS.sumZ (explosionChain s) - 2 * Z.of_nat (length (explosionChain s))
       ∧ explosionChain s = [10; 10; 3].
Proof.
  eexists. split; [reflexivity|].
  split; [|reflexivity].
  apply (rollQudSinglet_chain [10; 10; 3; 7] _ [7]). reflexivity.
Defined.

Lemma singletLoop_is_Some dice : ∀ total rolls,
  is_Some (singletLoop total rolls dice) ↔ ∃ d, d ∈ dice ∧ d ≠ 10.
Proof.
  induction dice as [|d dice IH]; intros total rolls; simpl.
  - split; [by intros [? ?]|]. by intros (d & ?%elem_of_nil & _).
  - destruct (d - 2 =? 8) eqn:E.
    + apply Z.eqb_eq in E. rewrite IH. split.
      * intros (d' & Hin & Hd'). exists d'. split; [by right|done].
      * intros (d' & [->|Hin]%elem_of_cons & Hd'); [lia|]. by exists d'.
    + apply Z.eqb_neq in E. split; [|done]. intros _. exists d. split; [left|lia].
Qed.

(** X2.  [rollQudSinglet] returns iff the forced dice hold a face other
    than ten: on tens alone the loop is still rolling when the dice run
    out. *)
Theorem rollQudSinglet_returns dice :
  is_Some (rollQudSinglet dice) ↔ ∃ d, d ∈ dice ∧ d ≠ 10.
Proof.
  rewrite <- (singletLoop_is_Some dice 0 []). unfold rollQudSinglet.
  destruct (singletLoop 0 [] dice) as [[[total' rolls'] rest']|]; [|done].
  split; done.
Qed.

End DiceShape.

Section PenetrationBounds.
Import Dice.

Lemma evaluateTriplet_penetrations pv av ss :
  let t := evaluateTriplet pv av ss in
  (penetrations t = 0 ∨ penetrations t = 1)
  ∧ (allPassed t = true → penetrations t = 1).
Proof.
  unfold evaluateTriplet. cbn [penetrations allPassed].
  set (n := Z.of_nat _). split.
  - destruct (0 <? n); auto.
  - intros ->%Z.eqb_eq. done.
Qed.

(** A run of triplets in which every one but the last was allPassed. *)
Lemma chain_counts (new : list Triplet) :
  (∀ (k : nat) t, new !! k = Some t →
     (penetrations t = 0 ∨ penetrations t = 1)
     ∧ (allPassed t = true → penetrations t = 1)
     ∧ ((S k < length new)%nat → allPassed t = true)) →
  let n := Z.of_nat (length new) in
  Z.max 0 (n - 1) ≤ JS.sumZ (penetrations <$> new) ≤ n
  ∧ Z.max 0 (n - 1) ≤ Z.of_nat (length (List.filter allPassed new)) ≤ n.
Proof.
  induction new as [|t new IH]; intros Hk; [simpl; rewrite sumZ_nil; lia|].
  destruct IH as [IHs IHf].
  { intros k t' Hlook. destruct (Hk (S k) t' Hlook) as (? & ? & Hnext).
    split; [done|]. split; [done|]. intros ?. apply Hnext. simpl. lia. }
  destruct (Hk 0%nat t eq_refl) as (H01 & Hall & Hnext).
  rewrite fmap_cons, sumZ_cons. cbn [List.filter length].
  destruct new as [|t1 new].
  - simpl in *. rewrite sumZ_nil. destruct (allPassed t); simpl; lia.
  - rewrite Hnext by (simpl; lia). rewrite (Hall (Hnext ltac:(simpl; lia))).
    cbn [length] in *. lia.
Qed.

(** X3.  Bounds of a penetration sequence that returns: with n triplets
    rolled, 2n <= max(0, PV + 1); totalPenetrations is n or n - 1 (only the
    last triplet can fail to penetrate) and never negative; finalPV lies
    between PV - 2n and PV, and is at least -1 when PV was positive. *)
Theorem resolvePenetration_bounds (pv av : Z) (dice : list Z)
    (r : Penetration) (rest : list Z) :
  resolvePenetration pv av dice = Some (r, rest) →
  let n := Z.of_nat (length (triplets r)) in
  2 * n ≤ Z.max 0 (pv + 1)
  ∧ Z.max 0 (n - 1) ≤ totalPenetrations r ≤ n
  ∧ pv - 2 * n ≤ finalPV r ≤ pv
  ∧ (0 < pv → -1 ≤ finalPV r).
Proof.
  unfold resolvePenetration. intros Hrun.
  apply rolling_bind_Some in Hrun as ([[cur' tot'] ts'] & dice' & Hloop & Hret).
  injection Hret as <- <-. simpl.
  apply penetrationLoop_spec in Hloop as (new & -> & -> & -> & Hk & _ & Hlast).
  rewrite app_nil_l.
  destruct (chain_counts new) as [Hs Hf].
  { intros k t Hlook. apply Hk in Hlook as ((s1 & s2 & s3 & ->) & _ & Hnext).
    destruct (evaluateTriplet_penetrations (pv - 2 * Z.of_nat k) av [s1; s2; s3])
      as [? ?]. done. }
  assert (Hn : 2 * Z.of_nat (length new) ≤ Z.max 0 (pv + 1)).
  { destruct (decide (new = [])) as [->|Hne]; [simpl; lia|].
    destruct (last new) as [t|] eqn:El; [|by apply last_None in El].
    rewrite last_lookup in El. apply Hk in El as (_ & Hpos & _).
    destruct new; [done|]. cbn [length pred] in *. lia. }
  split; [exact Hn|]. split; [lia|]. split; [lia|]. intros Hpv. lia.
Qed.

(** A witness of [resolvePenetration_bounds]: PV 5 against AV 6, two
    triplets. *)
Lemma resolvePenetration_bounds_witness :
  ∃ r rest,
    resolvePenetration 5 6 [9; 9; 9; 3; 3; 3] = Some (r, rest)
    ∧ length (triplets r) = 2%nat
    ∧ 1 ≤ totalPenetrations r ≤ 2.
Proof.
  eexists _, _. split; [reflexivity|]. split; [reflexivity|].
  pose proof (resolvePenetration_bounds 5 6 [9; 9; 9; 3; 3; 3] _ [] eq_refl)
    as (_ & H & _).
  exact H.
Defined.

(** X4.  The triplet evaluation is monotone: for the same singlets, a
    higher penetration value or a lower armor value never lowers the number
    of singlets that pass, nor the penetration count. *)
Theorem evaluateTriplet_monotone (pv pv' av av' : Z) (ss : list Singlet) :
  pv ≤ pv' → av' ≤ av →
  singletsPassed (evaluateTriplet pv av ss) ≤ singletsPassed (evaluateTriplet pv' av' ss)
  ∧ penetrations (evaluateTriplet pv av ss) ≤ penetrations (evaluateTriplet pv' av' ss).
Proof.
  intros Hpv Hav. unfold evaluateTriplet. cbn [singletsPassed penetrations].
  assert (Hle : (length (List.filter (singletPasses pv av) ss)
                 ≤ length (List.filter (singletPasses pv' av') ss))%nat).
  { induction ss as [|s ss IH]; [done|]. cbn [List.filter].
    destruct (singletPasses pv av s) eqn:E1, (singletPasses pv' av' s) eqn:E2;
      cbn [length]; try lia.
    unfold singletPasses in E1, E2. apply Z.leb_le in E1. apply Z.leb_gt in E2. lia. }
  split; [lia|].
  destruct (0 <? Z.of_nat (length (List.filter (singletPasses pv av) ss))) eqn:E1,
    (0 <? Z.of_nat (length (List.filter (singletPasses pv' av') ss))) eqn:E2;
    lia.
Qed.

(** A witness of [evaluateTriplet_monotone]: singlet totals 1, 1 and 2
    against AV 6 pass once at PV 4 and three times at PV 5. *)
Lemma evaluateTriplet_monotone_witness :
  let ss := [ {| total := 1; rolls := []; exploded := false; explosionChain := [] |};
              {| total := 1; rolls := []; exploded := false; explosionChain := [] |};
              {| total := 2; rolls := []; exploded := false; explosionChain := [] |} ] in
  singletsPassed (evaluateTriplet 4 6 ss) = 1
  ∧ singletsPassed (evaluateTriplet 5 6 ss) = 3
  ∧ singletsPassed (evaluateTriplet 4 6 ss) ≤ singletsPassed (evaluateTriplet 5 6 ss).
Proof.
  intros ss. split; [reflexivity|]. split; [reflexivity|].
  apply (evaluateTriplet_monotone 4 5 6 6 ss); lia.
Defined.

End PenetrationBounds.

(** ** Cooldowns *)

Section CooldownFacts.
Import Data Actor Cooldowns.



End CooldownFacts.

(** ** The body hierarchy: creation, growth and removal *)

Section Hierarchy.
Import BodyParts.

Implicit Types (m : gmap string BodyPart) (w : World).

Lemma nextId_nonempty w : nextId w ≠ "".
Proof. unfold nextId. done. Qed.

Lemma createBodyPart_deref_known type variant laterality parentId partType w :
  CAVESOFQUD.bodyPartTypes type = Some partType →
  createBodyPart_deref type variant laterality parentId w
  = Some (freshPart (nextId w) type variant laterality parentId partType, advance 1 w).
Proof.
  intros Ht. unfold createBodyPart_deref, createBodyPart. rewrite Ht. done.
Qed.

Lemma createBodyPart_deref_unknown type variant laterality parentId w :
  CAVESOFQUD.bodyPartTypes type = None →
  createBodyPart_deref type variant laterality parentId w = None.
Proof.
  intros Ht. unfold createBodyPart_deref, createBodyPart. rewrite Ht. done.
Qed.

(** Storing a fresh childless part under an existing parent keeps the
    invariant. *)
Lemma withChild_wellFormed rank m parentId (parentPart child : BodyPart) :
  wellFormed rank m →
  m !! parentId = Some parentPart →
  m !! id child = None → id child ≠ "" →
  parent child = Some parentId → children child = [] →
  wellFormed (λ x, if bool_decide (x = id child) then 0%nat else S (rank x))
    (withChild m parentId parentPart child).
Proof.
  intros [Hid Hch Hpar Hrk] Hpp Hfresh Hne Hcp Hcc.
  assert (Hnp : parentId ≠ id child) by (intros ->; congruence).
  assert (Hnotchild : ∀ k p, m !! k = Some p → id child ∉ children p).
  { intros k p Hk Hin. destruct (Hch k p _ Hk Hin) as (q & Hq & _). congruence. }
  assert (Hlook : ∀ k p, withChild m parentId parentPart child !! k = Some p →
            (k = parentId ∧ p = set_children (children parentPart ++ [id child]) parentPart)
            ∨ (k = id child ∧ p = child)
            ∨ (k ≠ parentId ∧ k ≠ id child ∧ m !! k = Some p)).
  { intros k p. unfold withChild.
    rewrite lookup_insert_Some, lookup_insert_Some.
    intros [[<- <-]|[Hn [[<- <-]|[Hn' Hk]]]]; [by left|right; by left|].
    right. right. done. }
  split.
  - intros k p [[-> ->]|[[-> ->]|(_ & _ & Hk)]]%Hlook; [|done|by apply Hid].
    simpl. by apply Hid.
  - intros k p c [[-> ->]|[[-> ->]|(Hk1 & Hk2 & Hk)]]%Hlook Hc.
    + simpl in Hc. apply elem_of_app in Hc as [Hc| ->%list_elem_of_singleton].
      * destruct (Hch _ _ _ Hpp Hc) as (q & Hq & Hqp).
        destruct (decide (c = parentId)) as [->|Hcn].
        -- eexists. unfold withChild. rewrite lookup_insert_eq. split; [done|].
           simpl. congruence.
        -- exists q. unfold withChild.
           rewrite lookup_insert_ne, lookup_insert_ne by congruence. done.
      * exists child. unfold withChild.
        rewrite lookup_insert_ne, lookup_insert_eq by done. done.
    + rewrite Hcc in Hc. by apply elem_of_nil in Hc.
    + destruct (Hch _ _ _ Hk Hc) as (q & Hq & Hqp).
      destruct (decide (c = parentId)) as [->|Hcn].
      * eexists. unfold withChild. rewrite lookup_insert_eq. split; [done|].
        simpl. congruence.
      * exists q. unfold withChild.
        rewrite lookup_insert_ne, lookup_insert_ne by congruence. done.
  - intros k p y [[-> ->]|[[-> ->]|(Hk1 & Hk2 & Hk)]]%Hlook Hy.
    + simpl in Hy. destruct (Hpar _ _ _ Hpp Hy) as (q & Hq & Hin).
      destruct (decide (y = parentId)) as [->|Hyn].
      * eexists. unfold withChild. rewrite lookup_insert_eq. split; [done|].
        simpl. apply elem_of_app. left. congruence.
      * exists q. unfold withChild.
        rewrite lookup_insert_ne, lookup_insert_ne by congruence. done.
    + rewrite Hcp in Hy. injection Hy as <-. eexists. unfold withChild.
      rewrite lookup_insert_eq. split; [done|]. simpl. apply elem_of_app. right.
      by apply list_elem_of_singleton.
    + destruct (Hpar _ _ _ Hk Hy) as (q & Hq & Hin).
      destruct (decide (y = parentId)) as [->|Hyn].
      * eexists. unfold withChild. rewrite lookup_insert_eq. split; [done|].
        simpl. apply elem_of_app. left. congruence.
      * exists q. unfold withChild.
        rewrite lookup_insert_ne, lookup_insert_ne by congruence. done.
  - intros k p Hk. apply Hlook in Hk as [[-> ->]|[[-> ->]|(Hk1 & Hk2 & Hk)]].
    + simpl. rewrite bool_decide_eq_false_2 by done. apply Forall_app. split.
      * pose proof (Hrk _ _ Hpp) as Hall. rewrite Forall_forall in Hall |- *.
        intros c Hc. specialize (Hall c Hc). case_bool_decide; lia.
      * constructor; [|constructor]. rewrite bool_decide_eq_true_2 by done. lia.
    + rewrite Hcc. constructor.
    + rewrite bool_decide_eq_false_2 by done.
      pose proof (Hrk _ _ Hk) as Hall. rewrite Forall_forall in Hall |- *.
      intros c Hc. specialize (Hall c Hc). case_bool_decide; lia.
Qed.

End Hierarchy.

Section Humanoid.
Import BodyParts.

(** [c] run in the world [w] returns, with a result and a world that
    satisfy [Q]. *)
Lemma returns_bind {A B} (m : Eff A) (k : A → Eff B) w Q :
  returns m w (λ a w', returns (k a) w' Q) → returns (m ≫= k) w Q.
Proof.
  intros (a & w' & Hm & b & w'' & Hk & HQ). exists b, w''. split; [|done].
  unfold mbind, eff_bind. by rewrite Hm.
Qed.

Lemma returns_ret {A} (a : A) w (Q : A → World → Prop) : Q a w → returns (mret a) w Q.
Proof. intros HQ. by exists a, w. Qed.

Lemma returns_create type variant laterality parentId w Q partType :
  CAVESOFQUD.bodyPartTypes type = Some partType →
  Q (freshPart (nextId w) type variant laterality parentId partType) (advance 1 w) →
  returns (createBodyPart_deref type variant laterality parentId) w Q.
Proof.
  intros Ht HQ. eexists _, _. split; [|exact HQ].
  by apply createBodyPart_deref_known.
Qed.

Lemma nextId_inj w w' :
  dateNow w = dateNow w' → nextId w = nextId w' →
  bodyPartIdCounter w = bodyPartIdCounter w'.
Proof.
  intros Hd Heq. unfold nextId in Heq. rewrite Hd in Heq.
  apply (inj (String.app _)) in Heq. apply (inj (String.app _)) in Heq.
  apply (inj (String.app _)) in Heq. by apply (inj pretty) in Heq.
Qed.

Lemma idAt_counter w (k : nat) :
  dateNow (Nat.iter k (advance 1) w) = dateNow w
  ∧ bodyPartIdCounter (Nat.iter k (advance 1) w) = (bodyPartIdCounter w + N.of_nat k)%N.
Proof.
  induction k as [|k [IH1 IH2]]; simpl; [split; [done|lia]|].
  split; [done|]. rewrite IH2. lia.
Qed.

Lemma idAt_inj w (a b : nat) : idAt w a = idAt w b → a = b.
Proof.
  unfold idAt. intros Heq. apply nextId_inj in Heq.
  - rewrite !(proj2 (idAt_counter w _)) in Heq. lia.
  - by rewrite !(proj1 (idAt_counter w _)).
Qed.

Lemma idAt_nonempty w (a : nat) : idAt w a ≠ "".
Proof. apply nextId_nonempty. Qed.

End Humanoid.

(** Lookups in a chain of inserts under generated ids, which differ as soon
    as their counters do. *)
Ltac id_ne :=
  first [ congruence
        | let E := fresh in
          intros E; apply nextId_inj in E; [cbn in E; lia | reflexivity] ].

Ltac look :=
  repeat first [ rewrite lookup_insert_eq
               | rewrite lookup_insert_ne by id_ne
               | rewrite lookup_empty ].

Section HumanoidLayout.
Import BodyParts.

Lemma createHumanoidBody_layout w :
  returns createHumanoidBody w
    (λ r w', r.1 = humanoidBody (idAt w) ∧ r.2 = idAt w 0
             ∧ w' = Nat.iter 10 (advance 1) w).
Proof.
  unfold createHumanoidBody.
  do 10 (eapply returns_bind, returns_create; [reflexivity|];
         cbv beta zeta iota delta [attach];
         cbn [id type variant laterality parent children equipment properties
              chimeraOrigin naturalArmor hasWings offhandChance
              set_children freshPart app]).
  apply returns_ret. cbv beta. split; [|done]. cbn [fst].
  apply map_eq. intros i.
  unfold humanoidBody, humanoidParts, idAt, list_to_map.
  cbn [foldr fst snd Nat.iter nat_rect].
  destruct (decide (i = nextId w)) as [->|H0]; [look; reflexivity|].
  destruct (decide (i = nextId (Nat.iter 1 (advance 1) w))) as [->|H1];
    [look; reflexivity|].
  destruct (decide (i = nextId (Nat.iter 2 (advance 1) w))) as [->|H2];
    [look; reflexivity|].
  destruct (decide (i = nextId (Nat.iter 3 (advance 1) w))) as [->|H3];
    [look; reflexivity|].
  destruct (decide (i = nextId (Nat.iter 4 (advance 1) w))) as [->|H4];
    [look; reflexivity|].
  destruct (decide (i = nextId (Nat.iter 5 (advance 1) w))) as [->|H5];
    [look; reflexivity|].
  destruct (decide (i = nextId (Nat.iter 6 (advance 1) w))) as [->|H6];
    [look; reflexivity|].
  destruct (decide (i = nextId (Nat.iter 7 (advance 1) w))) as [->|H7];
    [look; reflexivity|].
  destruct (decide (i = nextId (Nat.iter 8 (advance 1) w))) as [->|H8];
    [look; reflexivity|].
  destruct (decide (i = nextId (Nat.iter 9 (advance 1) w))) as [->|H9];
    [look; reflexivity|].
  cbn [Nat.iter nat_rect] in *. look. done.
Qed.

Lemma humanoidParts_keys ids : (humanoidParts ids).*1 = ids <$> seq 0 10.
Proof. done. Qed.

Lemma humanoidParts_NoDup ids :
  (∀ a b, ids a = ids b → a = b) → NoDup (humanoidParts ids).*1.
Proof.
  intros Hinj. rewrite humanoidParts_keys.
  apply NoDup_fmap_2; [exact Hinj|apply NoDup_seq].
Qed.

Lemma humanoidRank_at ids (j : nat) :
  (∀ a b, ids a = ids b → a = b) →
  humanoidRank ids (ids j)
  = match j with
    | 0 => 2 | 1 | 4 | 6 => 1 | _ => 0
    end%nat.
Proof.
  intros Hinj. unfold humanoidRank.
  destruct (decide (j = 0%nat)) as [->|H0]; [by rewrite bool_decide_eq_true_2|].
  rewrite bool_decide_eq_false_2 by (intros ?%Hinj; done).
  destruct (decide (j = 1 ∨ j = 4 ∨ j = 6)%nat) as [Hj|Hj].
  - rewrite bool_decide_eq_true_2 by (destruct Hj as [->|[->| ->]]; auto).
    by destruct Hj as [->|[->| ->]].
  - rewrite bool_decide_eq_false_2.
    2:{ intros [?%Hinj|[?%Hinj|?%Hinj]]; apply Hj; auto. }
    destruct j as [|[|[|[|[|[|[|j]]]]]]]; try done; exfalso; apply Hj; auto.
Qed.

Lemma humanoidBody_wellFormed ids :
  (∀ a b, ids a = ids b → a = b) → (∀ a, ids a ≠ "") →
  wellFormed (humanoidRank ids) (humanoidBody ids).
Proof.
  intros Hinj Hne. pose proof (humanoidParts_NoDup ids Hinj) as Hnd.
  assert (Hin : ∀ k p, humanoidBody ids !! k = Some p → (k, p) ∈ humanoidParts ids).
  { intros k p. by apply elem_of_list_to_map. }
  assert (Hout : ∀ k p, (k, p) ∈ humanoidParts ids → humanoidBody ids !! k = Some p).
  { intros k p. by apply elem_of_list_to_map. }
  split.
  - intros k p Hk%Hin. unfold humanoidParts in Hk.
    repeat (apply elem_of_cons in Hk as [[= -> ->]|Hk]; [split; [done|apply Hne]|]).
    by apply elem_of_nil in Hk.
  - intros k p c Hk%Hin Hc. unfold humanoidParts in Hk.
    repeat (apply elem_of_cons in Hk as [[= -> ->]|Hk];
            [cbn in Hc;
             repeat (apply elem_of_cons in Hc as [->|Hc];
                     [eexists; split; [apply Hout; unfold humanoidParts; pick_entry|done]|]);
             by apply elem_of_nil in Hc|]).
    by apply elem_of_nil in Hk.
  - intros k p y Hk%Hin Hy. unfold humanoidParts in Hk.
    apply elem_of_cons in Hk as [[= -> ->]|Hk]; [done|].
    repeat (apply elem_of_cons in Hk as [[= -> ->]|Hk];
            [cbn in Hy; injection Hy as <-;
             eexists; (split; [apply Hout; unfold humanoidParts; pick_entry|]);
             cbn; pick_entry|]).
    by apply elem_of_nil in Hk.
  - intros k p Hk%Hin. unfold humanoidParts in Hk.
    repeat (apply elem_of_cons in Hk as [[= -> ->]|Hk];
            [cbn; repeat constructor; rewrite !humanoidRank_at by done; simpl; lia|]).
    by apply elem_of_nil in Hk.
Qed.

Lemma advance_iter w : Nat.iter 10 (advance 1) w = advance 10 w.
Proof. unfold advance. cbn. f_equal. lia. Qed.

(** X6.  [createHumanoidBody] never fails.  It consumes ten consecutive
    ids and returns, with the id of the body as root, exactly the humanoid
    layout over them: ten parts (a body, a head, a face, a back, two arms,
    two hands, feet, a floating slot) that form a well-formed hierarchy whose
    root has no parent. *)
Theorem createHumanoidBody_wellFormed w :
  let body := humanoidBody (idAt w) in
  createHumanoidBody w = Some ((body, nextId w), advance 10 w)
  ∧ wellFormed (humanoidRank (idAt w)) body
  ∧ size body = 10%nat
  ∧ type <$> values body
    ≡ₚ ["Body"; "Head"; "Face"; "Back"; "Arm"; "Hand"; "Arm"; "Hand"; "Feet";
        "FloatingNearby"]
  ∧ (∃ root, body !! nextId w = Some root ∧ parent root = None ∧ type root = "Body").
Proof.
  intros body.
  pose proof (humanoidParts_NoDup (idAt w) (idAt_inj w)) as Hnd.
  split; [|split; [|split; [|split]]].
  - destruct (createHumanoidBody_layout w) as ([m root] & w' & -> & Hm & Hroot & ->).
    simpl in Hm, Hroot. subst m root. by rewrite advance_iter.
  - apply humanoidBody_wellFormed; [apply idAt_inj|apply idAt_nonempty].
  - subst body. unfold humanoidBody. by rewrite map_size_list_to_map.
  - subst body. unfold humanoidBody, values.
    rewrite (map_to_list_to_map _ Hnd). done.
  - eexists. subst body. unfold humanoidBody.
    split; [apply elem_of_list_to_map; [done|]; unfold humanoidParts;
            apply list_elem_of_here|done].
Qed.

End HumanoidLayout.

Section AddRemove.
Import BodyParts.

Implicit Types (m : gmap string BodyPart) (w : World).

(** X7.  [addBodyPart] with a missing parent returns null and leaves the
    body and the id counter untouched.  With the parent present it throws a
    TypeError exactly when the type is not in the configuration (the null
    of [createBodyPart] is dereferenced); otherwise it consumes one id,
    stores the new childless part under it and appends the id to the
    parent's children. *)
Theorem addBodyPart_errors m type parentId variant laterality w :
  (m !! parentId = None →
   addBodyPart m type parentId variant laterality w = Some ((m, None), w))
  ∧ (addBodyPart m type parentId variant laterality w = None
     ↔ is_Some (m !! parentId) ∧ CAVESOFQUD.bodyPartTypes type = None)
  ∧ (∀ parentPart partType,
       m !! parentId = Some parentPart →
       CAVESOFQUD.bodyPartTypes type = Some partType →
       let newPart :=
         freshPart (nextId w) type variant laterality (Some parentId) partType in
       addBodyPart m type parentId variant laterality w
       = Some ((if String.eqb (nextId w) parentId
                then <[nextId w := newPart]> m
                else withChild m parentId parentPart newPart, Some newPart),
               advance 1 w)).
Proof.
  unfold addBodyPart. split; [|split].
  - by intros ->.
  - destruct (m !! parentId) as [parentPart|] eqn:Hp.
    + destruct (CAVESOFQUD.bodyPartTypes type) as [partType|] eqn:Ht.
      * unfold mbind, eff_bind.
        rewrite (createBodyPart_deref_known _ _ _ _ partType) by done.
        split; [done|]. by intros [_ ?].
      * unfold mbind, eff_bind. rewrite createBodyPart_deref_unknown by done.
        split; [|done]. intros _. by split.
    + split; [done|]. by intros [[? ?] _].
  - intros parentPart partType Hp Ht. rewrite Hp. unfold mbind, eff_bind.
    rewrite (createBodyPart_deref_known _ _ _ _ partType) by done.
    unfold mret, eff_ret. cbn [id freshPart].
    by destruct (String.eqb (nextId w) parentId).
Qed.

End AddRemove.

Section SampleBody.

Lemma sampleBody_wellFormed : wellFormed sampleRank sampleBody.
Proof.
  split.
  - intros k p Hk. unfold sampleBody in Hk. each_part Hk; done.
  - intros k p c Hk Hc. unfold sampleBody in Hk.
    each_part Hk; cbn in Hc;
      repeat (apply elem_of_cons in Hc as [->|Hc];
              [eexists; split; [by vm_compute|done]|]);
      by apply elem_of_nil in Hc.
  - intros k p y Hk Hy. unfold sampleBody in Hk.
    each_part Hk; cbn in Hy; try done; injection Hy as <-;
      (eexists; split; [by vm_compute|]); cbn;
      repeat first [ apply list_elem_of_here | apply list_elem_of_further ].
  - apply map_Forall_to_list. vm_compute. repeat constructor.
Qed.

End SampleBody.

Section AddRemove2.
Import BodyParts.

Implicit Types (m : gmap string BodyPart) (w : World).

(** X8.  Adding a part of a known type under a stored parent of a
    well-formed body, when the generated id is not in use, gives a
    well-formed body again in which only the new part and the parent's
    children list differ; and removing the new part brings back the original
    body exactly and returns just that id. *)
Theorem addBodyPart_removeBodyPart rank m type parentId variant laterality w
    parentPart partType :
  wellFormed rank m →
  m !! parentId = Some parentPart →
  CAVESOFQUD.bodyPartTypes type = Some partType →
  m !! nextId w = None →
  let newPart := freshPart (nextId w) type variant laterality (Some parentId) partType in
  let m' := withChild m parentId parentPart newPart in
  addBodyPart m type parentId variant laterality w = Some ((m', Some newPart), advance 1 w)
  ∧ (∃ rank', wellFormed rank' m')
  ∧ m' !! nextId w = Some newPart
  ∧ children <$> m' !! parentId = Some (children parentPart ++ [nextId w])
  ∧ (∀ x, x ≠ nextId w → x ≠ parentId → m' !! x = m !! x)
  ∧ (∀ fuel, removeBodyPart (S fuel) m' (nextId w) = Some (m, [nextId w])).
Proof.
  intros Hwf Hp Ht Hfresh newPart m'.
  assert (Hne : nextId w ≠ parentId) by (intros E; congruence).
  assert (Hpne : parentId ≠ "") by (by destruct (wf_id _ _ Hwf _ _ Hp)).
  assert (Hnew : m' !! nextId w = Some newPart).
  { subst m'. unfold withChild. cbn [id freshPart newPart].
    by rewrite lookup_insert_ne, lookup_insert_eq. }
  assert (Hpar : m' !! parentId
                 = Some (set_children (children parentPart ++ [nextId w]) parentPart)).
  { subst m'. unfold withChild. by rewrite lookup_insert_eq. }
  split; [|split; [|split; [|split; [|split]]]].
  - destruct (addBodyPart_errors m type parentId variant laterality w) as (_ & _ & H).
    rewrite (H parentPart partType Hp Ht).
    apply String.eqb_neq in Hne. by rewrite Hne.
  - eexists. apply withChild_wellFormed; done.
  - exact Hnew.
  - by rewrite Hpar.
  - intros x Hx1 Hx2. subst m'. unfold withChild.
    by rewrite !lookup_insert_ne.
  - intros fuel. unfold removeBodyPart. rewrite Hnew.
    cbn [collectDescendants]. rewrite Hnew. cbn [children newPart freshPart forEachChild].
    change (parent newPart) with (Some parentId).
    change (default "" (Some parentId)) with parentId. cbn [JS.truthy_id].
    apply String.eqb_neq in Hpne. rewrite Hpne. cbn [negb]. rewrite Hpar.
    f_equal. f_equal. unfold deleteAll. cbn [foldl].
    apply map_eq. intros x.
    destruct (decide (x = nextId w)) as [->|Hx1].
    { by rewrite lookup_delete_eq. }
    rewrite lookup_delete_ne by done.
    destruct (decide (x = parentId)) as [->|Hx2].
    + rewrite lookup_insert_eq, Hp. f_equal.
      cbn [children set_children].
      rewrite List.filter_app. cbn [List.filter].
      rewrite String.eqb_refl. cbn [negb]. rewrite app_nil_r.
      assert (Hall : List.filter (λ c, negb (c =? nextId w)%string) (children parentPart)
                     = children parentPart).
      { apply forallb_filter_id. apply forallb_forall. intros c Hc.
        apply negb_true_iff, String.eqb_neq. intros ->.
        apply list_elem_of_In in Hc.
        destruct (wf_children _ _ Hwf _ _ _ Hp Hc) as (q & Hq & _). congruence. }
      rewrite Hall. by destruct parentPart.
    + rewrite lookup_insert_ne by done. subst m'. unfold withChild.
      by rewrite !lookup_insert_ne.
Qed.

(** A witness of [addBodyPart_removeBodyPart]: a second pair of feet on the
    sample body, and its removal. *)
Lemma addBodyPart_removeBodyPart_witness :
  ∃ m' newPart,
    addBodyPart sampleBody "Feet" "body" None "" sampleWorld
    = Some ((m', Some newPart), advance 1 sampleWorld)
    ∧ id newPart = "bp_0_0"
    ∧ children <$> m' !! "body" = Some ["arm"; "head"; "bp_0_0"]
    ∧ removeBodyPart 1 m' "bp_0_0" = Some (sampleBody, ["bp_0_0"]).
Proof.
  destruct (addBodyPart_removeBodyPart sampleRank sampleBody "Feet" "body" None ""
              sampleWorld (samplePart "body" "Body" None ["arm"; "head"] None)
              (CAVESOFQUD.mkType "Feet" true "feet" false
                 ["Feet"; "Footbones"; "Legs"; "Support Struts"; "Hooves"; "Pads";
                  "Talons"] false true 10 (Some "Body") None)
              sampleBody_wellFormed eq_refl eq_refl eq_refl)
    as (Hadd & _ & _ & Hkids & _ & Hback).
  eexists _, _. split; [exact Hadd|]. split; [reflexivity|].
  split; [exact Hkids|]. exact (Hback 0%nat).
Defined.

End AddRemove2.

Section RemoveKeeps.
Import BodyParts.

Implicit Types (m : gmap string BodyPart) (w : World).


(** What [removeBodyPart] leaves of a present part's body. *)
Lemma removeBodyPart_lookup rank m partId part fuel :
  ranked rank m → m !! partId = Some part → (rank partId < fuel)%nat →
  ∃ m' removed,
    removeBodyPart fuel m partId = Some (m', removed)
    ∧ (∀ x, x ∈ removed ↔ x = partId ∨ descendantOf m partId x)
    ∧ (∀ x, m' !! x
            = (if bool_decide (x ∈ removed) then None
               else if bool_decide (parent part = Some x ∧ x ≠ "")
                    then detached partId <$> m !! x else m !! x)).
Proof.
  intros Hrank Hpart Hfuel. unfold removeBodyPart. rewrite Hpart.
  destruct (collectDescendants_total rank m Hrank fuel partId Hfuel) as [ds Hds].
  rewrite Hds. eexists _, _. split; [reflexivity|]. split.
  - intros x. rewrite elem_of_cons.
    by rewrite (collectDescendants_descendantOf fuel m partId ds Hds x).
  - intros x. rewrite deleteAll_lookup. case_bool_decide; [done|].
    apply detach_lookup.
Qed.



End RemoveKeeps.

Section WithChildren.
Import BodyParts.

Implicit Types (m : gmap string BodyPart) (w : World).






End WithChildren.

(** ** Random choices for chimera growth *)

Section RandomChoices.
Import BodyParts.

Implicit Types (m : gmap string BodyPart) (w : World).

Lemma randomBelow_range n w :
  0 < n → Forall (λ r, 0 <= r ∧ r < 1)%Q (random w) →
  ∃ roll, randomBelow n w = Some (roll, afterRandom w) ∧ 0 ≤ roll < n.
Proof.
  intros Hn Hr. unfold randomBelow, afterRandom. destruct (random w) as [|r rest] eqn:E.
  - exists 0. split; [|lia]. destruct w. simpl in *. by rewrite E.
  - exists (Qfloor (r * inject_Z n)). split; [done|].
    apply Forall_cons in Hr as [[Hr0 Hr1] _]. split.
    + change 0 with (Qfloor 0). apply Qfloor_resp_le.
      apply Qmult_le_0_compat; [done|]. change 0%Q with (inject_Z 0).
      rewrite <- Zle_Qle. lia.
    + rewrite Zlt_Qlt. eapply Qle_lt_trans; [apply Qfloor_le|].
      rewrite <- (Qmult_1_l (inject_Z n)) at 2.
      apply Qmult_lt_compat_r; [|done]. change 0%Q with (inject_Z 0).
      rewrite <- Zlt_Qlt. lia.
Qed.

(** The number of the 19 equally likely rolls that select a type. *)
(** X9.  With random numbers in [0, 1), [rollChimeraBodyPart] consumes one
    of them and returns one of the nine weighted types, each of which is a
    type of the configuration (so growing the part cannot fail on its
    type); each type is selected by exactly its weight out of the 19 equally
    likely rolls, and the weights add up to the hard-coded total 19, so the
    fallback is never reached. *)
Theorem rollChimeraBodyPart_known w :
  Forall (λ r, 0 <= r ∧ r < 1)%Q (random w) →
  (∃ t, rollChimeraBodyPart w = Some (t, afterRandom w)
        ∧ t ∈ chimeraWeights.*1
        ∧ is_Some (CAVESOFQUD.bodyPartTypes t))
  ∧ Forall (λ entry, Z.of_nat (rollsFor entry.1) = entry.2) chimeraWeights
  ∧ JS.sumZ chimeraWeights.*2 = 19.
Proof.
  intros Hr. split; [|split; [|done]].
  - destruct (randomBelow_range 19 w) as (roll & Hroll & Hrange); [lia|done|].
    exists (pickWeighted roll chimeraWeights). unfold rollChimeraBodyPart.
    unfold mbind, eff_bind. rewrite Hroll. split; [done|].
    assert (Hcases : roll ∈ seqZ 0 19) by (apply elem_of_seqZ; lia).
    vm_compute in Hcases.
    repeat (apply elem_of_cons in Hcases as [->|Hcases];
            [split; [vm_compute; pick_entry|by eexists]|]).
    by apply elem_of_nil in Hcases.
  - unfold chimeraWeights. repeat (constructor; [by vm_compute|]). constructor.
Qed.

(** A witness of [rollChimeraBodyPart_known]: the random number one half
    selects roll 9, a face. *)
Lemma rollChimeraBodyPart_known_witness :
  rollChimeraBodyPart halfWorld = Some ("Face", afterRandom halfWorld)
  ∧ is_Some (CAVESOFQUD.bodyPartTypes "Face").
Proof.
  destruct (rollChimeraBodyPart_known halfWorld) as [(t & Hrun & _ & Hknown) _].
  { constructor; [split; by vm_compute|constructor]. }
  assert (Ht : fst <$> rollChimeraBodyPart halfWorld = Some "Face") by (vm_compute; reflexivity).
  rewrite Hrun in Ht. injection Ht as ->. by split.
Defined.

(** X10.  [selectRandomParent] returns null on an empty body without
    using a random number; on any other body, with random numbers in [0, 1),
    the index is always in range and the result is the id of a stored
    part. *)
Theorem selectRandomParent_member m w :
  Forall (λ r, 0 <= r ∧ r < 1)%Q (random w) →
  (m = ∅ → selectRandomParent m w = Some (None, w))
  ∧ (m ≠ ∅ → ∃ p, selectRandomParent m w = Some (Some (id p), afterRandom w)
                   ∧ p ∈ values m).
Proof.
  intros Hr. unfold selectRandomParent, values. split.
  - intros ->. by rewrite map_to_list_empty.
  - intros Hne. destruct (map_to_list m) as [|e l] eqn:E.
    { by apply map_to_list_empty_iff in E. }
    rewrite fmap_cons. set (allParts := e.2 :: l.*2).
    destruct (randomBelow_range (Z.of_nat (length allParts)) w)
      as (roll & Hroll & Hrange); [simpl; lia|done|].
    destruct (lookup_lt_is_Some_2 allParts (Z.to_nat roll)) as [p Hp]; [lia|].
    exists p. unfold mbind, eff_bind. cbv zeta. fold allParts.
    change (match allParts with [] => mret None | _ :: _ => ?k end) with k.
    cbv beta. rewrite Hroll.
    destruct (roll <? 0) eqn:Hneg; [apply Z.ltb_lt in Hneg; lia|].
    rewrite Hp. split; [done|]. by eapply list_elem_of_lookup_2.
Qed.

(** A witness of [selectRandomParent_member] on the sample body. *)
Lemma selectRandomParent_member_witness :
  ∃ p, selectRandomParent sampleBody halfWorld = Some (Some (id p), afterRandom halfWorld)
       ∧ p ∈ values sampleBody.
Proof.
  apply (proj2 (selectRandomParent_member sampleBody halfWorld
                  ltac:(constructor; [split; by vm_compute|constructor]))).
  intros H. by apply (f_equal (lookup "body")) in H.
Defined.

End RandomChoices.

(** ** The display tree *)

Section DisplayTree.
Import BodyParts.

Implicit Types (m : gmap string BodyPart).

Lemma concatEach_forEachChild (visit : string → option (list string)) childIds :
  concatEach visit childIds = forEachChild visit childIds.
Proof. induction childIds as [|c cs IH]; simpl; [done|]. by rewrite IH. Qed.

Lemma flatOk_deeper depth (l : list FlatNode) :
  Forall (flatOk (depth + 1)) l → Forall (flatOk depth) l.
Proof. intros H. eapply Forall_impl; [exact H|]. intros f [? ?]. split; [done|lia]. Qed.

Lemma buildBodyPartTree_mirrors rank m :
  wellFormed rank m →
  ∀ fuel partId part depth,
    m !! partId = Some part → (rank partId < fuel)%nat →
    ∃ node ds,
      buildBodyPartTree fuel m (Some partId) depth = Some [node]
      ∧ mirrors m depth partId node
      ∧ collectDescendants fuel m partId = Some ds
      ∧ Some <$> (flat_part <$> traverseNode node) = (m !!.) <$> (partId :: ds)
      ∧ Forall (flatOk depth) (traverseNode node)
      ∧ flat_depth <$> head (traverseNode node) = Some depth.
Proof.
  intros Hwf. induction fuel as [|fuel IH]; intros partId part depth Hpart Hfuel; [lia|].
  cbn [buildBodyPartTree collectDescendants].
  destruct (wf_id _ _ Hwf _ _ Hpart) as [_ Hne].
  apply String.eqb_neq in Hne. cbn [JS.truthy_id]. rewrite Hne. cbn [negb].
  rewrite Hpart.
  pose proof (wf_ranked _ _ Hwf _ _ Hpart) as Hrk.
  assert (Hkids : ∀ c, c ∈ children part → is_Some (m !! c) ∧ (rank c < fuel)%nat).
  { intros c Hc. destruct (wf_children _ _ Hwf _ _ _ Hpart Hc) as (q & Hq & _).
    split; [by exists q|]. rewrite Forall_forall in Hrk. specialize (Hrk c Hc). lia. }
  clear Hrk.
  assert (Hloop : ∃ nodes ds,
            concatEach (λ childId, buildBodyPartTree fuel m (Some childId) (depth + 1))
              (children part) = Some nodes
            ∧ Forall2 (mirrors m (depth + 1)) (children part) nodes
            ∧ forEachChild (λ childId, cons childId <$> collectDescendants fuel m childId)
                (children part) = Some ds
            ∧ Some <$> (flat_part <$> flat_map traverseNode nodes) = (m !!.) <$> ds
            ∧ Forall (flatOk (depth + 1)) (flat_map traverseNode nodes)).
  { induction (children part) as [|c cs IHcs]; cbn [concatEach forEachChild].
    - exists [], []. split; [done|]. split; [constructor|]. split; [done|].
      split; [done|constructor].
    - destruct (Hkids c) as [[q Hq] Hrc]; [left|].
      destruct (IH c q (depth + 1) Hq Hrc) as (node & dsc & Hb & Hm & Hc & Hf & Hok & _).
      destruct IHcs as (nodes & ds & Hbs & Hms & Hcs & Hfs & Hoks).
      { intros c' Hc'. apply Hkids. by right. }
      rewrite Hb, Hbs, Hc, Hcs. cbn [fmap option_fmap option_map].
      exists (node :: nodes), ((c :: dsc) ++ ds).
      split; [done|]. split; [by constructor|]. split; [done|].
      cbn [flat_map]. rewrite !fmap_app, Hf, Hfs. split; [done|].
      by apply Forall_app. }
  destruct Hloop as (nodes & ds & Hb & Hm & Hc & Hf & Hok).
  rewrite Hb, Hc. eexists _, _. split; [done|]. split; [by constructor|].
  split; [done|]. cbn [traverseNode].
  assert (Hflag : (0 <? length nodes)%nat = negb (bool_decide (children part = []))).
  { apply Forall2_length in Hm. rewrite <- Hm. by destruct (children part). }
  split; [|split; [|done]].
  - rewrite !fmap_cons, Hpart. cbn [flat_part]. f_equal.
    destruct nodes as [|n nodes]; [|done]. by cbn [length Nat.ltb Nat.leb flat_map] in *.
  - constructor.
    + split; [done|]. cbn [flat_depth]. lia.
    + destruct (0 <? length nodes)%nat; [|constructor]. by apply flatOk_deeper.
Qed.

(** X11.  On a well-formed body, the display tree built from a stored part
    is a single node that mirrors the hierarchy below it (one node per part,
    children in list order, one level deeper each); flattening it lists the
    parts in exactly the order in which [removeBodyPart] would return their
    ids, starting at the given depth, with hasChildren set iff the part lists
    children. *)
Theorem flattenBodyPartTree_preorder rank m partId part depth fuel :
  wellFormed rank m → m !! partId = Some part → (rank partId < fuel)%nat →
  ∃ node removed,
    buildBodyPartTree fuel m (Some partId) depth = Some [node]
    ∧ mirrors m depth partId node
    ∧ snd <$> removeBodyPart fuel m partId = Some removed
    ∧ Some <$> (flat_part <$> flattenBodyPartTree [node]) = (m !!.) <$> removed
    ∧ Forall (flatOk depth) (flattenBodyPartTree [node])
    ∧ flat_depth <$> head (flattenBodyPartTree [node]) = Some depth.
Proof.
  intros Hwf Hpart Hfuel.
  destruct (buildBodyPartTree_mirrors rank m Hwf fuel partId part depth Hpart Hfuel)
    as (node & ds & Hb & Hm & Hc & Hf & Hok & Hd).
  exists node, (partId :: ds). unfold flattenBodyPartTree, removeBodyPart.
  cbn [flat_map]. rewrite app_nil_r, Hpart, Hc. done.
Qed.

(** A witness of [flattenBodyPartTree_preorder]: the sample body, whose
    arm carries a hand. *)
Lemma flattenBodyPartTree_preorder_witness :
  ∃ node removed,
    buildBodyPartTree 3 sampleBody (Some "body") 0 = Some [node]
    ∧ snd <$> removeBodyPart 3 sampleBody "body" = Some removed
    ∧ Some <$> (flat_part <$> flattenBodyPartTree [node]) = (sampleBody !!.) <$> removed
    ∧ removed = ["body"; "arm"; "hand"; "head"]
    ∧ flat_depth <$> flattenBodyPartTree [node] = [0; 1; 2; 1].
Proof.
  destruct (flattenBodyPartTree_preorder sampleRank sampleBody "body"
              (samplePart "body" "Body" None ["arm"; "head"] None) 0 3
              sampleBody_wellFormed eq_refl ltac:(vm_compute; lia))
    as (node & removed & Hb & _ & Hr & Hf & _).
  exists node, removed. split; [exact Hb|]. split; [exact Hr|]. split; [exact Hf|].
  assert (Hids : snd <$> removeBodyPart 3 sampleBody "body"
                 = Some ["body"; "arm"; "hand"; "head"]) by (vm_compute; reflexivity).
  rewrite Hr in Hids. injection Hids as Hids. split; [exact Hids|].
  assert (Hd : (λ t, flat_depth <$> flattenBodyPartTree t)
                 <$> buildBodyPartTree 3 sampleBody (Some "body") 0
               = Some [0; 1; 2; 1]) by (vm_compute; reflexivity).
  rewrite Hb in Hd. by injection Hd.
Defined.


(** The start id that is not stored, and the empty body, give the empty
    tree. *)
Lemma buildBodyPartTree_missing m (partId : string) depth fuel :
  (partId ≠ "" → m !! partId = None →
   buildBodyPartTree (S fuel) m (Some partId) depth = Some [])
  ∧ buildBodyPartTree (S fuel) ∅ None depth = Some [].
Proof.
  split.
  - intros Hne%String.eqb_neq Hnone. cbn [buildBodyPartTree JS.truthy_id].
    rewrite Hne. cbn [negb]. by rewrite Hnone.
  - done.
Qed.

End DisplayTree.

(** ** Equipping and unequipping *)

Section Equipping.
Import Data Equipment.

Implicit Types (this : Actor) (m : gmap string BodyParts.BodyPart).

Lemma stillEquipped_held m itemId : stillEquipped m itemId = true ↔ held m itemId.
Proof.
  unfold stillEquipped, held, BodyParts.values. rewrite existsb_exists. split.
  - intros (p & Hin & Hp). apply bool_decide_eq_true in Hp.
    apply list_elem_of_In, list_elem_of_fmap in Hin as ([k p'] & -> & Hin).
    apply elem_of_map_to_list in Hin. by exists k, p'.
  - intros (k & p & Hk & Hp). exists p. split; [|by apply bool_decide_eq_true].
    apply list_elem_of_In, list_elem_of_fmap. exists (k, p). split; [done|].
    by apply elem_of_map_to_list.
Qed.

Lemma items_update_ids (item' : Item) (items : list Item) :
  item_id <$> items_update item' items = item_id <$> items.
Proof.
  unfold items_update. rewrite <- list_fmap_compose. apply list_fmap_ext.
  intros _ item _. simpl. destruct (String.eqb (item_id item) (item_id item')) eqn:E; [|done].
  by apply String.eqb_eq in E.
Qed.

Lemma elem_of_items_update (item' x : Item) (items : list Item) :
  x ∈ items_update item' items ↔
  (x = item' ∧ ∃ old, old ∈ items ∧ item_id old = item_id item')
  ∨ (x ∈ items ∧ item_id x ≠ item_id item').
Proof.
  unfold items_update. rewrite list_elem_of_fmap. split.
  - intros (old & -> & Hin). destruct (String.eqb (item_id old) (item_id item')) eqn:E.
    + apply String.eqb_eq in E. left. split; [done|]. by exists old.
    + apply String.eqb_neq in E. by right.
  - intros [[-> (old & Hin & Hid)]|[Hin Hne]].
    + exists old. split; [|done]. apply String.eqb_eq in Hid. by rewrite Hid.
    + exists x. split; [|done]. apply String.eqb_neq in Hne. by rewrite Hne.
Qed.

Lemma items_get_Some (items : list Item) itemId item :
  items_get items itemId = Some item → item ∈ items ∧ item_id item = itemId.
Proof.
  unfold items_get. intros H. apply find_some in H as [Hin Hid].
  split; [by apply list_elem_of_In|by apply String.eqb_eq].
Qed.

Lemma items_get_None (items : list Item) itemId :
  items_get items itemId = None → ∀ item, item ∈ items → item_id item ≠ itemId.
Proof.
  unfold items_get. intros H item Hin%list_elem_of_In Hid.
  apply (find_none _ _ H item) in Hin. apply String.eqb_neq in Hin. done.
Qed.

Lemma items_unique (items : list Item) (a b : Item) :
  NoDup (item_id <$> items) → a ∈ items → b ∈ items → item_id a = item_id b → a = b.
Proof.
  intros Hnd Ha Hb Hid.
  apply list_elem_of_lookup in Ha as [i Hi]. apply list_elem_of_lookup in Hb as [j Hj].
  assert (i = j) as ->; [|congruence].
  eapply NoDup_lookup; [exact Hnd| |]; rewrite list_lookup_fmap.
  - by rewrite Hi.
  - rewrite Hj. simpl. by rewrite Hid.
Qed.

Lemma bodyParts_update m this :
  bodyParts (system (Mutation.update_bodyParts m this)) = m.
Proof. unfold Mutation.update_bodyParts. by destruct this as [? ? ? []]. Qed.

Lemma items_update_bodyParts m this :
  items (Mutation.update_bodyParts m this) = items this.
Proof. done. Qed.

(** Who holds what once the slot [partId] is emptied or refilled. *)
Lemma held_insert m partId (part : BodyParts.BodyPart) e x :
  held (<[partId := BodyParts.set_equipment e part]> m) x
  ↔ e = Some x
    ∨ ∃ k p, k ≠ partId ∧ m !! k = Some p ∧ BodyParts.equipment p = Some x.
Proof.
  unfold held. split.
  - intros (k & p & Hk & Hp). apply lookup_insert_Some in Hk as [[<- <-]|[Hne Hk]].
    + by left.
    + right. by exists k, p.
  - intros [->|(k & p & Hne & Hk & Hp)].
    + exists partId, (BodyParts.set_equipment (Some x) part).
      by rewrite lookup_insert_eq.
    + exists k, p. by rewrite lookup_insert_ne.
Qed.

Lemma held_split m partId (part : BodyParts.BodyPart) x :
  m !! partId = Some part →
  held m x
  ↔ BodyParts.equipment part = Some x
    ∨ ∃ k p, k ≠ partId ∧ m !! k = Some p ∧ BodyParts.equipment p = Some x.
Proof.
  intros Hpart. unfold held. split.
  - intros (k & p & Hk & Hp). destruct (decide (k = partId)) as [->|Hne].
    + left. congruence.
    + right. by exists k, p.
  - intros [Hp|(k & p & _ & Hk & Hp)]; [by exists partId, part|by exists k, p].
Qed.

Lemma items_get_is_Some (items : list Item) itemId :
  is_Some (items_get items itemId) ↔ itemId ∈ item_id <$> items.
Proof.
  split.
  - intros [item [Hin Hid]%items_get_Some]. apply list_elem_of_fmap. by exists item.
  - intros (item & -> & Hin)%list_elem_of_fmap.
    destruct (items_get items (item_id item)) eqn:E; [done|].
    by destruct (items_get_None _ _ E item Hin).
Qed.

(** Emptying an occupied slot. *)
Lemma unequipFromBodyPart_occupied this partId part e :
  slotsInStep this →
  bodyParts (system this) !! partId = Some part →
  BodyParts.equipment part = Some e →
  let m := bodyParts (system this) in
  let r := unequipFromBodyPart this partId in
  r.2 = true
  ∧ slotsInStep r.1
  ∧ bodyParts (system r.1) = <[partId := BodyParts.set_equipment None part]> m
  ∧ item_id <$> items r.1 = item_id <$> items this
  ∧ (∀ item, items_get (items this) e = Some item →
       held (<[partId := BodyParts.set_equipment None part]> m) e ∨
       items r.1
       = items_update (set_item_system (set_equipped false (item_system item)) item)
           (items this)).
Proof.
  intros Hsis Hpart He m r. subst r. unfold unequipFromBodyPart. fold m.
  unfold m in Hpart. fold m in Hpart. rewrite Hpart, He.
  assert (Hne : e ≠ "").
  { intros ->. by apply (sis_slots _ Hsis partId part Hpart). }
  cbn [JS.truthy_id]. apply String.eqb_neq in Hne as Hneb. rewrite Hneb. cbn [negb].
  change (default "" (Some e)) with e.
  set (m' := <[partId := BodyParts.set_equipment None part]> m).
  assert (Hheld : ∀ x, held m' x
            ↔ ∃ k p, k ≠ partId ∧ m !! k = Some p ∧ BodyParts.equipment p = Some x).
  { intros x. subst m'. rewrite held_insert. split; [|by right]. by intros [?|?]. }
  assert (Hold : ∀ x, held m x
            ↔ x = e ∨ ∃ k p, k ≠ partId ∧ m !! k = Some p ∧ BodyParts.equipment p = Some x).
  { intros x. rewrite (held_split m partId part x Hpart), He. split.
    - intros [[= ->]|?]; auto.
    - intros [->|?]; auto. }
  assert (Hslots' : ∀ k p, m' !! k = Some p → BodyParts.equipment p ≠ Some "").
  { intros k p [[<- <-]|[_ Hk]]%lookup_insert_Some; [done|].
    by apply (sis_slots _ Hsis k p). }
  (* the actor with the slot emptied and the flags left alone *)
  assert (Hsame : (¬ (∃ item, item ∈ items this ∧ item_id item = e) ∨ held m' e) →
            slotsInStep (Mutation.update_bodyParts m' this)).
  { intros Hcase. split.
    - apply (sis_ids _ Hsis).
    - apply (sis_nonempty _ Hsis).
    - rewrite bodyParts_update. exact Hslots'.
    - intros item Hin. rewrite bodyParts_update.
      rewrite (sis_flags _ Hsis item Hin). fold m. rewrite Hold, Hheld.
      split; [|by right]. intros [Hid|?]; [|done].
      destruct Hcase as [Hno|Hst]; [exfalso; apply Hno; by exists item|].
      apply Hheld in Hst. by rewrite Hid. }
  destruct (items_get (items this) e) as [item|] eqn:Hitem.
  2:{ cbn [fst snd]. split; [done|]. split; [|split; [apply bodyParts_update|by split]].
      apply Hsame. left. intros (item & Hin & Hid).
      by apply (items_get_None _ _ Hitem item Hin). }
  apply items_get_Some in Hitem as [Hin Hid].
  destruct (stillEquipped m' e) eqn:Hstill.
  { cbn [fst snd]. apply stillEquipped_held in Hstill. split; [done|].
    split; [by apply Hsame; right|]. split; [apply bodyParts_update|].
    split; [done|]. intros ? _. by left. }
  cbn [fst snd]. split; [done|].
  assert (Hnot : ¬ held m' e).
  { rewrite <- stillEquipped_held. by rewrite Hstill. }
  unfold markEquipped. cbn [items system set_items]. rewrite bodyParts_update.
  split; [|split; [done|split; [apply items_update_ids|]]].
  2:{ intros ? [= <-]. by right. }
  split; cbn [items system set_items].
  - rewrite items_update_ids. apply (sis_ids _ Hsis).
  - intros x [[-> _]|[Hx _]]%elem_of_items_update; [|by apply (sis_nonempty _ Hsis)].
    cbn [item_id set_item_system]. by apply (sis_nonempty _ Hsis).
  - rewrite bodyParts_update. exact Hslots'.
  - rewrite bodyParts_update.
    intros x [[-> _]|[Hx Hxid]]%elem_of_items_update.
    + cbn [item_id item_system set_item_system]. rewrite Hid.
      split; [by destruct (item_system item)|done].
    + cbn [item_id set_item_system] in Hxid. rewrite Hid in Hxid.
      rewrite (sis_flags _ Hsis x Hx). fold m. rewrite Hold, Hheld.
      split; [|by right]. by intros [?|?].
Qed.

(** X14.  [unequipFromBodyPart] keeps slots and equipped flags in step: it
    returns true exactly when the part exists and holds an item, otherwise it
    changes nothing; on success only that part changes (its slot is emptied),
    and the item stays flagged equipped iff another part still holds it. *)
Theorem unequipFromBodyPart_slotsInStep this partId :
  slotsInStep this →
  let m := bodyParts (system this) in
  let this' := (unequipFromBodyPart this partId).1 in
  let ok := (unequipFromBodyPart this partId).2 in
  slotsInStep this'
  ∧ (ok = true ↔ ∃ part itemId, m !! partId = Some part
                                 ∧ BodyParts.equipment part = Some itemId)
  ∧ (ok = false → this' = this)
  ∧ (ok = true →
     ∀ k, bodyParts (system this') !! k
          = if decide (k = partId) then BodyParts.set_equipment None <$> m !! k
            else m !! k).
Proof.
  intros Hsis m this' ok. subst this' ok.
  destruct (m !! partId) as [part|] eqn:Hpart.
  2:{ unfold unequipFromBodyPart. fold m. rewrite Hpart. cbn [fst snd].
      split; [done|]. split; [|done]. split; [done|]. by intros (? & ? & ? & _). }
  destruct (BodyParts.equipment part) as [e|] eqn:He.
  2:{ unfold unequipFromBodyPart. fold m. rewrite Hpart, He.
      cbn [JS.truthy_id negb fst snd]. split; [done|]. split; [|done]. split; [done|].
      intros (? & ? & [= <-] & ?). congruence. }
  destruct (unequipFromBodyPart_occupied this partId part e Hsis Hpart He)
    as (Hok & Hsis' & Hm' & _).
  split; [exact Hsis'|]. rewrite Hok. split; [|split; [done|]].
  - split; [|done]. intros _. by exists part, e.
  - intros _ k. rewrite Hm'. fold m. destruct (decide (k = partId)) as [->|Hk].
    + by rewrite lookup_insert_eq, Hpart.
    + by rewrite lookup_insert_ne.
Qed.

Lemma items_get_update (item' : Item) (items : list Item) :
  (∃ old, old ∈ items ∧ item_id old = item_id item') →
  items_get (items_update item' items) (item_id item') = Some item'.
Proof.
  unfold items_get, items_update. induction items as [|a l IH]; intros (old & Hin & Hid).
  - by apply elem_of_nil in Hin.
  - rewrite fmap_cons. cbn [find].
    destruct (String.eqb (item_id a) (item_id item')) eqn:E.
    + by rewrite String.eqb_refl.
    + rewrite E. apply IH. exists old. split; [|done].
      apply elem_of_cons in Hin as [->|Hin]; [|done].
      apply String.eqb_neq in E. done.
Qed.

Lemma alter_as_insert m partId (part : BodyParts.BodyPart) f :
  m !! partId = Some part → alter f partId m = <[partId := f part]> m.
Proof.
  intros Hp. apply map_eq. intros k. destruct (decide (k = partId)) as [->|Hk].
  - by rewrite lookup_alter_eq, lookup_insert_eq, Hp.
  - by rewrite lookup_alter_ne, lookup_insert_ne.
Qed.

(** Filling an empty slot and flagging the item. *)
Lemma fill_slotsInStep this itemId partId part :
  slotsInStep this →
  bodyParts (system this) !! partId = Some part →
  BodyParts.equipment part = None →
  is_Some (items_get (items this) itemId) →
  let m' := <[partId := BodyParts.set_equipment (Some itemId) part]>
              (bodyParts (system this)) in
  let filled := Mutation.update_bodyParts m' this in
  let this' :=
    match items_get (items filled) itemId with
    | Some item => if negb (equipped (item_system item))
                   then markEquipped true item filled else filled
    | None => filled
    end in
  slotsInStep this'
  ∧ bodyParts (system this') = m'
  ∧ (∃ item', items_get (items this') itemId = Some item'
              ∧ equipped (item_system item') = true).
Proof.
  intros Hsis Hpart He [item Hitem] m' filled this'.
  set (m := bodyParts (system this)) in *.
  apply items_get_Some in Hitem as Hitem'. destruct Hitem' as [Hin Hid].
  assert (Hne : itemId ≠ "").
  { rewrite <- Hid. by apply (sis_nonempty _ Hsis). }
  assert (Hheld : ∀ x, held m' x ↔ x = itemId ∨ held m x).
  { intros x. subst m'. rewrite held_insert, (held_split m partId part x Hpart), He.
    split.
    - intros [[= ->]|?]; [by left|right; by right].
    - intros [->|[?|?]]; [by left|done|by right]. }
  assert (Hslots' : ∀ k p, m' !! k = Some p → BodyParts.equipment p ≠ Some "").
  { intros k p [[<- <-]|[_ Hk]]%lookup_insert_Some.
    - cbn. congruence.
    - by apply (sis_slots _ Hsis k p). }
  subst this'. change (items filled) with (items this). rewrite Hitem.
  destruct (equipped (item_system item)) eqn:Heq; cbn [negb].
  - split; [|split; [apply bodyParts_update|by exists item]].
    split.
    + apply (sis_ids _ Hsis).
    + apply (sis_nonempty _ Hsis).
    + unfold filled. rewrite bodyParts_update. exact Hslots'.
    + intros x Hx. unfold filled. rewrite bodyParts_update, Hheld.
      rewrite (sis_flags _ Hsis x Hx). fold m. split; [by right|].
      intros [Hxid|?]; [|done].
      assert (x = item) as -> by (apply (items_unique (items this)); try done;
                                    [apply (sis_ids _ Hsis)|congruence]).
      by apply (sis_flags _ Hsis item Hin).
  - unfold markEquipped, filled. cbn [items system set_items].
    rewrite bodyParts_update.
    set (item' := set_item_system (set_equipped true (item_system item)) item).
    assert (Hflag : equipped (item_system item') = true).
    { subst item'. cbn. by destruct (item_system item). }
    split; [|split; [done|]].
    2:{ exists item'. split; [|done]. rewrite <- Hid.
        change (item_id item) with (item_id item').
        apply items_get_update. by exists item. }
    split; cbn [items system set_items].
    + rewrite items_update_ids. apply (sis_ids _ Hsis).
    + intros x [[-> _]|[Hx _]]%elem_of_items_update; [|by apply (sis_nonempty _ Hsis)].
      cbn. by apply (sis_nonempty _ Hsis).
    + rewrite bodyParts_update. exact Hslots'.
    + rewrite bodyParts_update.
      intros x [[-> _]|[Hx Hxid]]%elem_of_items_update.
      * rewrite Hflag, Hheld. cbn [item_id item' set_item_system]. split; [|done].
        intros _. by left.
      * cbn [item_id item' set_item_system] in Hxid. rewrite Hheld.
        rewrite (sis_flags _ Hsis x Hx). fold m. split; [by right|].
        intros [?|?]; [congruence|done].
Qed.

Lemma fillSlot_slotsInStep this itemId partId part :
  slotsInStep this →
  bodyParts (system this) !! partId = Some part →
  BodyParts.equipment part = None →
  is_Some (items_get (items this) itemId) →
  (fillSlot this itemId partId).2 = true
  ∧ slotsInStep (fillSlot this itemId partId).1
  ∧ bodyParts (system (fillSlot this itemId partId).1)
    = <[partId := BodyParts.set_equipment (Some itemId) part]> (bodyParts (system this))
  ∧ (∃ item', items_get (items (fillSlot this itemId partId).1) itemId = Some item'
              ∧ equipped (item_system item') = true).
Proof.
  intros Hsis Hpart He Hitem.
  pose proof (fill_slotsInStep this itemId partId part Hsis Hpart He Hitem) as Hfill.
  cbv zeta in Hfill. unfold fillSlot.
  rewrite (alter_as_insert _ _ part) by done.
  destruct (items_get
              (items (Mutation.update_bodyParts
                        (<[partId:=BodyParts.set_equipment (Some itemId) part]>
                           (bodyParts (system this))) this)) itemId) as [item|];
    [destruct (negb (equipped (item_system item)))|]; cbn [fst snd]; by split.
Qed.

Lemma equipToBodyPart_steps this itemId partId :
  equipToBodyPart this itemId partId
  = match items_get (items this) itemId, bodyParts (system this) !! partId with
    | Some item, Some part =>
        if negb (BodyParts.canEquipItem part) then (this, false)
        else
          match CAVESOFQUD.bodyPartTypes (BodyParts.type part) with
          | None => (this, false)
          | Some partType =>
              if String.eqb (item_type item) "armor"
                 && negb (String.eqb (slot (item_system item))
                            (CAVESOFQUD.slotType partType))
              then (this, false)
              else if String.eqb (item_type item) "weapon"
                      && negb (BodyParts.canWieldWeapon part)
              then (this, false)
              else if Actor.isEquipmentBlocked this (Some part) (item_type item)
              then (this, false)
              else
                fillSlot (if JS.truthy_id (BodyParts.equipment part)
                          then (unequipFromBodyPart this partId).1 else this)
                  itemId partId
          end
    | _, _ => (this, false)
    end.
Proof. reflexivity. Qed.

(** X15.  [equipToBodyPart] keeps slots and equipped flags in step.  A
    refused call changes nothing.  An accepted call means the item and the
    part exist, the part's type can equip, armor matches the part's slot
    type, a weapon goes to a part that can wield, and no active mutation
    blocks the item type; afterwards the part holds the item (a previous
    occupant is unequipped first), every other part is unchanged, and the
    item is flagged equipped. *)
Theorem equipToBodyPart_slotsInStep this itemId partId :
  slotsInStep this →
  let m := bodyParts (system this) in
  let this' := (equipToBodyPart this itemId partId).1 in
  let ok := (equipToBodyPart this itemId partId).2 in
  slotsInStep this'
  ∧ (ok = false → this' = this)
  ∧ (ok = true →
     ∃ item part partType,
       items_get (items this) itemId = Some item
       ∧ m !! partId = Some part
       ∧ CAVESOFQUD.bodyPartTypes (BodyParts.type part) = Some partType
       ∧ CAVESOFQUD.canEquip partType = true
       ∧ (item_type item = "armor" →
          slot (item_system item) = CAVESOFQUD.slotType partType)
       ∧ (item_type item = "weapon" → CAVESOFQUD.canWield partType = true)
       ∧ Actor.isEquipmentBlocked this (Some part) (item_type item) = false
       ∧ bodyParts (system this')
         = <[partId := BodyParts.set_equipment (Some itemId) part]> m
       ∧ (∃ item', items_get (items this') itemId = Some item'
                   ∧ equipped (item_system item') = true)).
Proof.
  intros Hsis m this' ok. subst this' ok. rewrite equipToBodyPart_steps. fold m.
  destruct (items_get (items this) itemId) as [item|] eqn:Hitem; [|by cbn].
  destruct (m !! partId) as [part|] eqn:Hpart; [|by cbn].
  unfold BodyParts.canEquipItem, BodyParts.canWieldWeapon.
  destruct (CAVESOFQUD.bodyPartTypes (BodyParts.type part)) as [partType|] eqn:Ht;
    [|by cbn].
  destruct (CAVESOFQUD.canEquip partType) eqn:Hcan; cbn [negb]; [|by cbn].
  destruct (String.eqb (item_type item) "armor"
            && negb (String.eqb (slot (item_system item)) (CAVESOFQUD.slotType partType)))
    eqn:Harmor; [by cbn|].
  destruct (String.eqb (item_type item) "weapon" && negb (CAVESOFQUD.canWield partType))
    eqn:Hweapon; [by cbn|].
  destruct (Actor.isEquipmentBlocked this (Some part) (item_type item)) eqn:Hblocked;
    [by cbn|].
  assert (Hguards :
    (item_type item = "armor" → slot (item_system item) = CAVESOFQUD.slotType partType)
    ∧ (item_type item = "weapon" → CAVESOFQUD.canWield partType = true)).
  { split.
    - intros Ha. rewrite Ha in Harmor. cbn in Harmor.
      apply negb_false_iff, String.eqb_eq in Harmor. done.
    - intros Hw. rewrite Hw in Hweapon. cbn in Hweapon.
      by apply negb_false_iff in Hweapon. }
  destruct Hguards as [Hga Hgw].
  assert (Hsome : is_Some (items_get (items this) itemId)) by (by exists item).
  destruct (BodyParts.equipment part) as [e|] eqn:He.
  - assert (Hne : e ≠ "").
    { intros ->. by apply (sis_slots _ Hsis partId part Hpart). }
    cbn [JS.truthy_id]. apply String.eqb_neq in Hne as Hneb. rewrite Hneb. cbn [negb].
    destruct (unequipFromBodyPart_occupied this partId part e Hsis Hpart He)
      as (_ & Hsis1 & Hm1 & Hids & _).
    set (this1 := (unequipFromBodyPart this partId).1) in *. fold m in Hm1.
    assert (Hp1 : bodyParts (system this1) !! partId
                  = Some (BodyParts.set_equipment None part)).
    { by rewrite Hm1, lookup_insert_eq. }
    assert (Hsome1 : is_Some (items_get (items this1) itemId)).
    { apply items_get_is_Some. rewrite Hids. by apply items_get_is_Some. }
    destruct (fillSlot_slotsInStep this1 itemId partId _ Hsis1 Hp1 eq_refl Hsome1)
      as (Hok & Hsis2 & Hm2 & Hflag).
    split; [exact Hsis2|]. rewrite Hok. split; [done|]. intros _.
    exists item, part, partType. do 7 (split; [done|]). split; [|exact Hflag].
    by rewrite Hm2, Hm1, insert_insert_eq.
  - cbn [JS.truthy_id].
    destruct (fillSlot_slotsInStep this itemId partId part Hsis Hpart He Hsome)
      as (Hok & Hsis2 & Hm2 & Hflag).
    split; [exact Hsis2|]. rewrite Hok. split; [done|]. intros _.
    exists item, part, partType. do 7 (split; [done|]). by split.
Qed.

Lemma items_update_same (item : Item) (items : list Item) :
  NoDup (item_id <$> items) → item ∈ items → items_update item items = items.
Proof.
  intros Hnd Hin. unfold items_update.
  rewrite <- (list_fmap_id items) at 2. apply list_fmap_ext.
  intros i x Hx. cbn. destruct (String.eqb (item_id x) (item_id item)) eqn:E; [|done].
  apply String.eqb_eq in E. symmetry.
  eapply items_unique; [done| |done|done]. by eapply list_elem_of_lookup_2.
Qed.

Lemma items_update_twice (a b : Item) (items : list Item) :
  item_id a = item_id b → items_update a (items_update b items) = items_update a items.
Proof.
  intros Hab. unfold items_update. rewrite <- list_fmap_compose.
  apply list_fmap_ext. intros i x _. cbn.
  destruct (String.eqb (item_id x) (item_id b)) eqn:E.
  - apply String.eqb_eq in E. by rewrite E, <- Hab, String.eqb_refl.
  - done.
Qed.

Lemma set_equipment_None (part : BodyParts.BodyPart) :
  BodyParts.equipment part = None → BodyParts.set_equipment None part = part.
Proof. destruct part. cbn. by intros ->. Qed.

Lemma update_bodyParts_same this :
  Mutation.update_bodyParts (bodyParts (system this)) this = this.
Proof. by destruct this as [? ? ? []]. Qed.

Lemma update_bodyParts_twice m m' this :
  Mutation.update_bodyParts m (Mutation.update_bodyParts m' this)
  = Mutation.update_bodyParts m this.
Proof. by destruct this as [? ? ? []]. Qed.

(** X16.  Equipping an item into an empty slot and then unequipping that
    slot restores the actor exactly, also when another part already held the
    item. *)
Theorem equipToBodyPart_unequipFromBodyPart this itemId partId part :
  slotsInStep this →
  bodyParts (system this) !! partId = Some part →
  BodyParts.equipment part = None →
  (equipToBodyPart this itemId partId).2 = true →
  unequipFromBodyPart (equipToBodyPart this itemId partId).1 partId = (this, true).
Proof.
  intros Hsis Hpart He. rewrite equipToBodyPart_steps, Hpart.
  destruct (items_get (items this) itemId) as [item|] eqn:Hitem; [|done].
  destruct (negb (BodyParts.canEquipItem part)); [done|].
  destruct (CAVESOFQUD.bodyPartTypes (BodyParts.type part)) as [partType|]; [|done].
  destruct (_ && _); [done|]. destruct (_ && _); [done|].
  destruct (Actor.isEquipmentBlocked _ _ _); [done|].
  rewrite He. cbn [JS.truthy_id]. intros _.
  destruct (items_get_Some _ _ _ Hitem) as [Hin Hid].
  assert (Hne : itemId ≠ "").
  { rewrite <- Hid. by apply (sis_nonempty _ Hsis). }
  apply String.eqb_neq in Hne as Hneb.
  set (m := bodyParts (system this)) in *.
  set (part' := BodyParts.set_equipment (Some itemId) part).
  assert (Hback : <[partId := BodyParts.set_equipment None part']> (<[partId := part']> m)
                  = m).
  { rewrite insert_insert_eq.
    change (BodyParts.set_equipment None part') with (BodyParts.set_equipment None part).
    rewrite set_equipment_None by done. by apply insert_id. }
  unfold fillSlot. fold m. rewrite (alter_as_insert _ _ part) by done. fold part'.
  rewrite items_update_bodyParts, Hitem.
  destruct (equipped (item_system item)) eqn:Heq; cbn [negb fst].
  - (* the item was already held by another part *)
    unfold unequipFromBodyPart.
    rewrite bodyParts_update, lookup_insert_eq.
    change (BodyParts.equipment part') with (Some itemId).
    change (default "" (Some itemId)) with itemId.
    cbn [JS.truthy_id]. rewrite Hneb. cbn [negb].
    rewrite items_update_bodyParts, Hitem, Hback.
    assert (Hheld : stillEquipped m itemId = true).
    { apply stillEquipped_held. rewrite <- Hid. by apply (sis_flags _ Hsis). }
    rewrite Hheld, update_bodyParts_twice. unfold m.
    by rewrite update_bodyParts_same.
  - (* the item was not equipped *)
    set (item1 := set_item_system (set_equipped true (item_system item)) item).
    unfold unequipFromBodyPart, markEquipped. fold item1.
    change (bodyParts (system (set_items ?l ?t))) with (bodyParts (system t)).
    rewrite bodyParts_update, lookup_insert_eq.
    change (BodyParts.equipment part') with (Some itemId).
    change (default "" (Some itemId)) with itemId.
    cbn [JS.truthy_id]. rewrite Hneb. cbn [negb].
    change (items (set_items ?l ?t)) with l.
    rewrite items_update_bodyParts.
    assert (Hget1 : items_get (items_update item1 (items this)) itemId = Some item1).
    { rewrite <- Hid. change (item_id item) with (item_id item1).
      apply items_get_update. by exists item. }
    rewrite Hget1, Hback.
    assert (Hfree : stillEquipped m itemId = false).
    { apply not_true_is_false. intros Hheld%stillEquipped_held.
      rewrite <- Hid in Hheld. apply (sis_flags _ Hsis) in Hheld; [|done].
      congruence. }
    rewrite Hfree.
    change (items (Mutation.update_bodyParts ?b (set_items ?l ?t))) with l.
    assert (Hitem0 : set_item_system (set_equipped false (item_system item1)) item1 = item).
    { destruct item as [? ? ? []]. cbn in Heq. by subst. }
    rewrite Hitem0, items_update_twice by done.
    rewrite items_update_same by (done || apply (sis_ids _ Hsis)).
    f_equal. destruct this as [? ? ? []]. reflexivity.
Qed.

Lemma gearedActor_slotsInStep : slotsInStep gearedActor.
Proof.
  split.
  - cbn. apply NoDup_cons. split; [|apply NoDup_singleton].
    by intros ?%list_elem_of_singleton.
  - intros item Hin. cbn in Hin.
    repeat (apply elem_of_cons in Hin as [->|Hin]; [done|]).
    by apply elem_of_nil in Hin.
  - intros k p Hk. cbn in Hk. unfold sampleBody in Hk. each_part Hk; done.
  - intros item Hin. cbn in Hin.
    apply elem_of_cons in Hin as [->|Hin].
    { split; [|done]. intros _. by exists "hand", (samplePart "hand" "Hand" (Some "arm") [] (Some "sword")). }
    apply list_elem_of_singleton in Hin as ->.
    split; [done|]. intros (k & p & Hk & Hp). cbn in Hk. unfold sampleBody in Hk.
    each_part Hk; done.
Qed.

Lemma unequipFromBodyPart_slotsInStep_witness :
  slotsInStep (unequipFromBodyPart gearedActor "hand").1
  ∧ (unequipFromBodyPart gearedActor "hand").2 = true
  ∧ (unequipFromBodyPart gearedActor "head").1 = gearedActor.
Proof.
  destruct (unequipFromBodyPart_slotsInStep gearedActor "hand" gearedActor_slotsInStep)
    as (Hstep & _).
  destruct (unequipFromBodyPart_slotsInStep gearedActor "head" gearedActor_slotsInStep)
    as (_ & _ & Hsame & _).
  split; [exact Hstep|]. split; [reflexivity|]. apply Hsame. reflexivity.
Defined.

Lemma equipToBodyPart_slotsInStep_witness :
  slotsInStep (equipToBodyPart gearedActor "helm" "head").1
  ∧ (equipToBodyPart gearedActor "helm" "head").2 = true
  ∧ (equipToBodyPart gearedActor "helm" "hand").1 = gearedActor.
Proof.
  destruct (equipToBodyPart_slotsInStep gearedActor "helm" "head" gearedActor_slotsInStep)
    as (Hstep & _).
  destruct (equipToBodyPart_slotsInStep gearedActor "helm" "hand" gearedActor_slotsInStep)
    as (_ & Hsame & _).
  split; [exact Hstep|]. split; [reflexivity|]. apply Hsame. reflexivity.
Defined.

Lemma equipToBodyPart_unequipFromBodyPart_witness :
  unequipFromBodyPart (equipToBodyPart gearedActor "helm" "head").1 "head"
  = (gearedActor, true).
Proof.
  apply (equipToBodyPart_unequipFromBodyPart gearedActor "helm" "head"
           (samplePart "head" "Head" (Some "body") [] None)).
  - exact gearedActor_slotsInStep.
  - reflexivity.
  - reflexivity.
  - reflexivity.
Defined.

End Equipping.

(** ** Attacks *)

Section Attacks.
Import Data Combat.

Variable evalFormula : string → Z → Z.
Variable entries : gmap string BodyParts.BodyPart → list (string * BodyParts.BodyPart).
Variable rollTotal : option string → Dice.Rolling Z.

Lemma fight_bind_Returned {A B} (m : Fight A) (k : A → Fight B) dice b rest :
  (m ≫= k) dice = Some (Returned b, rest) →
  ∃ a dice', m dice = Some (Returned a, dice') ∧ k a dice' = Some (Returned b, rest).
Proof.
  unfold mbind, fight_bind.
  destruct (m dice) as [[[message| |a] dice']|]; try done.
  intros Hk. by exists a, dice'.
Qed.

Lemma rolled_Returned {A} (m : Dice.Rolling A) dice a rest :
  rolled m dice = Some (Returned a, rest) → m dice = Some (a, rest).
Proof.
  unfold rolled. destruct (m dice) as [[a' dice']|]; [|done]. by intros [= -> ->].
Qed.

Lemma nextFace_Some dice face rest :
  nextFace dice = Some (face, rest) → dice = face :: rest.
Proof. destruct dice; [done|]. by intros [= -> ->]. Qed.

Lemma damageLoop_spec n damage : ∀ damageRolls totalDamage dice rolls total rest,
  damageLoop rollTotal n damage damageRolls totalDamage dice = Some (rolls, total, rest) →
  ∃ new, rolls = damageRolls ++ new ∧ length new = n
         ∧ total = totalDamage + JS.sumZ new.
Proof.
  induction n as [|n IH]; intros damageRolls totalDamage dice rolls total rest; cbn.
  - intros [= <- <- <-]. exists []. rewrite app_nil_r, sumZ_nil. split; [done|].
    split; [done|lia].
  - intros Hrun. apply rolling_bind_Some in Hrun as (t & dice' & _ & Hrun).
    apply IH in Hrun as (new & -> & <- & ->).
    exists (t :: new). rewrite <- (assoc_L (++)), sumZ_cons. split; [done|].
    split; [done|lia].
Qed.

Lemma resolvePenetration_count attackerPV defenderAV dice p rest :
  Dice.resolvePenetration attackerPV defenderAV dice = Some (p, rest) →
  0 ≤ Dice.totalPenetrations p
  ∧ 2 * Dice.totalPenetrations p ≤ Z.max 0 (attackerPV + 1).
Proof.
  unfold Dice.resolvePenetration. intros Hrun.
  apply rolling_bind_Some in Hrun as ([[cur' tot'] ts'] & dice' & Hloop & Hret).
  injection Hret as <- <-. simpl.
  apply penetrationLoop_spec in Hloop as (new & -> & -> & -> & Hk & _ & Hlast).
  destruct (chain_counts new) as [Hs Hf].
  { intros k t Hlook. apply Hk in Hlook as ((s1 & s2 & s3 & ->) & _ & Hnext).
    destruct (evaluateTriplet_penetrations (attackerPV - 2 * Z.of_nat k) defenderAV
                [s1; s2; s3]) as [? ?]. done. }
  assert (Hn : 2 * Z.of_nat (length new) ≤ Z.max 0 (attackerPV + 1)).
  { destruct (decide (new = [])) as [->|Hne]; [simpl; lia|].
    destruct (last new) as [t|] eqn:El; [|by apply last_None in El].
    rewrite last_lookup in El. apply Hk in El as (_ & Hpos & _).
    destruct new; [done|]. cbn [length pred] in *. lia. }
  lia.
Qed.

(** X17.  When [executeHandAttack] returns, it took one die for the to-hit
    roll, and it hit iff that face plus the AGI modifier reaches the target's
    DV.  After a miss no further die is taken and penetration, damage rolls
    and total damage are absent.  After a hit the weapon damage was rolled
    exactly once per penetration, the total damage is the sum of those
    rolls, and twice their number is at most PV + 1 for the combined PV of
    attacker and weapon: none when that PV is not positive. *)
Theorem executeHandAttack_damage weapon attacker target bodyPartId dice r rest :
  executeHandAttack rollTotal weapon attacker target bodyPartId dice
  = Some (Returned r, rest) →
  let agiMod := attr_mod (agility (attributes (system attacker))) in
  let attackerPV := pv (combat (system attacker)) + pvOf weapon in
  ∃ face dice1,
    dice = face :: dice1
    ∧ toHitTotal r = face + agiMod
    ∧ (hit r = true ↔ dv (combat (system target)) ≤ face + agiMod)
    ∧ (hit r = false →
       rest = dice1 ∧ penetration r = None ∧ damageRolls r = None
       ∧ totalDamage r = None)
    ∧ (hit r = true →
       ∃ p rolls,
         penetration r = Some p ∧ damageRolls r = Some rolls
         ∧ totalDamage r = Some (JS.sumZ rolls)
         ∧ Z.of_nat (length rolls) = Dice.totalPenetrations p
         ∧ 2 * Z.of_nat (length rolls) ≤ Z.max 0 (attackerPV + 1)).
Proof.
  unfold executeHandAttack.
  destruct (bodyParts (system attacker) !! bodyPartId) as [bodyPart|]; [|done].
  intros Hrun. apply fight_bind_Returned in Hrun as (face & dice1 & Hface & Hrun).
  apply rolled_Returned, nextFace_Some in Hface as ->.
  exists face, dice1. split; [done|].
  destruct (dv (combat (system target)) <=? face + _) eqn:Hhit; cbn [negb] in Hrun.
  - apply Z.leb_le in Hhit.
    apply fight_bind_Returned in Hrun as (p & dice2 & Hpen & Hrun).
    apply rolled_Returned in Hpen.
    destruct (resolvePenetration_count _ _ _ _ _ Hpen) as [Hp0 Hp2].
    destruct (Dice.totalPenetrations p =? 0) eqn:Hzero.
    + apply Z.eqb_eq in Hzero. injection Hrun as <- <-. cbn.
      split; [done|]. split; [done|]. split; [done|]. intros _.
      exists p, []. rewrite sumZ_nil. cbn. repeat split; try done; lia.
    + apply fight_bind_Returned in Hrun as ([rolls total] & dice3 & Hloop & Hrun).
      apply rolled_Returned, damageLoop_spec in Hloop as (new & -> & Hlen & ->).
      injection Hrun as <- <-. cbn.
      split; [done|]. split; [done|]. split; [done|]. intros _.
      exists p, new. rewrite Hlen, Z2Nat.id by done.
      repeat split; done.
  - apply Z.leb_gt in Hhit. injection Hrun as <- <-. cbn.
    split; [done|]. split; [|split; [done|done]].
    split; [done|]. intros ?. lia.
Qed.

Lemma neverThrows_ret {A} (P : A → Prop) (a : A) : P a → neverThrows P (mret a).
Proof. intros HP dice. right. by exists a, dice. Qed.

Lemma neverThrows_bind {A B} (Q : A → Prop) (P : B → Prop) (m : Fight A)
    (k : A → Fight B) :
  neverThrows Q m → (∀ a, Q a → neverThrows P (k a)) → neverThrows P (m ≫= k).
Proof.
  intros Hm Hk dice. unfold mbind, fight_bind.
  destruct (Hm dice) as [->|(a & dice' & -> & HQ)]; [by left|].
  apply (Hk a HQ).
Qed.

Lemma neverThrows_rolled {A} (m : Dice.Rolling A) : neverThrows (λ _, True) (rolled m).
Proof.
  intros dice. unfold rolled. destruct (m dice) as [[a dice']|]; [|by left].
  right. by exists a, dice'.
Qed.

Lemma neverThrows_mono {A} (P Q : A → Prop) (m : Fight A) :
  (∀ a, P a → Q a) → neverThrows P m → neverThrows Q m.
Proof.
  intros HPQ Hm dice. destruct (Hm dice) as [->|(a & rest & -> & HP)]; [by left|].
  right. exists a, rest. auto.
Qed.

Lemma executeHandAttack_neverThrows weapon attacker target bodyPartId :
  is_Some (bodyParts (system attacker) !! bodyPartId) →
  neverThrows (λ r, Combat.bodyPartId r = bodyPartId)
    (executeHandAttack rollTotal weapon attacker target bodyPartId).
Proof.
  intros [bodyPart Hpart]. unfold executeHandAttack. rewrite Hpart.
  eapply neverThrows_bind; [apply neverThrows_rolled|]. intros face _. cbv zeta.
  destruct (negb _); [by apply neverThrows_ret|].
  eapply neverThrows_bind; [apply neverThrows_rolled|]. intros p _.
  destruct (_ =? 0); [by apply neverThrows_ret|].
  eapply neverThrows_bind; [apply neverThrows_rolled|]. intros r _.
  by apply neverThrows_ret.
Qed.


Lemma executeOffhandAttack_id weapon attacker target bodyPartId chance dice r rest :
  executeOffhandAttack rollTotal weapon attacker target bodyPartId chance dice
  = Some (Returned r, rest) →
  off_bodyPartId r = bodyPartId.
Proof.
  unfold executeOffhandAttack.
  destruct (bodyParts (system attacker) !! bodyPartId) as [bodyPart|]; [|done].
  intros Hrun. apply fight_bind_Returned in Hrun as (face & dice1 & _ & Hrun).
  cbv zeta in Hrun. destruct (negb _).
  - by injection Hrun as <- <-.
  - apply fight_bind_Returned in Hrun as (a & dice2 & _ & Hrun).
    by injection Hrun as <- <-.
Qed.

(** The offhand parts that have a weapon to attack with. *)
Lemma offhandLoop_ids attacker target offHands : ∀ acc dice results rest,
  offhandLoop evalFormula rollTotal attacker target offHands acc dice
  = Some (Returned results, rest) →
  off_bodyPartId <$> results
  = (off_bodyPartId <$> acc)
    ++ (BodyParts.id
          <$> List.filter (λ h, notNull (weaponOf evalFormula attacker h)) offHands).
Proof.
  induction offHands as [|h offHands IH]; intros acc dice results rest; cbn.
  - intros [= <- <-]. by rewrite app_nil_r.
  - destruct (weaponOf evalFormula attacker h) as [w|]; cbn; [|apply IH].
    intros Hrun. apply fight_bind_Returned in Hrun as (r & dice1 & Hr & Hrun).
    apply executeOffhandAttack_id in Hr. apply IH in Hrun.
    rewrite Hrun, fmap_app, <- (assoc_L (++)). cbn. by rewrite Hr.
Qed.


Lemma filter_sublist {A} (f : A → bool) (l : list A) : List.filter f l `sublist_of` l.
Proof.
  induction l as [|x l IH]; cbn; [done|].
  destruct (f x); [by apply sublist_skip|by apply sublist_cons].
Qed.

Lemma elem_of_List_filter {A} (f : A → bool) (l : list A) x :
  x ∈ List.filter f l ↔ x ∈ l ∧ f x = true.
Proof. rewrite !list_elem_of_In. apply filter_In. Qed.

(** The offhands are stored parts other than the main hand, each listed
    once. *)
Lemma getOffHands_keys this :
  let m := bodyParts (system this) in
  entries m ≡ₚ map_to_list m → keyedById m →
  NoDup (BodyParts.id <$> getOffHands evalFormula entries this)
  ∧ ∀ h, h ∈ getOffHands evalFormula entries this →
         m !! BodyParts.id h = Some h
         ∧ Some (BodyParts.id h) ≠ mainHandId (combat (system this)).
Proof.
  intros m Hperm Hkey. unfold getOffHands. fold m.
  set (q := λ e : string * BodyParts.BodyPart, _ && _).
  assert (Hin : ∀ e, e ∈ List.filter q (entries m) →
                     m !! e.1 = Some e.2 ∧ BodyParts.id e.2 = e.1
                     ∧ Some e.1 ≠ mainHandId (combat (system this))).
  { intros [k p] [He Hq]%elem_of_List_filter. rewrite Hperm in He.
    apply elem_of_map_to_list in He. cbn. split; [done|]. split; [by apply Hkey|].
    unfold q in Hq. cbn in Hq. apply andb_true_iff in Hq as [Hq _].
    apply negb_true_iff, bool_decide_eq_false in Hq. done. }
  split.
  - rewrite <- list_fmap_compose.
    assert (Hfst : (BodyParts.id ∘ snd) <$> List.filter q (entries m)
                   = fst <$> List.filter q (entries m)).
    { apply Forall_fmap_ext, Forall_forall. intros e He.
      destruct (Hin e He) as (_ & ? & _). done. }
    rewrite Hfst. apply (sublist_NoDup _ ((entries m).*1)).
    + rewrite Hperm. apply NoDup_fst_map_to_list.
    + apply fmap_sublist, filter_sublist.
  - intros h (e & -> & He)%list_elem_of_fmap.
    destruct (Hin e He) as (Hlook & Hid & Hne). rewrite Hid. done.
Qed.

Lemma getMainHand_Some this part :
  keyedById (bodyParts (system this)) →
  getMainHand this = Some part →
  mainHandId (combat (system this)) = Some (BodyParts.id part)
  ∧ bodyParts (system this) !! BodyParts.id part = Some part.
Proof.
  intros Hkey. unfold getMainHand.
  destruct (mainHandId (combat (system this))) as [k|]; [|done]. cbn.
  destruct (negb (negb _)); [done|]. intros Hpart.
  by rewrite (Hkey _ _ Hpart).
Qed.


Lemma neverThrows_Returned {A} (P : A → Prop) (m : Fight A) dice a rest :
  neverThrows P m → m dice = Some (Returned a, rest) → P a.
Proof.
  intros Hm Hrun. destruct (Hm dice) as [Hnone|(a' & rest' & Hsome & HP)]; [congruence|].
  rewrite Hrun in Hsome. by injection Hsome as -> _.
Qed.

Lemma health_set_health h systemData : health (set_health h systemData) = h.
Proof. by destruct systemData. Qed.

Lemma applyDamage_health this amount :
  health_value (health (system (applyDamage this amount)))
  = Z.max 0 (health_value (health (system this)) - amount).
Proof. by destruct this as [? ? ? []]. Qed.

Lemma applyDamage_0 this :
  0 ≤ health_value (health (system this)) → applyDamage this 0 = this.
Proof.
  destruct this as [? ? ? [? ? [v ? ?] ? ? ? ? ? ? ? ? ? ? ?]]. cbn. intros Hv.
  unfold applyDamage. cbn. by rewrite Z.sub_0_r, Z.max_r.
Qed.

(** X18.  When [executeMultiWeaponAttack] returns on a body whose parts are
    stored under their own ids, for a target with non-negative hit points:
    there is one main-hand result, for the designated part, and no part
    attacks twice; the total damage is that of the main hand, if it hit with
    a non-zero total, plus that of the offhands that triggered and hit with
    a non-zero total; the target after the call is the target with
    max(0, total) damage applied, so its hit points never rise (even when
    damage totals are negative) and never fall below zero. *)
Theorem executeMultiWeaponAttack_accounting attacker target dice results target'
    rest :
  let m := bodyParts (system attacker) in
  entries m ≡ₚ map_to_list m → keyedById m →
  0 ≤ health_value (health (system target)) →
  executeMultiWeaponAttack evalFormula entries rollTotal attacker target dice
  = Some (Returned (results, target'), rest) →
  let total := results_totalDamage results in
  (∃ main,
     mainHandResults results = [main]
     ∧ mainHandId (combat (system attacker)) = Some (bodyPartId main)
     ∧ NoDup (bodyPartId main :: (off_bodyPartId <$> offHandResults results))
     ∧ total
       = (if dealtDamage main then damageOfHand main else 0)
         + JS.sumZ (damageOfOffhand
                      <$> List.filter offhandDealtDamage (offHandResults results)))
  ∧ target' = applyDamage target (Z.max 0 total)
  ∧ targetHPBefore results = health_value (health (system target))
  ∧ targetHPAfter results = health_value (health (system target'))
  ∧ 0 ≤ targetHPAfter results ≤ targetHPBefore results.
Proof.
  intros m Hperm Hkey Hhp. unfold executeMultiWeaponAttack.
  destruct (getMainHand attacker) as [mainHand|] eqn:Hmain; [|done].
  destruct (weaponOf evalFormula attacker mainHand) as [w|]; [|done].
  destruct (getMainHand_Some _ _ Hkey Hmain) as [Hid Hstored].
  intros Hrun. apply fight_bind_Returned in Hrun as (main & dice1 & Hhand & Hrun).
  apply fight_bind_Returned in Hrun as (offs & dice2 & Hloop & Hrun).
  assert (Hmid : bodyPartId main = BodyParts.id mainHand).
  { apply (neverThrows_Returned (λ r, bodyPartId r = BodyParts.id mainHand)
             _ _ _ _ (executeHandAttack_neverThrows w attacker target _
                        (mk_is_Some _ _ Hstored)) Hhand). }
  apply offhandLoop_ids in Hloop. rewrite app_nil_l in Hloop.
  destruct (getOffHands_keys attacker Hperm Hkey) as [Hnd Hoff].
  set (total := JS.sumZ _) in Hrun.
  assert (Htarget : (if 0 <? total then applyDamage target total else target)
                    = applyDamage target (Z.max 0 total)).
  { destruct (0 <? total) eqn:Hpos.
    - apply Z.ltb_lt in Hpos. by rewrite Z.max_r by lia.
    - apply Z.ltb_ge in Hpos. by rewrite Z.max_l, applyDamage_0 by lia. }
  rewrite Htarget in Hrun. injection Hrun as <- <- <-. cbv zeta.
  cbn [mainHandResults offHandResults results_totalDamage targetHPBefore targetHPAfter].
  split; [|split; [done|split; [done|split; [done|]]]];
    [|rewrite health_set_health; cbn [health_value]; lia].
  exists main. split; [done|]. split; [by rewrite Hmid|]. split.
  - rewrite Hloop, Hmid. apply NoDup_cons. split.
    + intros (h & Hh & Hin)%list_elem_of_fmap.
      apply elem_of_List_filter in Hin as [Hin _].
      destruct (Hoff h Hin) as [_ Hne]. apply Hne. by rewrite <- Hh.
    + eapply sublist_NoDup; [exact Hnd|]. apply fmap_sublist, filter_sublist.
  - unfold total. rewrite sumZ_app. cbn [List.filter].
    destruct (dealtDamage main);
      [rewrite fmap_cons, sumZ_cons|]; rewrite fmap_nil, sumZ_nil; lia.
Qed.









End Attacks.

Section AttackSamples.
Import Data Combat.

Lemma sampleBody_keyedById : keyedById sampleBody.
Proof. intros k p Hk. by destruct (wf_id _ _ sampleBody_wellFormed k p Hk). Qed.

Lemma executeHandAttack_damage_witness :
  ∃ r, executeHandAttack sampleRollTotal (ItemWeapon (sampleWeapon "sword" "1d4" (Some 4)))
         armedActor armedActor "hand" [15; 3; 3; 3; 3; 3; 3; 2; 3]
       = Some (Returned r, [])
       ∧ totalDamage r = Some 5
       ∧ (hit r = true →
          ∃ p rolls, penetration r = Some p ∧ damageRolls r = Some rolls
                     ∧ totalDamage r = Some (JS.sumZ rolls)
                     ∧ Z.of_nat (length rolls) = Dice.totalPenetrations p
                     ∧ 2 * Z.of_nat (length rolls) ≤ 5).
Proof.
  eexists. split; [vm_compute; reflexivity|]. split; [reflexivity|].
  destruct (executeHandAttack_damage sampleRollTotal
              (ItemWeapon (sampleWeapon "sword" "1d4" (Some 4)))
              armedActor armedActor "hand" [15; 3; 3; 3; 3; 3; 3; 2; 3] _ []
              ltac:(vm_compute; reflexivity))
    as (face & dice1 & _ & _ & _ & _ & Hhit).
  exact Hhit.
Defined.

Lemma executeMultiWeaponAttack_accounting_witness :
  ∃ results target',
    executeMultiWeaponAttack sampleEval sampleEntries sampleRollTotal
      (update_mainHandId (Some "hand") armedActor) armedActor
      [15; 3; 3; 3; 3; 3; 3; 2; 3]
    = Some (Returned (results, target'), [])
    ∧ results_totalDamage results = 5
    ∧ target' = applyDamage armedActor 5
    ∧ 0 ≤ targetHPAfter results ≤ targetHPBefore results.
Proof.
  eexists _, _. split; [vm_compute; reflexivity|]. split; [reflexivity|].
  destruct (executeMultiWeaponAttack_accounting sampleEval sampleEntries sampleRollTotal
              (update_mainHandId (Some "hand") armedActor) armedActor
              [15; 3; 3; 3; 3; 3; 3; 2; 3] _ _ []
              (reflexivity _) sampleBody_keyedById ltac:(done)
              ltac:(vm_compute; reflexivity))
    as (_ & Htarget & _ & _ & Hhp).
  split; [exact Htarget|exact Hhp].
Defined.



End AttackSamples.

(** ** Recomputing the derived stats: what a second run keeps *)

Section Twice.
Import Data Actor.
Variable evalFormula : string → Z → Z.

(** Each step writes its own fields and keeps the rest of the record. *)
Lemma calculateHP_shape s : _calculateHP s = set_health (health (_calculateHP s)) s.
Proof.
  unfold _calculateHP. destruct (level s =? 1).
  - by destruct s.
  - destruct (recalculateHistory _ _ _). by destruct s.
Qed.

Lemma applyEquipmentBonuses_shape its s :
  _applyEquipmentBonuses its s
  = set_combat {| dv := dv (combat s) + Qfloor (equipmentTotals its (bodyParts s)).2;
                  pv := pv (combat s);
                  ma := ma (combat s);
                  av := Qfloor (equipmentTotals its (bodyParts s)).1;
                  mainHandId := mainHandId (combat s) |} s.
Proof. unfold _applyEquipmentBonuses. by destruct (equipmentTotals _ _). Qed.

Lemma applyItemBonuses_shape s item :
  applyItemBonuses evalFormula s item
  = set_carryCapacity (carryCapacity (applyItemBonuses evalFormula s item))
      (set_movement (movement (applyItemBonuses evalFormula s item))
         (set_quickness (quickness (applyItemBonuses evalFormula s item)) s)).
Proof.
  unfold applyItemBonuses. destruct (negb (activeMutation item)); [by destruct s|].
  destruct (statBonuses (item_system item)) as [bonuses|]; [|by destruct s].
  destruct (bonusApplies (sb_carryCapacity bonuses)),
    (bonusApplies (sb_movementSpeed bonuses)),
    (bonusApplies (sb_quickness bonuses)); by destruct s.
Qed.

Lemma applyMutationBonuses_shape its : ∀ s,
  _applyMutationBonuses evalFormula its s
  = set_carryCapacity (carryCapacity (_applyMutationBonuses evalFormula its s))
      (set_movement (movement (_applyMutationBonuses evalFormula its s))
         (set_quickness (quickness (_applyMutationBonuses evalFormula its s)) s)).
Proof.
  unfold _applyMutationBonuses.
  induction its as [|item its IH]; intros s; cbn [foldl]; [by destruct s|].
  rewrite IH at 1. rewrite (applyItemBonuses_shape s item) at 4.
  by destruct s.
Qed.

Lemma calculateAttributeModifiers_keeps (s : SystemData) :
  let s' := _calculateAttributeModifiers s in
  combat s' = combat s
  ∧ health s' = health s
  ∧ level s' = level s
  ∧ carryCapacity s' = carryCapacity s
  ∧ skillPoints s' = skillPoints s
  ∧ hpRegenRate s' = hpRegenRate s
  ∧ cooldownReduction s' = cooldownReduction s
  ∧ movement s' = movement s
  ∧ quickness s' = quickness s
  ∧ bodyParts s' = bodyParts s
  ∧ bodyRoot s' = bodyRoot s
  ∧ characterType s' = characterType s
  ∧ multiweaponFightingTier s' = multiweaponFightingTier s.
Proof. by destruct s. Qed.

Lemma calculateNaturalArmor_keeps (its : list Item) (s : SystemData) :
  let s' := (_calculateNaturalArmor evalFormula its s).2 in
  attributes s' = attributes s
  ∧ combat s' = combat s
  ∧ health s' = health s
  ∧ level s' = level s
  ∧ carryCapacity s' = carryCapacity s
  ∧ skillPoints s' = skillPoints s
  ∧ hpRegenRate s' = hpRegenRate s
  ∧ cooldownReduction s' = cooldownReduction s
  ∧ movement s' = movement s
  ∧ quickness s' = quickness s
  ∧ bodyRoot s' = bodyRoot s
  ∧ characterType s' = characterType s
  ∧ multiweaponFightingTier s' = multiweaponFightingTier s.
Proof. by destruct s. Qed.

Lemma calculateCombatStats_keeps (its : list Item) (s : SystemData) :
  let s' := _calculateCombatStats its s in
  attributes s' = attributes s
  ∧ level s' = level s
  ∧ carryCapacity s' = carryCapacity s
  ∧ skillPoints s' = skillPoints s
  ∧ hpRegenRate s' = hpRegenRate s
  ∧ cooldownReduction s' = cooldownReduction s
  ∧ movement s' = movement s
  ∧ quickness s' = quickness s
  ∧ bodyParts s' = bodyParts s
  ∧ bodyRoot s' = bodyRoot s
  ∧ characterType s' = characterType s
  ∧ multiweaponFightingTier s' = multiweaponFightingTier s.
Proof. unfold _calculateCombatStats.
  rewrite applyEquipmentBonuses_shape, calculateHP_shape. by destruct s. Qed.

Lemma calculateCarryCapacity_keeps (its : list Item) (s : SystemData) :
  let s' := _calculateCarryCapacity its s in
  attributes s' = attributes s
  ∧ combat s' = combat s
  ∧ health s' = health s
  ∧ level s' = level s
  ∧ skillPoints s' = skillPoints s
  ∧ hpRegenRate s' = hpRegenRate s
  ∧ cooldownReduction s' = cooldownReduction s
  ∧ movement s' = movement s
  ∧ quickness s' = quickness s
  ∧ bodyParts s' = bodyParts s
  ∧ bodyRoot s' = bodyRoot s
  ∧ characterType s' = characterType s
  ∧ multiweaponFightingTier s' = multiweaponFightingTier s.
Proof. by destruct s. Qed.

Lemma calculateSkillPoints_keeps (s : SystemData) :
  let s' := _calculateSkillPoints s in
  attributes s' = attributes s
  ∧ combat s' = combat s
  ∧ health s' = health s
  ∧ level s' = level s
  ∧ carryCapacity s' = carryCapacity s
  ∧ hpRegenRate s' = hpRegenRate s
  ∧ cooldownReduction s' = cooldownReduction s
  ∧ movement s' = movement s
  ∧ quickness s' = quickness s
  ∧ bodyParts s' = bodyParts s
  ∧ bodyRoot s' = bodyRoot s
  ∧ characterType s' = characterType s
  ∧ multiweaponFightingTier s' = multiweaponFightingTier s.
Proof. by destruct s. Qed.

Lemma calculateHPRegeneration_keeps (s : SystemData) :
  let s' := _calculateHPRegeneration s in
  attributes s' = attributes s
  ∧ combat s' = combat s
  ∧ health s' = health s
  ∧ level s' = level s
  ∧ carryCapacity s' = carryCapacity s
  ∧ skillPoints s' = skillPoints s
  ∧ cooldownReduction s' = cooldownReduction s
  ∧ movement s' = movement s
  ∧ quickness s' = quickness s
  ∧ bodyParts s' = bodyParts s
  ∧ bodyRoot s' = bodyRoot s
  ∧ characterType s' = characterType s
  ∧ multiweaponFightingTier s' = multiweaponFightingTier s.
Proof. by destruct s. Qed.

Lemma calculateCooldownReduction_keeps (s : SystemData) :
  let s' := _calculateCooldownReduction s in
  attributes s' = attributes s
  ∧ combat s' = combat s
  ∧ health s' = health s
  ∧ level s' = level s
  ∧ carryCapacity s' = carryCapacity s
  ∧ skillPoints s' = skillPoints s
  ∧ hpRegenRate s' = hpRegenRate s
  ∧ movement s' = movement s
  ∧ quickness s' = quickness s
  ∧ bodyParts s' = bodyParts s
  ∧ bodyRoot s' = bodyRoot s
  ∧ characterType s' = characterType s
  ∧ multiweaponFightingTier s' = multiweaponFightingTier s.
Proof. by destruct s. Qed.

Lemma applyMutationBonuses_keeps (its : list Item) (s : SystemData) :
  let s' := _applyMutationBonuses evalFormula its s in
  attributes s' = attributes s
  ∧ combat s' = combat s
  ∧ health s' = health s
  ∧ level s' = level s
  ∧ skillPoints s' = skillPoints s
  ∧ hpRegenRate s' = hpRegenRate s
  ∧ cooldownReduction s' = cooldownReduction s
  ∧ bodyParts s' = bodyParts s
  ∧ bodyRoot s' = bodyRoot s
  ∧ characterType s' = characterType s
  ∧ multiweaponFightingTier s' = multiweaponFightingTier s.
Proof. cbv zeta. rewrite applyMutationBonuses_shape. by destruct s. Qed.

Lemma calculateOffhandChances_keeps (its : list Item) (s : SystemData) :
  let s' := _calculateOffhandChances its s in
  attributes s' = attributes s
  ∧ combat s' = combat s
  ∧ health s' = health s
  ∧ level s' = level s
  ∧ carryCapacity s' = carryCapacity s
  ∧ skillPoints s' = skillPoints s
  ∧ hpRegenRate s' = hpRegenRate s
  ∧ cooldownReduction s' = cooldownReduction s
  ∧ movement s' = movement s
  ∧ quickness s' = quickness s
  ∧ bodyRoot s' = bodyRoot s
  ∧ characterType s' = characterType s
  ∧ multiweaponFightingTier s' = multiweaponFightingTier s.
Proof. by destruct s. Qed.

(** *** The body parts of a run *)

Lemma foldl_fmap_parts {A} (step : gmap string BodyParts.BodyPart → A
                                   → gmap string BodyParts.BodyPart)
    (h : A → BodyParts.BodyPart → BodyParts.BodyPart) (l : list A) :
  (∀ m x, step m x = h x <$> m) →
  ∀ m, foldl step m l = (λ p, foldl (λ p x, h x p) p l) <$> m.
Proof.
  intros Hstep. induction l as [|x l IH]; intros m; cbn [foldl].
  - by rewrite map_fmap_id.
  - by rewrite IH, Hstep, <- map_fmap_compose.
Qed.

Lemma wings_part (its : list Item) : ∀ p,
  foldl (λ p item, if isWings item
                   then (if String.eqb (BodyParts.type p) "Back"
                         then BodyParts.set_hasWings true p else p)
                   else p) p its
  = BodyParts.set_hasWings
      (foldl (λ wings item,
                if isWings item && String.eqb (BodyParts.type p) "Back"
                then true else wings) (BodyParts.hasWings p) its) p.
Proof.
  induction its as [|item its IH]; intros p; cbn [foldl]; [by destruct p|].
  destruct (isWings item); cbn [andb]; [|apply IH].
  destruct (String.eqb (BodyParts.type p) "Back") eqn:E;
    rewrite IH; cbn; rewrite ?E; by destruct p.
Qed.

Lemma armor_part (its : list Item) : ∀ p,
  foldl (λ p item,
           match grantsArmor item with
           | Some armorData =>
               if String.eqb (BodyParts.type p) (bodyPartType armorData)
               then BodyParts.set_naturalArmor
                      (Some {| BodyParts.av := naturalAV evalFormula item;
                               BodyParts.source := item_name item |}) p
               else p
           | None => p
           end) p its
  = BodyParts.set_naturalArmor
      (foldl (λ armor item,
                match grantsArmor item with
                | Some armorData =>
                    if String.eqb (BodyParts.type p) (bodyPartType armorData)
                    then Some {| BodyParts.av := naturalAV evalFormula item;
                                 BodyParts.source := item_name item |}
                    else armor
                | None => armor
                end) (BodyParts.naturalArmor p) its) p.
Proof.
  induction its as [|item its IH]; intros p; cbn [foldl]; [by destruct p|].
  destruct (grantsArmor item) as [armorData|]; [|apply IH].
  destruct (String.eqb (BodyParts.type p) (bodyPartType armorData)) eqn:E;
    rewrite IH; cbn; rewrite ?E; by destruct p.
Qed.

(** The body that [_calculateNaturalArmor] leaves. *)
Lemma calculateNaturalArmor_parts its s :
  bodyParts (_calculateNaturalArmor evalFormula its s).2
  = (λ p, BodyParts.set_naturalArmor (armorOf evalFormula its (BodyParts.type p))
            (BodyParts.set_hasWings (wingsOf its (BodyParts.type p)) p))
    <$> bodyParts s.
Proof.
  unfold _calculateNaturalArmor. cbn [snd].
  transitivity
    (foldl (grantArmor evalFormula)
       (foldl (λ parts item,
                 if isWings item
                 then (λ part, if String.eqb (BodyParts.type part) "Back"
                               then BodyParts.set_hasWings true part else part)
                      <$> parts
                 else parts)
          ((λ part, BodyParts.set_hasWings false
                      (BodyParts.set_naturalArmor
                         (Some {| BodyParts.av := 0; BodyParts.source := "" |}) part))
           <$> bodyParts s) its) its); [by destruct s|].
  rewrite (foldl_fmap_parts _
             (λ item p,
                match grantsArmor item with
                | Some armorData =>
                    if String.eqb (BodyParts.type p) (bodyPartType armorData)
                    then BodyParts.set_naturalArmor
                           (Some {| BodyParts.av := naturalAV evalFormula item;
                                    BodyParts.source := item_name item |}) p
                    else p
                | None => p
                end)).
  2:{ intros m item. unfold grantArmor.
      destruct (grantsArmor item); [done|by rewrite map_fmap_id]. }
  rewrite (foldl_fmap_parts _
             (λ item p, if isWings item
                        then (if String.eqb (BodyParts.type p) "Back"
                              then BodyParts.set_hasWings true p else p)
                        else p)).
  2:{ intros m item. destruct (isWings item); [done|by rewrite map_fmap_id]. }
  rewrite <- !map_fmap_compose. apply map_fmap_ext. intros k p _. cbn.
  rewrite armor_part, wings_part. unfold armorOf, wingsOf. by destruct p.
Qed.

Lemma naturalOffhandChance_part its : ∀ p,
  naturalOffhandChance its p
  = BodyParts.set_offhandChance
      (naturalChance its (BodyParts.type p) (BodyParts.offhandChance p)) p.
Proof.
  induction its as [|item its IH]; intros p; cbn; [by destruct p|].
  destruct (if activeMutation item then naturalWeaponEnabled item else None)
    as [nw|]; [|apply IH].
  destruct (bool_decide _); [done|apply IH].
Qed.

(** *** The items of a run *)

Lemma initQuills_cases item :
  initQuills evalFormula item = item
  ∨ ∃ tracking,
      initQuills evalFormula item
      = set_item_system (set_resourceTracking tracking (item_system item)) item.
Proof.
  unfold initQuills.
  destruct (resourceTracking (item_system item)) as [tracking|]; [|by left].
  destruct (rt_enabled tracking); [|by left].
  destruct (CAVESOFQUD.naturalWeaponFormulas (item_name item)) as [formula|]; [|by left].
  destruct (JS.truthy_id _); [|by left].
  destruct (rt_current tracking =? 0); [right; by eexists|by left].
Qed.

(** The item that [_calculateNaturalArmor] leaves for an item. *)
Lemma calculateNaturalArmor_item its s :
  (_calculateNaturalArmor evalFormula its s).1
  = (λ item, match grantsArmor item with
             | Some _ => initQuills evalFormula item
             | None => item
             end) <$> its.
Proof. done. Qed.

Lemma prepared_item_cases item :
  let item' := match grantsArmor item with
               | Some _ => initQuills evalFormula item
               | None => item
               end in
  item' = item
  ∨ ∃ tracking,
      item' = set_item_system (set_resourceTracking tracking (item_system item)) item.
Proof.
  cbv zeta. destruct (grantsArmor item); [apply initQuills_cases|by left].
Qed.

Lemma initQuills_idem item :
  initQuills evalFormula (initQuills evalFormula item) = initQuills evalFormula item.
Proof.
  unfold initQuills at 2 3.
  destruct (resourceTracking (item_system item)) as [tracking|] eqn:Ht.
  2:{ unfold initQuills. by rewrite Ht. }
  destruct (rt_enabled tracking) eqn:Hen.
  2:{ unfold initQuills. rewrite Ht. cbv beta iota. by rewrite Hen. }
  destruct (CAVESOFQUD.naturalWeaponFormulas (item_name item)) as [formula|] eqn:Hf.
  2:{ unfold initQuills. rewrite Ht. cbv beta iota. rewrite Hen, Hf. done. }
  destruct (JS.truthy_id _) eqn:Hq.
  2:{ unfold initQuills. rewrite Ht. cbv beta iota. rewrite Hen, Hf.
      cbv beta iota. by rewrite Hq. }
  destruct (rt_current tracking =? 0) eqn:Hz.
  2:{ unfold initQuills. rewrite Ht. cbv beta iota. rewrite Hen, Hf.
      cbv beta iota. rewrite Hq. by rewrite Hz. }
  unfold initQuills. destruct item as [i n t sys]. destruct sys. cbn in *.
  rewrite ?Hf, ?Hq, ?Hen. subst. destruct (evalFormula _ _ =? 0); reflexivity.
Qed.

Lemma calculateNaturalArmor_items_idem its s s' :
  (_calculateNaturalArmor evalFormula
     (_calculateNaturalArmor evalFormula its s).1 s').1
  = (_calculateNaturalArmor evalFormula its s).1.
Proof.
  rewrite !calculateNaturalArmor_item, <- list_fmap_compose.
  apply list_fmap_ext. intros _ item _. cbn.
  destruct (grantsArmor item) as [armorData|] eqn:Hg; [|by rewrite Hg].
  assert (Hsame : grantsArmor (initQuills evalFormula item) = grantsArmor item).
  { destruct (initQuills_cases item) as [->|[tracking ->]]; [done|].
    by destruct item as [? ? ? []]. }
  by rewrite Hsame, Hg, initQuills_idem.
Qed.

Lemma foldl_prepared_items {B} (f : B → Item → B) (its : list Item) s :
  (∀ b item tracking,
     f b (set_item_system (set_resourceTracking tracking (item_system item)) item)
     = f b item) →
  ∀ b, foldl f b (_calculateNaturalArmor evalFormula its s).1 = foldl f b its.
Proof.
  intros Hf. rewrite calculateNaturalArmor_item.
  induction its as [|item its IH]; intros b; [done|].
  rewrite fmap_cons. cbn [foldl]. rewrite IH. f_equal.
  destruct (prepared_item_cases item) as [->|[tracking ->]]; [done|apply Hf].
Qed.

Lemma wingsOf_prepared its s t :
  wingsOf (_calculateNaturalArmor evalFormula its s).1 t = wingsOf its t.
Proof.
  unfold wingsOf. apply foldl_prepared_items.
  intros b item tracking. by destruct item as [? ? ? []].
Qed.

Lemma armorOf_prepared its s t :
  armorOf evalFormula (_calculateNaturalArmor evalFormula its s).1 t
  = armorOf evalFormula its t.
Proof.
  unfold armorOf. apply foldl_prepared_items.
  intros b item tracking. by destruct item as [? ? ? []].
Qed.

(** *** What the steps read *)

Lemma calculateCarryCapacity_reads its x y :
  attributes x = attributes y →
  carryCapacity (_calculateCarryCapacity its x)
  = carryCapacity (_calculateCarryCapacity its y).
Proof. intros Ha. unfold _calculateCarryCapacity. rewrite Ha. by destruct x, y. Qed.

Lemma calculateSkillPoints_reads x y :
  level x = level y → attributes x = attributes y →
  characterType x = characterType y →
  sp_spent (skillPoints x) = sp_spent (skillPoints y) →
  skillPoints (_calculateSkillPoints x) = skillPoints (_calculateSkillPoints y).
Proof.
  intros Hl Ha Ht Hs. unfold _calculateSkillPoints. rewrite Hl, Ha, Ht, Hs.
  by destruct x, y.
Qed.

Lemma calculateSkillPoints_spent x :
  sp_spent (skillPoints (_calculateSkillPoints x)) = sp_spent (skillPoints x).
Proof. by destruct x. Qed.

Lemma calculateHPRegeneration_reads x y :
  attributes x = attributes y →
  hpRegenRate (_calculateHPRegeneration x) = hpRegenRate (_calculateHPRegeneration y).
Proof. intros Ha. unfold _calculateHPRegeneration. rewrite Ha. by destruct x, y. Qed.

Lemma calculateCooldownReduction_reads x y :
  attributes x = attributes y →
  cooldownReduction (_calculateCooldownReduction x)
  = cooldownReduction (_calculateCooldownReduction y).
Proof. intros Ha. unfold _calculateCooldownReduction. rewrite Ha. by destruct x, y. Qed.

Lemma applyItemBonuses_reads item x y :
  (carryCapacity x = carryCapacity y →
   carryCapacity (applyItemBonuses evalFormula x item)
   = carryCapacity (applyItemBonuses evalFormula y item))
  ∧ (movement x = movement y →
     movement (applyItemBonuses evalFormula x item)
     = movement (applyItemBonuses evalFormula y item))
  ∧ (quickness x = quickness y →
     quickness (applyItemBonuses evalFormula x item)
     = quickness (applyItemBonuses evalFormula y item)).
Proof.
  unfold applyItemBonuses. destruct (negb (activeMutation item)); [done|].
  destruct (statBonuses (item_system item)) as [bonuses|]; [|done].
  destruct (bonusApplies (sb_carryCapacity bonuses)),
    (bonusApplies (sb_movementSpeed bonuses)),
    (bonusApplies (sb_quickness bonuses));
    (split; [|split]); intros H; destruct x, y; cbn in *; by rewrite ?H.
Qed.

Lemma applyMutationBonuses_reads its : ∀ x y,
  (carryCapacity x = carryCapacity y →
   carryCapacity (_applyMutationBonuses evalFormula its x)
   = carryCapacity (_applyMutationBonuses evalFormula its y))
  ∧ (movement x = movement y →
     movement (_applyMutationBonuses evalFormula its x)
     = movement (_applyMutationBonuses evalFormula its y))
  ∧ (quickness x = quickness y →
     quickness (_applyMutationBonuses evalFormula its x)
     = quickness (_applyMutationBonuses evalFormula its y)).
Proof.
  unfold _applyMutationBonuses.
  induction its as [|item its IH]; intros x y; cbn [foldl]; [done|].
  destruct (applyItemBonuses_reads item x y) as (Hw & Hm & Hq).
  destruct (IH (applyItemBonuses evalFormula x item) (applyItemBonuses evalFormula y item))
    as (Hw' & Hm' & Hq').
  auto.
Qed.

Lemma calculateOffhandChances_reads its x y :
  bodyParts x = bodyParts y →
  multiweaponFightingTier x = multiweaponFightingTier y →
  bodyParts (_calculateOffhandChances its x) = bodyParts (_calculateOffhandChances its y).
Proof.
  intros Hb Ht. unfold _calculateOffhandChances, _calculateOffhandChance.
  rewrite Hb, Ht. by destruct x, y.
Qed.

(** *** The fields of a run *)

Lemma prepareCharacterData_fields this :
  let s := system this in
  let s0 := _calculateAttributeModifiers s in
  let its' := (_calculateNaturalArmor evalFormula (items this) s0).1 in
  let s1 := (_calculateNaturalArmor evalFormula (items this) s0).2 in
  let after := system (_prepareCharacterData evalFormula this) in
  (actor_name (_prepareCharacterData evalFormula this) = actor_name this
   ∧ actor_type (_prepareCharacterData evalFormula this) = actor_type this
   ∧ items (_prepareCharacterData evalFormula this) = its')
  ∧ attributes after = attributes s0
  ∧ combat after = combat (_calculateCombatStats its' s1)
  ∧ health after = health (_calculateCombatStats its' s1)
  ∧ level after = level s
  ∧ carryCapacity after
    = carryCapacity (_applyMutationBonuses evalFormula its'
                       (_calculateCarryCapacity its' s0))
  ∧ skillPoints after = skillPoints (_calculateSkillPoints s0)
  ∧ hpRegenRate after = hpRegenRate (_calculateHPRegeneration s0)
  ∧ cooldownReduction after = cooldownReduction (_calculateCooldownReduction s0)
  ∧ movement after = movement (_applyMutationBonuses evalFormula its' s)
  ∧ quickness after = quickness (_applyMutationBonuses evalFormula its' s)
  ∧ bodyParts after = bodyParts (_calculateOffhandChances its' s1)
  ∧ bodyRoot after = bodyRoot s
  ∧ characterType after = characterType s
  ∧ multiweaponFightingTier after = multiweaponFightingTier s.
Proof.
  intros s s0 its' s1 after. subst after its' s1.
  unfold _prepareCharacterData. fold s s0.
  destruct (_calculateNaturalArmor evalFormula (items this) s0) as [its' s1] eqn:Hna.
  cbn [fst snd].
  pose proof (calculateAttributeModifiers_keeps s) as K0.
  pose proof (calculateNaturalArmor_keeps (items this) s0) as K1.
  rewrite Hna in K1. cbn [snd] in K1.
  set (s2 := _calculateCombatStats its' s1).
  set (s3 := _calculateCarryCapacity its' s2).
  set (s4 := _calculateSkillPoints s3).
  set (s5 := _calculateHPRegeneration s4).
  set (s6 := _calculateCooldownReduction s5).
  set (s7 := _applyMutationBonuses evalFormula its' s6).
  set (s8 := _calculateOffhandChances its' s7).
  pose proof (calculateCombatStats_keeps its' s1) as K2.
  pose proof (calculateCarryCapacity_keeps its' s2) as K3.
  pose proof (calculateSkillPoints_keeps s3) as K4.
  pose proof (calculateHPRegeneration_keeps s4) as K5.
  pose proof (calculateCooldownReduction_keeps s5) as K6.
  pose proof (applyMutationBonuses_keeps its' s6) as K7.
  pose proof (calculateOffhandChances_keeps its' s7) as K8.
  cbv zeta in K0, K1, K2, K3, K4, K5, K6, K7, K8.
  fold s0 in K0. fold s2 in K2. fold s3 in K3. fold s4 in K4. fold s5 in K5.
  fold s6 in K6. fold s7 in K7. fold s8 in K8.
  cbn [system items actor_name actor_type set_system set_items].
  repeat match goal with H : _ ∧ _ |- _ => destruct H end.
  split; [done|].
  split; [congruence|]. split; [congruence|]. split; [congruence|].
  split; [congruence|].
  split.
  { transitivity (carryCapacity s7); [congruence|].
    apply applyMutationBonuses_reads.
    transitivity (carryCapacity s3); [congruence|].
    apply calculateCarryCapacity_reads. congruence. }
  split.
  { transitivity (skillPoints s4); [congruence|].
    apply calculateSkillPoints_reads; congruence. }
  split.
  { transitivity (hpRegenRate s5); [congruence|].
    apply calculateHPRegeneration_reads. congruence. }
  split.
  { transitivity (cooldownReduction s6); [congruence|].
    apply calculateCooldownReduction_reads. congruence. }
  split.
  { transitivity (movement s7); [congruence|].
    apply applyMutationBonuses_reads. congruence. }
  split.
  { transitivity (quickness s7); [congruence|].
    apply applyMutationBonuses_reads. congruence. }
  split.
  { apply calculateOffhandChances_reads; congruence. }
  split; [congruence|]. split; congruence.
Qed.

(** *** Steps that a second run repeats without effect *)

Lemma calculateAttributeModifiers_idem x y :
  attributes y = attributes (_calculateAttributeModifiers x) →
  attributes (_calculateAttributeModifiers y)
  = attributes (_calculateAttributeModifiers x).
Proof.
  intros Ha. unfold _calculateAttributeModifiers at 1. rewrite Ha.
  by destruct x, y.
Qed.

Lemma clamp_idem (max value : Z) :
  (if max <? (if max <? value then max else value) then max
   else (if max <? value then max else value))
  = (if max <? value then max else value).
Proof.
  destruct (max <? value) eqn:E; [by rewrite Z.ltb_irrefl|by rewrite E].
Qed.

Lemma calculateHP_twice x :
  health (_calculateHP (_calculateHP x)) = health (_calculateHP x).
Proof.
  destruct x as [a c [value max history] l cc sp r cd mv q bp br ct tier].
  unfold _calculateHP at 2. cbn [level attributes health health_value hpHistory].
  destruct (l =? 1) eqn:Hl.
  - set (h0 := default [] history).
    set (h1 := if (length h0 =? 0)%nat then h0 ++ [_] else h0).
    cbn [set_health]. unfold _calculateHP.
    cbn [level attributes health health_value hpHistory].
    change (default [] (Some h1)) with h1. rewrite Hl.
    assert (Hlen : (length h1 =? 0)%nat = false).
    { subst h1. destruct (length h0 =? 0)%nat eqn:E; [|done].
      rewrite length_app. cbn. apply Nat.eqb_neq. lia. }
    rewrite Hlen. cbn [set_health health]. by rewrite clamp_idem.
  - rewrite recalculateHistory_spec.
    set (h0 := default [] history).
    set (toughMod := attr_mod (toughness a)).
    cbn [set_health]. unfold _calculateHP.
    cbn [level attributes health health_value hpHistory].
    change (default [] (Some ?h)) with h. rewrite Hl.
    rewrite !recalculateHistory_spec. fold toughMod h0.
    assert (Htake : take 1 (take 1 h0 ++ (rewritten toughMod <$> drop 1 h0))
                    = take 1 h0) by (clearbody h0; by destruct h0).
    assert (Hdrop : drop 1 (take 1 h0 ++ (rewritten toughMod <$> drop 1 h0))
                    = rewritten toughMod <$> drop 1 h0)
      by (clearbody h0; destruct h0; reflexivity).
    rewrite Htake, Hdrop, <- !list_fmap_compose.
    cbn [set_health health].
    assert (Hre : rewritten toughMod ∘ rewritten toughMod = rewritten toughMod)
      by done.
    assert (Hroll : (λ entry, roll entry + toughMod) ∘ rewritten toughMod
                    = (λ entry, roll entry + toughMod)) by done.
    rewrite Hre, Hroll. by rewrite clamp_idem.
Qed.

Lemma calculateHP_level x : level (_calculateHP x) = level x.
Proof. rewrite calculateHP_shape. by destruct x. Qed.

Lemma calculateHP_idem x y :
  attributes y = attributes x → level y = level x →
  health y = health (_calculateHP x) →
  health (_calculateHP y) = health (_calculateHP x).
Proof.
  intros Ha Hl Hh. rewrite <- (calculateHP_twice x).
  apply calculateHP_reads; [|by rewrite calculateHP_level|done].
  by destruct (calculateHP_frame x) as (-> & _).
Qed.

Lemma naturalChance_cases its type :
  (∀ chance, naturalChance its type chance = chance)
  ∨ (∃ value, ∀ chance, naturalChance its type chance = value).
Proof.
  induction its as [|item its IH]; cbn; [by left|].
  destruct (if activeMutation item then naturalWeaponEnabled item else None)
    as [nw|]; [|done].
  destruct (bool_decide _); [right; by eexists|done].
Qed.

Lemma naturalChance_idem its type chance :
  naturalChance its type (naturalChance its type chance)
  = naturalChance its type chance.
Proof.
  destruct (naturalChance_cases its type) as [Hid|[value Hv]].
  - by rewrite !Hid.
  - by rewrite !Hv.
Qed.

Lemma calculateOffhandChance_reads its x y partId :
  multiweaponFightingTier x = multiweaponFightingTier y →
  _calculateOffhandChance its x partId = _calculateOffhandChance its y partId.
Proof. intros Ht. unfold _calculateOffhandChance. by rewrite Ht. Qed.

Lemma preparedPart_idem its x y partId part :
  multiweaponFightingTier y = multiweaponFightingTier x →
  preparedPart evalFormula its y partId (preparedPart evalFormula its x partId part)
  = preparedPart evalFormula its x partId part.
Proof.
  intros Ht. unfold preparedPart at 1.
  change (BodyParts.type (preparedPart evalFormula its x partId part))
    with (BodyParts.type part).
  change (BodyParts.canWieldWeapon (preparedPart evalFormula its x partId part))
    with (BodyParts.canWieldWeapon part).
  rewrite (calculateOffhandChance_reads its y x partId Ht).
  unfold preparedPart.
  destruct (BodyParts.canWieldWeapon part); [done|].
  cbn [BodyParts.offhandChance BodyParts.set_offhandChance].
  by rewrite naturalChance_idem.
Qed.

(** The body that [_calculateOffhandChances] leaves. *)
Lemma calculateOffhandChances_parts its x :
  bodyParts (_calculateOffhandChances its x)
  = map_imap
      (λ partId part,
         Some (BodyParts.set_offhandChance
                 (if BodyParts.canWieldWeapon part
                  then Some (_calculateOffhandChance its x partId)
                  else naturalChance its (BodyParts.type part)
                         (BodyParts.offhandChance part)) part))
      (bodyParts x).
Proof.
  unfold _calculateOffhandChances.
  transitivity
    (map_imap
       (λ partId part,
          Some (if BodyParts.canWieldWeapon part
                then BodyParts.set_offhandChance
                       (Some (_calculateOffhandChance its x partId)) part
                else naturalOffhandChance its part)) (bodyParts x));
    [by destruct x|].
  apply map_imap_ext. intros k. destruct (bodyParts x !! k) as [part|]; [|done].
  cbn. do 2 f_equal.
  destruct (BodyParts.canWieldWeapon part); [done|apply naturalOffhandChance_part].
Qed.

(** The body of a run: every part of the old body, prepared. *)
Lemma prepareCharacterData_parts this :
  bodyParts (system (_prepareCharacterData evalFormula this))
  = map_imap
      (λ partId part,
         Some (preparedPart evalFormula
                 (items (_prepareCharacterData evalFormula this)) (system this)
                 partId part))
      (bodyParts (system this)).
Proof.
  destruct (prepareCharacterData_fields this)
    as ((_ & _ & Hitems) & _ & _ & _ & _ & _ & _ & _ & _ & _ & _ & Hparts & _).
  rewrite Hparts, Hitems, calculateOffhandChances_parts, calculateNaturalArmor_parts.
  destruct (calculateAttributeModifiers_keeps (system this))
    as (_ & _ & _ & _ & _ & _ & _ & _ & _ & Hb & _ & _ & Hf).
  destruct (calculateNaturalArmor_keeps (items this)
              (_calculateAttributeModifiers (system this)))
    as (_ & _ & _ & _ & _ & _ & _ & _ & _ & _ & _ & _ & Hf').
  rewrite Hb. apply map_imap_ext. intros k. rewrite lookup_fmap.
  destruct (bodyParts (system this) !! k) as [part|]; [|done].
  cbn [fmap option_fmap option_map]. do 2 f_equal. unfold preparedPart.
  cbn [BodyParts.type BodyParts.canWieldWeapon BodyParts.offhandChance
       BodyParts.set_naturalArmor BodyParts.set_hasWings].
  rewrite wingsOf_prepared, armorOf_prepared.
  rewrite (calculateOffhandChance_reads _ _ (system this) k); [done|].
  by rewrite Hf', Hf.
Qed.

(** *** Equipment totals do not read the offhand chances *)

Lemma contributions_fmap_ext {X} (c : BodyParts.BodyPart → Z)
    (a b : X → BodyParts.BodyPart) (l : list X) t :
  (∀ x, x ∈ l → BodyParts.type (a x) = BodyParts.type (b x) ∧ c (a x) = c (b x)) →
  c <$> partsOfType t (a <$> l) = c <$> partsOfType t (b <$> l).
Proof.
  unfold partsOfType. induction l as [|x l IH]; intros Hab; [done|].
  rewrite !fmap_cons. cbn [List.filter].
  destruct (Hab x (list_elem_of_here _ _)) as [Ht Hc]. rewrite Ht.
  assert (IH' := IH (λ y Hy, Hab y (list_elem_of_further _ _ _ Hy))).
  destruct (String.eqb (BodyParts.type (b x)) t); [|done].
  rewrite !fmap_cons. by rewrite Hc, IH'.
Qed.

Lemma summedAverages_fmap_ext {X} (c : BodyParts.BodyPart → Z)
    (a b : X → BodyParts.BodyPart) (l : list X) :
  (∀ x, x ∈ l → BodyParts.type (a x) = BodyParts.type (b x) ∧ c (a x) = c (b x)) →
  summedAverages c (a <$> l) = summedAverages c (b <$> l).
Proof.
  intros Hab. unfold summedAverages, typesPresent.
  assert (Htypes : BodyParts.type <$> (a <$> l) = BodyParts.type <$> (b <$> l)).
  { rewrite <- !list_fmap_compose. apply list_fmap_ext. intros i x Hx.
    by destruct (Hab x (list_elem_of_lookup_2 _ _ _ Hx)). }
  rewrite Htypes. f_equal. apply list_fmap_ext. intros _ t _.
  unfold groupAverage.
  pose proof (contributions_fmap_ext c a b l t Hab) as Hc.
  assert (Hlen : length (partsOfType t (a <$> l)) = length (partsOfType t (b <$> l))).
  { rewrite <- (length_fmap c (partsOfType t (a <$> l))), Hc. apply length_fmap. }
  by rewrite Hc, Hlen.
Qed.

(** Two bodies whose parts agree in type, equipment and natural armor. *)
Lemma equipmentTotals_parts its (m1 m2 : gmap string BodyParts.BodyPart) :
  (∀ k, match m1 !! k, m2 !! k with
        | Some p, Some q =>
            BodyParts.type q = BodyParts.type p
            ∧ BodyParts.equipment q = BodyParts.equipment p
            ∧ BodyParts.naturalArmor q = BodyParts.naturalArmor p
        | None, None => True
        | _, _ => False
        end) →
  Qfloor (equipmentTotals its m2).1 = Qfloor (equipmentTotals its m1).1
  ∧ Qfloor (equipmentTotals its m2).2 = Qfloor (equipmentTotals its m1).2.
Proof.
  intros Hrel.
  set (g := λ kp : string * BodyParts.BodyPart, default kp.2 (m2 !! kp.1)).
  assert (Hperm : map_to_list m2 ≡ₚ (λ kp, (kp.1, g kp)) <$> map_to_list m1).
  { apply NoDup_Permutation.
    - apply NoDup_map_to_list.
    - apply (NoDup_fmap_1 fst). rewrite <- list_fmap_compose.
      apply (NoDup_fst_map_to_list m1).
    - intros [k q]. rewrite elem_of_map_to_list, list_elem_of_fmap. split.
      + intros Hq. specialize (Hrel k). rewrite Hq in Hrel.
        destruct (m1 !! k) as [p|] eqn:Hp; [|done].
        exists (k, p). split; [|by apply elem_of_map_to_list].
        unfold g. cbn. by rewrite Hq.
      + intros ([k' p] & [= -> ->] & Hp%elem_of_map_to_list).
        specialize (Hrel k'). rewrite Hp in Hrel. unfold g. cbn.
        by destruct (m2 !! k') as [q|]. }
  assert (Hvalues : BodyParts.values m2 ≡ₚ g <$> map_to_list m1).
  { unfold BodyParts.values. rewrite Hperm, <- list_fmap_compose. done. }
  assert (Hsame : ∀ c : BodyParts.BodyPart → Z,
             (∀ p q, BodyParts.equipment q = BodyParts.equipment p →
                     BodyParts.naturalArmor q = BodyParts.naturalArmor p →
                     c q = c p) →
             (summedAverages c (BodyParts.values m2)
              == summedAverages c (BodyParts.values m1))%Q).
  { intros c Hc. rewrite (summedAverages_Permutation c _ _ Hvalues).
    unfold BodyParts.values.
    rewrite (summedAverages_fmap_ext c g snd (map_to_list m1)); [done|].
    intros [k p] Hp%elem_of_map_to_list. specialize (Hrel k). rewrite Hp in Hrel.
    unfold g. cbn. destruct (m2 !! k) as [q|]; [|done].
    destruct Hrel as (Ht & He & Hn). cbn. split; [done|by apply Hc]. }
  destruct (equipmentTotals_summedAverages its m1) as [Hav1 Hdv1].
  destruct (equipmentTotals_summedAverages its m2) as [Hav2 Hdv2].
  split; apply Qfloor_comp.
  - rewrite Hav1, Hav2. apply Hsame. intros p q He Hn.
    unfold armorContribution, equippedArmor. by rewrite He, Hn.
  - rewrite Hdv1, Hdv2. apply Hsame. intros p q He Hn.
    unfold dodgeContribution, equippedArmor. by rewrite He.
Qed.

Lemma calculateCombatStats_combat its x :
  combat (_calculateCombatStats its x)
  = {| dv := CAVESOFQUD.baseValues.dvBase + attr_mod (agility (attributes x))
             + Qfloor (equipmentTotals its (bodyParts x)).2;
       pv := CAVESOFQUD.baseValues.pvBase + attr_mod (strength (attributes x));
       ma := CAVESOFQUD.baseValues.maBase + attr_mod (willpower (attributes x));
       av := Qfloor (equipmentTotals its (bodyParts x)).1;
       mainHandId := mainHandId (combat x) |}.
Proof.
  unfold _calculateCombatStats.
  rewrite applyEquipmentBonuses_shape, calculateHP_shape. by destruct x.
Qed.

Lemma calculateCombatStats_health its x :
  health (_calculateCombatStats its x) = health (_calculateHP x).
Proof.
  unfold _calculateCombatStats. rewrite applyEquipmentBonuses_shape.
  set (y := set_combat _ x).
  transitivity (health (_calculateHP y)); [by destruct (_calculateHP y)|].
  apply calculateHP_reads; subst y; by destruct x.
Qed.

(** *** Without speed bonuses nothing accumulates *)

Lemma applyItemBonuses_noSpeed item x :
  (∀ bonuses, activeMutation item = true →
     statBonuses (item_system item) = Some bonuses →
     bonusApplies (sb_movementSpeed bonuses) = None
     ∧ bonusApplies (sb_quickness bonuses) = None) →
  movement (applyItemBonuses evalFormula x item) = movement x
  ∧ quickness (applyItemBonuses evalFormula x item) = quickness x.
Proof.
  intros Hno. unfold applyItemBonuses.
  destruct (activeMutation item) eqn:Hact; cbn [negb]; [|done].
  destruct (statBonuses (item_system item)) as [bonuses|]; [|done].
  destruct (Hno bonuses eq_refl eq_refl) as [-> ->].
  destruct (bonusApplies (sb_carryCapacity bonuses)); by destruct x.
Qed.

Lemma applyMutationBonuses_noSpeed its : ∀ x,
  noSpeedBonuses its →
  movement (_applyMutationBonuses evalFormula its x) = movement x
  ∧ quickness (_applyMutationBonuses evalFormula its x) = quickness x.
Proof.
  unfold _applyMutationBonuses.
  induction its as [|item its IH]; intros x Hno; cbn [foldl]; [done|].
  destruct (IH (applyItemBonuses evalFormula x item)) as [-> ->].
  { intros it bonuses Hin. apply Hno. by apply list_elem_of_further. }
  apply applyItemBonuses_noSpeed. intros bonuses. apply Hno, list_elem_of_here.
Qed.

Lemma noSpeedBonuses_prepared its s :
  noSpeedBonuses its → noSpeedBonuses (_calculateNaturalArmor evalFormula its s).1.
Proof.
  intros Hno item' bonuses. rewrite calculateNaturalArmor_item.
  intros (item & -> & Hin)%list_elem_of_fmap.
  specialize (Hno item bonuses Hin).
  destruct (prepared_item_cases item) as [Heq|[tracking Heq]];
    cbv zeta in Heq; rewrite Heq; [done|].
  by destruct item as [? ? ? []].
Qed.

Lemma systemData_ext (x y : SystemData) :
  attributes x = attributes y → combat x = combat y → health x = health y →
  level x = level y → carryCapacity x = carryCapacity y →
  skillPoints x = skillPoints y → hpRegenRate x = hpRegenRate y →
  cooldownReduction x = cooldownReduction y → movement x = movement y →
  quickness x = quickness y → bodyParts x = bodyParts y → bodyRoot x = bodyRoot y →
  characterType x = characterType y →
  multiweaponFightingTier x = multiweaponFightingTier y →
  x = y.
Proof. destruct x, y. cbn. by intros -> -> -> -> -> -> -> -> -> -> -> -> -> ->. Qed.

Lemma actor_ext (x y : Actor) :
  actor_name x = actor_name y → actor_type x = actor_type y → items x = items y →
  system x = system y → x = y.
Proof. destruct x, y. cbn. by intros -> -> -> ->. Qed.

(** X21.  A second run of [_prepareCharacterData] on the result of a first
    run keeps the items and every field of the system data except movement
    and quickness, onto which the mutation bonuses are applied once more;
    when no active mutation has a movement-speed or quickness bonus that
    applies, the second run changes nothing at all. *)
Theorem prepareCharacterData_twice this :
  let once := _prepareCharacterData evalFormula this in
  let twice := _prepareCharacterData evalFormula once in
  twice
  = set_system
      (set_movement
         (movement (_applyMutationBonuses evalFormula (items once) (system once)))
         (set_quickness
            (quickness (_applyMutationBonuses evalFormula (items once) (system once)))
            (system once)))
      once
  ∧ (noSpeedBonuses (items this) → twice = once).
Proof.
  intros once twice.
  pose proof (prepareCharacterData_fields this) as F1.
  pose proof (prepareCharacterData_fields once) as F2.
  pose proof (prepareCharacterData_parts this) as P1.
  pose proof (prepareCharacterData_parts once) as P2.
  cbv zeta in F1, F2. fold once in F1, P1. fold twice in F2, P2.
  set (s := system this) in *. set (s' := system once) in *.
  set (s0 := _calculateAttributeModifiers s) in *.
  set (s0' := _calculateAttributeModifiers s') in *.
  set (its' := (_calculateNaturalArmor evalFormula (items this) s0).1) in *.
  set (s1 := (_calculateNaturalArmor evalFormula (items this) s0).2) in *.
  destruct F1 as ((Hn1 & Ht1 & Hi1) & Ha1 & Hc1 & Hh1 & Hl1 & Hw1 & Hp1 & Hr1 & Hd1
                  & Hm1 & Hq1 & Hb1 & Ho1 & Hy1 & Hf1).
  rewrite Hi1 in F2 |- *.
  set (s1' := (_calculateNaturalArmor evalFormula its' s0').2) in *.
  assert (Hits : (_calculateNaturalArmor evalFormula its' s0').1 = its')
    by apply calculateNaturalArmor_items_idem.
  rewrite Hits in F2.
  destruct F2 as ((Hn2 & Ht2 & Hi2) & Ha2 & Hc2 & Hh2 & Hl2 & Hw2 & Hp2 & Hr2 & Hd2
                  & Hm2 & Hq2 & Hb2 & Ho2 & Hy2 & Hf2).
  rewrite Hi2 in P2.
  pose proof (calculateAttributeModifiers_keeps s) as K0.
  pose proof (calculateAttributeModifiers_keeps s') as K0'.
  pose proof (calculateNaturalArmor_keeps (items this) s0) as K1.
  pose proof (calculateNaturalArmor_keeps its' s0') as K1'.
  cbv zeta in K0, K0', K1, K1'. fold s0 in K0. fold s0' in K0'. fold s1 in K1.
  fold s1' in K1'.
  destruct K0 as (K0c & K0h & K0l & K0w & K0p & K0r & K0d & K0m & K0q & K0b & K0o
                  & K0t & K0f).
  destruct K0' as (K0c' & K0h' & K0l' & K0w' & K0p' & K0r' & K0d' & K0m' & K0q'
                   & K0b' & K0o' & K0t' & K0f').
  destruct K1 as (K1a & K1c & K1h & K1l & K1w & K1p & K1r & K1d & K1m & K1q & K1o
                  & K1t & K1f).
  destruct K1' as (K1a' & K1c' & K1h' & K1l' & K1w' & K1p' & K1r' & K1d' & K1m'
                   & K1q' & K1o' & K1t' & K1f').
  assert (Hattr : attributes s0' = attributes s0).
  { apply calculateAttributeModifiers_idem. exact Ha1. }
  assert (Hrest :
    actor_name twice = actor_name once ∧ actor_type twice = actor_type once
    ∧ items twice = items once
    ∧ attributes (system twice) = attributes s'
    ∧ combat (system twice) = combat s'
    ∧ health (system twice) = health s'
    ∧ level (system twice) = level s'
    ∧ carryCapacity (system twice) = carryCapacity s'
    ∧ skillPoints (system twice) = skillPoints s'
    ∧ hpRegenRate (system twice) = hpRegenRate s'
    ∧ cooldownReduction (system twice) = cooldownReduction s'
    ∧ bodyParts (system twice) = bodyParts s'
    ∧ bodyRoot (system twice) = bodyRoot s'
    ∧ characterType (system twice) = characterType s'
    ∧ multiweaponFightingTier (system twice) = multiweaponFightingTier s').
  { split; [done|]. split; [done|]. split; [congruence|]. split; [congruence|].
    split.
    { (* combat *)
      rewrite Hc2, Hc1, !calculateCombatStats_combat.
      assert (Hmain : mainHandId (combat s1') = mainHandId (combat s1)).
      { transitivity (mainHandId (combat s')); [congruence|].
        rewrite Hc1, calculateCombatStats_combat. done. }
      destruct (equipmentTotals_parts its' (bodyParts s1) (bodyParts s1'))
        as [Hav Hdv].
      { intros k. unfold s1, s1'. rewrite !calculateNaturalArmor_parts.
        rewrite K0b, K0b'. fold s'. rewrite P1, !lookup_fmap, map_lookup_imap.
        fold s. destruct (bodyParts s !! k) as [part|]; [|done].
        cbn [fmap option_fmap option_map mbind option_bind].
        split; [done|]. split; [done|]. apply armorOf_prepared. }
      rewrite Hav, Hdv, Hmain. by rewrite K1a', Hattr, <- K1a. }
    split.
    { (* health *)
      rewrite Hh2, Hh1, !calculateCombatStats_health.
      apply calculateHP_idem; [congruence|congruence|].
      rewrite <- calculateCombatStats_health with (its := its'). congruence. }
    split; [congruence|].
    split.
    { rewrite Hw2, Hw1. apply applyMutationBonuses_reads.
      by apply calculateCarryCapacity_reads. }
    split.
    { rewrite Hp2, Hp1. apply calculateSkillPoints_reads; try congruence.
      rewrite K0p'. fold s'. rewrite Hp1, calculateSkillPoints_spent. done. }
    split.
    { rewrite Hr2, Hr1. by apply calculateHPRegeneration_reads. }
    split.
    { rewrite Hd2, Hd1. by apply calculateCooldownReduction_reads. }
    split.
    { rewrite P2. fold s'. rewrite P1, map_imap_compose. apply map_imap_ext.
      intros k. fold s. destruct (bodyParts s !! k) as [part|]; [|done].
      cbn [fmap option_fmap option_map mbind option_bind].
      by rewrite preparedPart_idem. }
    split; [congruence|]. split; congruence. }
  destruct Hrest as (Hn & Ht & Hi & Ha & Hc & Hh & Hl & Hw & Hp & Hr & Hd & Hb & Ho
                     & Hy & Hf).
  assert (Hshape : ∀ mv q,
            movement (system twice) = mv → quickness (system twice) = q →
            twice = set_system (set_movement mv (set_quickness q s')) once).
  { intros mv q Hmv Hq.
    assert (Hsys : system twice = set_movement mv (set_quickness q s')).
    { apply systemData_ext; rewrite ?Hmv, ?Hq; by destruct s'. }
    by apply actor_ext. }
  split.
  - apply Hshape; [exact Hm2|exact Hq2].
  - intros Hno.
    destruct (applyMutationBonuses_noSpeed its' s'
                (noSpeedBonuses_prepared _ _ Hno)) as [Hmv Hq].
    rewrite (Hshape (movement s') (quickness s')); [|congruence|congruence].
    destruct once as [? ? ? []]. done.
Qed.

End Twice.

(** ** Levelling up and the recomputed hit points *)

Section LevelUp.
Import Data Actor.

(** The maximum that [_calculateHP] computes. *)
Lemma calculateHP_max s :
  let toughValue := attr_value (toughness (attributes s)) in
  let toughMod := attr_mod (toughness (attributes s)) in
  health_max (health (_calculateHP s))
  = if level s =? 1 then toughValue
    else toughValue
         + JS.sumZ ((λ entry, roll entry + toughMod)
                      <$> drop 1 (default [] (hpHistory (health s)))).
Proof.
  unfold _calculateHP. destruct (level s =? 1); [by destruct s|].
  rewrite recalculateHistory_spec. by destruct s.
Qed.

(** X22.  With the ledger initialised, [levelUp] takes one die, returns
    die + toughness modifier, raises the level by one and appends one ledger
    entry.  When hit points are recomputed afterwards (level not 0 before),
    the maximum has grown by exactly the returned gain, provided the ledger
    was not empty and, at level 1, held just the level-1 entry; if the
    ledger was empty the new entry lands in the slot the recomputation skips
    and the maximum is the toughness value alone. *)
Theorem levelUp_calculateHP this ledger face rest :
  hpHistory (health (system this)) = Some ledger →
  let s := system this in
  let toughValue := attr_value (toughness (attributes s)) in
  let toughMod := attr_mod (toughness (attributes s)) in
  let hpGain := face + toughMod in
  ∃ this',
    levelUp this (face :: rest) = Some (this', hpGain, rest)
    ∧ level (system this') = level s + 1
    ∧ hpHistory (health (system this'))
      = Some (ledger ++ [{| hp_level := level s + 1; roll := face;
                            modifier := toughMod; hp_total := hpGain |}])
    ∧ (level s ≠ 0 →
       let before := health_max (health (_calculateHP s)) in
       let after := health_max (health (_calculateHP (system this'))) in
       (ledger ≠ [] → (level s = 1 → length ledger = 1%nat) →
        after = before + hpGain)
       ∧ (ledger = [] → after = toughValue)).
Proof.
  intros Hledger s toughValue toughMod hpGain.
  eexists. split; [reflexivity|]. rewrite Hledger.
  change (default [] (Some ledger)) with ledger. fold s toughMod hpGain.
  set (entry := {| hp_level := level s + 1; roll := face; modifier := toughMod;
                   hp_total := hpGain |}).
  set (s' := set_level _ _).
  assert (Hs' : level s' = level s + 1
                ∧ attributes s' = attributes s
                ∧ hpHistory (health s') = Some (ledger ++ [entry])).
  { subst s'. by destruct s. }
  destruct Hs' as (Hl & Ha & Hh).
  cbn [system set_system]. split; [done|]. split; [done|].
  intros Hlevel. cbv zeta. fold s in Hledger.
  rewrite !calculateHP_max, Hl, Ha, Hh, Hledger.
  change (default [] (Some ?l)) with l. fold toughValue toughMod.
  assert (Hnext : (level s + 1 =? 1) = false) by (apply Z.eqb_neq; lia).
  rewrite Hnext. split.
  - intros Hne Hone. destruct ledger as [|first ledger]; [done|].
    change (drop 1 ((first :: ledger) ++ [entry])) with (ledger ++ [entry]).
    change (drop 1 (first :: ledger)) with ledger.
    rewrite fmap_app, sumZ_app, fmap_cons, fmap_nil, sumZ_cons, sumZ_nil.
    cbn [roll entry]. destruct (level s =? 1) eqn:E.
    + apply Z.eqb_eq in E. specialize (Hone E). destruct ledger; [|done].
      rewrite fmap_nil, sumZ_nil. unfold hpGain. lia.
    + unfold hpGain. lia.
  - intros ->. change (drop 1 ([] ++ [entry])) with (@nil HpEntry).
    rewrite fmap_nil, sumZ_nil. lia.
Qed.

Lemma levelUp_calculateHP_witness :
  ∃ this',
    levelUp (sampleActor [] (sampleSystem sampleBody 18 2 20 (Some sampleLedger)))
      [3; 1]
    = Some (this', 3, [1])
    ∧ health_max (health (_calculateHP (system this')))
      = health_max (health (_calculateHP
                              (sampleSystem sampleBody 18 2 20 (Some sampleLedger))))
        + 3.
Proof.
  destruct (levelUp_calculateHP
              (sampleActor [] (sampleSystem sampleBody 18 2 20 (Some sampleLedger)))
              sampleLedger 3 [1] eq_refl)
    as (this' & Hrun & _ & _ & Hmax).
  exists this'. split; [exact Hrun|].
  destruct (Hmax ltac:(done)) as [Hgain _]. apply Hgain; done.
Defined.

End LevelUp.

(** ** Removing a part of an equipped body *)

Section Stripping.
Import Data Equipment Mutation.

Implicit Types (m : gmap string BodyParts.BodyPart).

Lemma forEachChild_visits visit (childIds : list string) out :
  BodyParts.forEachChild visit childIds = Some out →
  ∀ c, c ∈ childIds → is_Some (visit c).
Proof.
  revert out. induction childIds as [|c0 childIds IH]; intros out; cbn.
  - intros _ c Hc. by apply elem_of_nil in Hc.
  - destruct (visit c0) as [pushed|] eqn:Hv; [|done].
    destruct (BodyParts.forEachChild visit childIds) as [after|]; [|done].
    intros _ c [->|Hc]%elem_of_cons; [by rewrite Hv|by apply (IH after)].
Qed.

Lemma goesWith_child m partId p x :
  m !! partId = Some p →
  goesWith m partId x
  ↔ x = partId ∨ ∃ c, c ∈ BodyParts.children p ∧ goesWith m c x.
Proof.
  intros Hp. unfold goesWith, descendantOf. split.
  - intros [->|Hd]; [by left|]. right.
    inversion Hd as [? ? (q & Hq & Hc)|? y ? (q & Hq & Hc) Hrest]; subst;
      rewrite Hp in Hq; injection Hq as <-.
    + exists x. split; [done|by left].
    + exists y. split; [done|by right].
  - intros [->|(c & Hc & [->|Hd])]; [by left| |].
    + right. apply tc_once. by exists p.
    + right. eapply tc_l; [|exact Hd]. by exists p.
Qed.

Lemma goesWith_missing m partId x :
  m !! partId = None → goesWith m partId x ↔ x = partId.
Proof.
  intros Hp. unfold goesWith, descendantOf. split; [|by left].
  intros [->|Hd]; [done|].
  inversion Hd as [? ? (q & Hq & _)|? y ? (q & Hq & _) _]; congruence.
Qed.

(** What [collectEquipment] pushes: the items held below the part. *)
Lemma collectEquipment_spec fuel : ∀ m partId toUnequip,
  collectEquipment fuel m partId = Some toUnequip →
  ∀ e, e ∈ toUnequip ↔ heldBelow m partId e.
Proof.
  induction fuel as [|fuel IH]; intros m partId toUnequip; cbn; [done|].
  destruct (m !! partId) as [p|] eqn:Hp.
  - destruct (BodyParts.forEachChild _ _) as [after|] eqn:Hchildren; [|done].
    cbn. intros [= <-] e. rewrite elem_of_app.
    pose proof (forEachChild_Some _ _ _ Hchildren e) as Hafter.
    pose proof (forEachChild_visits _ _ _ Hchildren) as Hvisits.
    rewrite Hafter. unfold heldBelow. split.
    + intros [Hown|(c & pushed & Hc & Hpushed & He)].
      * destruct (BodyParts.equipment p) as [e'|] eqn:Heq; cbn in Hown;
          [|by apply elem_of_nil in Hown].
        destruct (negb (String.eqb e' "")) eqn:Hne; [|by apply elem_of_nil in Hown].
        apply list_elem_of_singleton in Hown as ->.
        exists partId, p. split; [by left|]. split; [done|]. split; [done|].
        apply negb_true_iff, String.eqb_neq in Hne. done.
      * apply (IH _ _ _ Hpushed) in He as (x & q & Hx & Hq & He & Hne).
        exists x, q. split; [|done].
        apply (goesWith_child m partId p x Hp). right. by exists c.
    + intros (x & q & Hx & Hq & He & Hne).
      apply (goesWith_child m partId p x Hp) in Hx as [->|(c & Hc & Hx)].
      * left. rewrite Hp in Hq. injection Hq as <-. rewrite He. cbn.
        apply String.eqb_neq in Hne. rewrite Hne. cbn. apply list_elem_of_here.
      * right. destruct (Hvisits c Hc) as [pushed Hpushed].
        exists c, pushed. split; [done|]. split; [done|].
        apply (IH _ _ _ Hpushed). by exists x, q.
  - intros [= <-] e. split; [by intros ?%elem_of_nil|].
    intros (x & q & Hx & Hq & _). apply (goesWith_missing m partId x Hp) in Hx as ->.
    congruence.
Qed.

Lemma collectEquipment_total rank m :
  ranked rank m →
  ∀ fuel partId, (rank partId < fuel)%nat → is_Some (collectEquipment fuel m partId).
Proof.
  intros Hranked. induction fuel as [|fuel IH]; intros partId Hfuel; [lia|]. cbn.
  destruct (m !! partId) as [p|] eqn:Hp; [|done].
  apply fmap_is_Some, forEachChild_is_Some. intros c Hc. apply IH.
  pose proof (map_Forall_lookup_1 _ _ _ _ Hranked Hp) as Hall. cbn in Hall.
  rewrite Forall_forall in Hall. specialize (Hall c Hc). lia.
Qed.

(** The loop over [toUnequip] clears the flag of exactly the listed items. *)
Lemma unequipAll_spec (toUnequip : list string) : ∀ items : list Item,
  NoDup (item_id <$> items) →
  unequipAll toUnequip items
  = (λ item, if bool_decide (item_id item ∈ toUnequip)
             then set_item_system (set_equipped false (item_system item)) item
             else item) <$> items.
Proof.
  unfold unequipAll.
  induction toUnequip as [|e toUnequip IH]; intros items Hnd; cbn [foldl].
  - rewrite <- (list_fmap_id items) at 1. apply list_fmap_ext. intros i item _.
    cbn. rewrite bool_decide_eq_false_2; [done|]. apply not_elem_of_nil.
  - set (items1 := match items_get items e with
                   | Some item =>
                       if equipped (item_system item)
                       then items_update
                              (set_item_system (set_equipped false (item_system item))
                                 item) items
                       else items
                   | None => items
                   end).
    assert (Hone : items1
                   = (λ item, if String.eqb (item_id item) e
                              then set_item_system
                                     (set_equipped false (item_system item)) item
                              else item) <$> items).
    { subst items1. destruct (items_get items e) as [item|] eqn:Hget.
      - destruct (items_get_Some _ _ _ Hget) as [Hin Hid].
        assert (Hrow : ∀ x, x ∈ items → String.eqb (item_id x) e = true → x = item).
        { intros x Hx Hxe%String.eqb_eq. apply (items_unique items); congruence. }
        destruct (equipped (item_system item)) eqn:Heq.
        + unfold items_update. apply list_fmap_ext. intros i x Hx%list_elem_of_lookup_2.
          cbn. rewrite Hid. destruct (String.eqb (item_id x) e) eqn:E; [|done].
          by rewrite (Hrow x Hx E).
        + rewrite <- (list_fmap_id items) at 1. apply list_fmap_ext.
          intros i x Hx%list_elem_of_lookup_2. cbn.
          destruct (String.eqb (item_id x) e) eqn:E; [|done].
          rewrite (Hrow x Hx E). destruct item as [? ? ? []]. cbn in Heq. by subst.
      - rewrite <- (list_fmap_id items) at 1. apply list_fmap_ext.
        intros i x Hx%list_elem_of_lookup_2. cbn.
        destruct (String.eqb (item_id x) e) eqn:E; [|done].
        apply String.eqb_eq in E. by destruct (items_get_None _ _ Hget x Hx). }
    rewrite IH.
    2:{ rewrite Hone, <- list_fmap_compose.
        replace (item_id <$> items) with ((λ x, item_id x) <$> items) in Hnd by done.
        erewrite list_fmap_ext; [exact Hnd|]. intros i x _. cbn.
        by destruct (String.eqb (item_id x) e). }
    rewrite Hone, <- list_fmap_compose. apply list_fmap_ext. intros i x _. cbn.
    destruct (String.eqb (item_id x) e) eqn:E.
    + apply String.eqb_eq in E. cbn.
      rewrite (bool_decide_eq_true_2 (item_id x ∈ e :: toUnequip))
        by (rewrite E; apply list_elem_of_here).
      destruct (bool_decide (item_id x ∈ toUnequip)); [|done].
      by destruct x as [? ? ? []].
    + apply String.eqb_neq in E.
      destruct (bool_decide (item_id x ∈ toUnequip)) eqn:D.
      * apply bool_decide_eq_true in D.
        by rewrite bool_decide_eq_true_2 by (by apply list_elem_of_further).
      * apply bool_decide_eq_false in D.
        rewrite bool_decide_eq_false_2; [done|].
        intros [?|?]%elem_of_cons; done.
Qed.

Lemma heldBelow_dec_removed m partId (removed : list string) :
  (∀ x, x ∈ removed ↔ goesWith m partId x) →
  ∀ e, e ≠ "" → held m e ↔ heldBelow m partId e ∨ heldBeside m partId e.
Proof.
  intros Hremoved e Hne. unfold held, heldBelow, heldBeside. split.
  - intros (x & p & Hp & He).
    destruct (decide (x ∈ removed)) as [Hx|Hx].
    + left. exists x, p. by rewrite <- Hremoved.
    + right. exists x, p. by rewrite <- Hremoved.
  - intros [(x & p & _ & Hp & He & _)|(x & p & _ & Hp & He)]; by exists x, p.
Qed.

(** X23.  Removing a stored part of an acyclic body whose slots and flags are
    in step: the call returns the part and its descendants as removed, these
    are gone from the body and every other part keeps its slot; the item ids
    are unchanged, an item held on a removed part comes out unflagged and
    every other item is untouched.  Slots and flags are in step again
    exactly when no item of the actor is held both on a removed part and on
    a part that stays. *)
Theorem removeBodyPartMutation_unequips rank this partId part fuel :
  let m := bodyParts (system this) in
  ranked rank m → m !! partId = Some part → (rank partId < fuel)%nat →
  slotsInStep this →
  ∃ this' removed,
    removeBodyPartMutation fuel this partId = Some (this', removed)
    ∧ (∀ x, x ∈ removed ↔ goesWith m partId x)
    ∧ (∀ x, x ∈ removed → bodyParts (system this') !! x = None)
    ∧ (∀ x, x ∉ removed →
         BodyParts.equipment <$> bodyParts (system this') !! x
         = BodyParts.equipment <$> m !! x)
    ∧ item_id <$> items this' = item_id <$> items this
    ∧ (∀ item, item ∈ items this → heldBelow m partId (item_id item) →
         set_item_system (set_equipped false (item_system item)) item ∈ items this')
    ∧ (∀ item, item ∈ items this → ¬ heldBelow m partId (item_id item) →
         item ∈ items this')
    ∧ (slotsInStep this'
       ↔ ∀ item, item ∈ items this → heldBelow m partId (item_id item) →
                 ¬ heldBeside m partId (item_id item)).
Proof.
  intros m Hranked Hpart Hfuel Hstep. unfold removeBodyPartMutation. fold m.
  rewrite Hpart.
  destruct (collectEquipment_total rank m Hranked fuel partId Hfuel)
    as [toUnequip HtoUnequip].
  rewrite HtoUnequip.
  pose proof (collectEquipment_spec fuel m partId toUnequip HtoUnequip) as Hlisted.
  destruct (removeBodyPart_lookup rank m partId part fuel Hranked Hpart Hfuel)
    as (m' & removed & Hrun & Hremoved & Hlookup).
  rewrite Hrun.
  assert (Hself : partId ∈ removed) by (apply Hremoved; by left).
  assert (Hlen : (0 <? length removed)%nat = true).
  { destruct removed; [by apply elem_of_nil in Hself|done]. }
  rewrite Hlen. eexists _, removed. split; [reflexivity|].
  assert (Hgoes : ∀ x, x ∈ removed ↔ goesWith m partId x) by exact Hremoved.
  assert (Hgone : ∀ x, x ∈ removed → m' !! x = None).
  { intros x Hx. by rewrite Hlookup, bool_decide_eq_true_2. }
  assert (Hkept : ∀ x, x ∉ removed →
            BodyParts.equipment <$> m' !! x = BodyParts.equipment <$> m !! x).
  { intros x Hx. rewrite Hlookup, bool_decide_eq_false_2 by done.
    case_bool_decide; [|done]. by destruct (m !! x). }
  rewrite (unequipAll_spec toUnequip (items this) (sis_ids _ Hstep)).
  set (unflag := λ item : Item,
         if bool_decide (item_id item ∈ toUnequip)
         then set_item_system (set_equipped false (item_system item)) item
         else item).
  assert (Hid : ∀ item, item_id (unflag item) = item_id item).
  { intros item. unfold unflag. by destruct (bool_decide _). }
  assert (Hbody : bodyParts (system (set_items (unflag <$> items this)
                                       (update_bodyParts m' this))) = m')
    by (by destruct this as [? ? ? []]).
  assert (Hitems : items (set_items (unflag <$> items this)
                            (update_bodyParts m' this)) = unflag <$> items this)
    by (by destruct this).
  rewrite Hbody, Hitems.
  assert (Hbeside : ∀ e, held m' e ↔ heldBeside m partId e).
  { intros e. unfold held, heldBeside. split.
    - intros (x & p' & Hp' & He).
      destruct (decide (x ∈ removed)) as [Hx|Hx]; [by rewrite (Hgone x Hx) in Hp'|].
      pose proof (Hkept x Hx) as Hk. rewrite Hp' in Hk. cbn in Hk.
      destruct (m !! x) as [p|] eqn:Hp; [|done]. cbn in Hk. injection Hk as Hk.
      exists x, p. rewrite <- Hgoes. split; [done|]. split; [done|]. congruence.
    - intros (x & p & Hx & Hp & He). rewrite <- Hgoes in Hx.
      pose proof (Hkept x Hx) as Hk. rewrite Hp in Hk. cbn in Hk.
      destruct (m' !! x) as [p'|] eqn:Hp'; [|done]. cbn in Hk. injection Hk as Hk.
      exists x, p'. split; [done|]. congruence. }
  split; [exact Hgoes|]. split; [exact Hgone|]. split; [exact Hkept|].
  split.
  { rewrite <- list_fmap_compose. apply list_fmap_ext. intros i item _. apply Hid. }
  split.
  { intros item Hin Hbelow. apply list_elem_of_fmap. exists item. split; [|done].
    unfold unflag. by rewrite bool_decide_eq_true_2 by (by apply Hlisted). }
  split.
  { intros item Hin Hbelow. apply list_elem_of_fmap. exists item. split; [|done].
    unfold unflag. rewrite bool_decide_eq_false_2; [done|]. by rewrite Hlisted. }
  split.
  - intros Hstep' item Hin Hbelow Hbeside'.
    assert (Hin' : unflag item ∈ unflag <$> items this)
      by (apply list_elem_of_fmap; by exists item).
    pose proof (sis_flags _ Hstep' (unflag item)) as Hflag.
    rewrite Hitems, Hbody, Hid in Hflag. specialize (Hflag Hin').
    apply Hbeside, Hflag in Hbeside'. revert Hbeside'. unfold unflag.
    rewrite bool_decide_eq_true_2 by (by apply Hlisted). by destruct item as [? ? ? []].
  - intros Hapart. split.
    + rewrite Hitems, <- list_fmap_compose.
      erewrite list_fmap_ext; [exact (sis_ids _ Hstep)|]. intros i item _. apply Hid.
    + rewrite Hitems. intros item' (item & -> & Hin)%list_elem_of_fmap.
      rewrite Hid. by apply (sis_nonempty _ Hstep).
    + rewrite Hbody. intros x p' Hp' He.
      destruct (decide (x ∈ removed)) as [Hx|Hx]; [by rewrite (Hgone x Hx) in Hp'|].
      pose proof (Hkept x Hx) as Hk. rewrite Hp' in Hk. cbn in Hk.
      destruct (m !! x) as [p|] eqn:Hp; [|done]. cbn in Hk. injection Hk as Hk.
      apply (sis_slots _ Hstep x p Hp). congruence.
    + rewrite Hitems, Hbody. intros item' (item & -> & Hin)%list_elem_of_fmap.
      rewrite Hid, Hbeside.
      pose proof (sis_flags _ Hstep item Hin) as Hflag. fold m in Hflag.
      rewrite (heldBelow_dec_removed m partId removed Hgoes (item_id item)
                 (sis_nonempty _ Hstep item Hin)) in Hflag.
      unfold unflag. case_bool_decide as Hl; rewrite Hlisted in Hl.
      * split; [by destruct item as [? ? ? []]|]. intros Hb.
        by destruct (Hapart item Hin Hl).
      * rewrite Hflag. tauto.
Qed.

(** A witness of [removeBodyPartMutation_unequips]: the geared sample actor
    loses its arm; the hand goes with it and the sword comes out unflagged. *)
Lemma removeBodyPartMutation_unequips_witness :
  ∃ this' removed,
    removeBodyPartMutation 2 gearedActor "arm" = Some (this', removed)
    ∧ "hand" ∈ removed
    ∧ sampleGear "sword" "weapon" "" false ∈ items this'
    ∧ slotsInStep this'.
Proof.
  destruct (removeBodyPartMutation_unequips sampleRank gearedActor "arm"
              (samplePart "arm" "Arm" (Some "body") ["hand"] None) 2
              (wf_ranked _ _ sampleBody_wellFormed) eq_refl
              ltac:(vm_compute; lia) gearedActor_slotsInStep)
    as (this' & removed & Hrun & Hremoved & _ & _ & _ & Hbelow & _ & Hstep).
  assert (Hhand : goesWith sampleBody "arm" "hand").
  { right. apply tc_once. eexists. split; [by vm_compute|]. cbn. apply list_elem_of_here. }
  exists this', removed. split; [exact Hrun|]. split; [by apply Hremoved|]. split.
  - apply (Hbelow (sampleGear "sword" "weapon" "" true)); [apply list_elem_of_here|].
    exists "hand", (samplePart "hand" "Hand" (Some "arm") [] (Some "sword")).
    split; [exact Hhand|]. split; [by vm_compute|]. done.
  - apply Hstep. intros item Hin (x & p & Hx & Hp & He & _) (y & q & Hy & Hq & He').
    cbn in Hp, Hq. unfold sampleBody in Hp, Hq.
    each_part Hq; cbn in He'; done.
Defined.

End Stripping.

(** ** The pipeline and the structure of the body *)

Section Structure.
Import Data Actor.

Variable evalFormula : string → Z → Z.

Implicit Types (m : gmap string BodyParts.BodyPart).

Lemma getMutationLevelForBodyPart_prepared its s partId :
  _getMutationLevelForBodyPart (_calculateNaturalArmor evalFormula its s).1 partId
  = _getMutationLevelForBodyPart its partId.
Proof.
  rewrite calculateNaturalArmor_item.
  induction its as [|item its IH]; [done|].
  rewrite fmap_cons. cbn [_getMutationLevelForBodyPart]. rewrite IH.
  destruct (prepared_item_cases evalFormula item) as [Heq|[tracking Heq]];
    cbv zeta in Heq; rewrite Heq; [done|].
  by destruct item as [? ? ? []].
Qed.

Lemma naturalChance_prepared its s type chance :
  naturalChance (_calculateNaturalArmor evalFormula its s).1 type chance
  = naturalChance its type chance.
Proof.
  rewrite calculateNaturalArmor_item.
  induction its as [|item its IH]; [done|].
  rewrite fmap_cons. cbn [naturalChance]. rewrite IH.
  destruct (prepared_item_cases evalFormula item) as [Heq|[tracking Heq]];
    cbv zeta in Heq; rewrite Heq; [done|].
  by destruct item as [? ? ? []].
Qed.

Lemma preparedPart_prepared its s x partId part :
  preparedPart evalFormula (_calculateNaturalArmor evalFormula its s).1 x partId part
  = preparedPart evalFormula its x partId part.
Proof.
  unfold preparedPart, _calculateOffhandChance.
  by rewrite getMutationLevelForBodyPart_prepared, naturalChance_prepared,
    armorOf_prepared, wingsOf_prepared.
Qed.

(** Two bodies whose parts agree on everything the hierarchy reads are
    well-formed together. *)
Lemma wellFormed_frame rank m m' (g : string → BodyParts.BodyPart → BodyParts.BodyPart) :
  (∀ x, m' !! x = g x <$> m !! x) →
  (∀ x p, BodyParts.id (g x p) = BodyParts.id p
          ∧ BodyParts.parent (g x p) = BodyParts.parent p
          ∧ BodyParts.children (g x p) = BodyParts.children p) →
  wellFormed rank m' ↔ wellFormed rank m.
Proof.
  intros Hlookup Hg.
  assert (Hto : ∀ x p, m !! x = Some p → m' !! x = Some (g x p)).
  { intros x p Hp. by rewrite Hlookup, Hp. }
  assert (Hfrom : ∀ x p', m' !! x = Some p' → ∃ p, m !! x = Some p ∧ p' = g x p).
  { intros x p' Hp'. rewrite Hlookup in Hp'. destruct (m !! x) as [p|]; [|done].
    injection Hp' as <-. by exists p. }
  split; intros [Hid Hchildren Hparent Hranked]; split.
  - intros k p Hp. destruct (Hid k _ (Hto k p Hp)) as [Hi Hk].
    destruct (Hg k p) as (-> & _ & _) in Hi. done.
  - intros k p c Hp Hc.
    destruct (Hchildren k _ c (Hto k p Hp)) as (q' & Hq' & Hpar).
    { by destruct (Hg k p) as (_ & _ & ->). }
    destruct (Hfrom c q' Hq') as (q & Hq & ->). exists q. split; [done|].
    by destruct (Hg c q) as (_ & <- & _).
  - intros k p y Hp Hy.
    destruct (Hparent k _ y (Hto k p Hp)) as (q' & Hq' & Hin).
    { by destruct (Hg k p) as (_ & -> & _). }
    destruct (Hfrom y q' Hq') as (q & Hq & ->). exists q. split; [done|].
    by destruct (Hg y q) as (_ & _ & <-).
  - intros k p Hp. pose proof (Hranked k _ (Hto k p Hp)) as Hall. cbn in Hall |- *.
    by destruct (Hg k p) as (_ & _ & <-).
  - intros k p' Hp'. destruct (Hfrom k p' Hp') as (p & Hp & ->).
    destruct (Hg k p) as (-> & _ & _). by apply (Hid k p).
  - intros k p' c Hp' Hc. destruct (Hfrom k p' Hp') as (p & Hp & ->).
    destruct (Hg k p) as (_ & _ & Hch). rewrite Hch in Hc.
    destruct (Hchildren k p c Hp Hc) as (q & Hq & Hpar).
    exists (g c q). split; [by apply Hto|]. by destruct (Hg c q) as (_ & -> & _).
  - intros k p' y Hp' Hy. destruct (Hfrom k p' Hp') as (p & Hp & ->).
    destruct (Hg k p) as (_ & Hpa & _). rewrite Hpa in Hy.
    destruct (Hparent k p y Hp Hy) as (q & Hq & Hin).
    exists (g y q). split; [by apply Hto|]. by destruct (Hg y q) as (_ & _ & ->).
  - intros k p' Hp'. destruct (Hfrom k p' Hp') as (p & Hp & ->).
    pose proof (Hranked k p Hp) as Hall. cbn in Hall |- *.
    by destruct (Hg k p) as (_ & _ & ->).
Qed.

(** Two actors whose items agree on id and flag and whose parts agree on the
    slot are in step together. *)
Lemma slotsInStep_frame (this this' : Actor) (f : Item → Item)
    (g : string → BodyParts.BodyPart → BodyParts.BodyPart) :
  items this' = f <$> items this →
  (∀ item, item_id (f item) = item_id item
           ∧ equipped (item_system (f item)) = equipped (item_system item)) →
  (∀ x, bodyParts (system this') !! x = g x <$> bodyParts (system this) !! x) →
  (∀ x p, BodyParts.equipment (g x p) = BodyParts.equipment p) →
  slotsInStep this' ↔ slotsInStep this.
Proof.
  intros Hitems Hf Hlookup Hg.
  assert (Hids : item_id <$> items this' = item_id <$> items this).
  { rewrite Hitems, <- list_fmap_compose. apply list_fmap_ext. intros i item _.
    apply Hf. }
  assert (Hheld : ∀ e, held (bodyParts (system this')) e
                       ↔ held (bodyParts (system this)) e).
  { intros e. unfold held. split.
    - intros (x & p' & Hp' & He). rewrite Hlookup in Hp'.
      destruct (bodyParts (system this) !! x) as [p|] eqn:Hp; [|done].
      injection Hp' as <-. exists x, p. by rewrite <- (Hg x p).
    - intros (x & p & Hp & He). exists x, (g x p). by rewrite Hlookup, Hp, Hg. }
  split; intros [Hnd Hne Hslots Hflags]; split.
  - by rewrite <- Hids.
  - intros item Hin. destruct (Hf item) as [<- _]. apply Hne. rewrite Hitems.
    apply list_elem_of_fmap. by exists item.
  - intros x p Hp. rewrite <- (Hg x p). apply (Hslots x). by rewrite Hlookup, Hp.
  - intros item Hin. destruct (Hf item) as [<- <-]. rewrite <- Hheld. apply Hflags.
    rewrite Hitems. apply list_elem_of_fmap. by exists item.
  - by rewrite Hids.
  - rewrite Hitems. intros item' (item & -> & Hin)%list_elem_of_fmap.
    destruct (Hf item) as [-> _]. by apply Hne.
  - intros x p' Hp'. rewrite Hlookup in Hp'.
    destruct (bodyParts (system this) !! x) as [p|] eqn:Hp; [|done].
    injection Hp' as <-. rewrite Hg. by apply (Hslots x).
  - rewrite Hitems. intros item' (item & -> & Hin)%list_elem_of_fmap.
    destruct (Hf item) as [-> ->]. rewrite Hheld. by apply Hflags.
Qed.

(** X24.  [_prepareCharacterData] never touches the structure of the body or
    the equipment state: each stored part comes out with only its wings
    flag, natural armor and offhand chance recomputed, the items keep their
    ids and equipped flags, and the result is a well-formed hierarchy, or
    has its flags in step with its slots, exactly when the actor it started
    from was. *)
Theorem prepareCharacterData_structure this :
  let after := _prepareCharacterData evalFormula this in
  (∀ x, bodyParts (system after) !! x
        = preparedPart evalFormula (items this) (system this) x
            <$> bodyParts (system this) !! x)
  ∧ item_id <$> items after = item_id <$> items this
  ∧ (λ item, equipped (item_system item)) <$> items after
    = (λ item, equipped (item_system item)) <$> items this
  ∧ (∀ rank, wellFormed rank (bodyParts (system after))
             ↔ wellFormed rank (bodyParts (system this)))
  ∧ (slotsInStep after ↔ slotsInStep this).
Proof.
  intros after.
  assert (Hitems : items after
                   = (λ item, match grantsArmor item with
                              | Some _ => initQuills evalFormula item
                              | None => item
                              end) <$> items this).
  { destruct (prepareCharacterData_fields evalFormula this) as ((_ & _ & Hi) & _).
    subst after. rewrite Hi. apply calculateNaturalArmor_item. }
  assert (Hf : ∀ item,
            let item' := match grantsArmor item with
                         | Some _ => initQuills evalFormula item
                         | None => item
                         end in
            item_id item' = item_id item
            ∧ equipped (item_system item') = equipped (item_system item)).
  { intros item. destruct (prepared_item_cases evalFormula item) as [Heq|[tracking Heq]];
      cbv zeta in Heq |- *; rewrite Heq; [done|]. by destruct item as [? ? ? []]. }
  assert (Hparts : ∀ x, bodyParts (system after) !! x
                        = preparedPart evalFormula (items this) (system this) x
                            <$> bodyParts (system this) !! x).
  { intros x. subst after. rewrite prepareCharacterData_parts, map_lookup_imap.
    destruct (prepareCharacterData_fields evalFormula this) as ((_ & _ & Hi) & _).
    rewrite Hi. destruct (bodyParts (system this) !! x) as [p|]; [|done].
    cbn [mbind option_bind fmap option_fmap option_map].
    by rewrite preparedPart_prepared. }
  split; [exact Hparts|]. split.
  { rewrite Hitems, <- list_fmap_compose. apply list_fmap_ext. intros i item _.
    apply Hf. }
  split.
  { rewrite Hitems, <- list_fmap_compose. apply list_fmap_ext. intros i item _.
    apply Hf. }
  split.
  - intros rank.
    by apply (wellFormed_frame rank _ _
                (preparedPart evalFormula (items this) (system this))).
  - by apply (slotsInStep_frame this after _
                (preparedPart evalFormula (items this) (system this)) Hitems).
Qed.

End Structure.
